(** * jenkins_jobs.registry: the module registry and its dispatcher

    A shallow embedding of [src/jenkins_jobs/registry.py] (class
    [ModuleRegistry]) and the properties of its plugin metadata store and of
    [dispatch].

    Conventions of the embedding:
    - YAML data is the type [pyval] (floats are left out); a mapping is an
      association list in insertion order with string keys (component,
      parameter and field names);
    - the class attributes [_entry_points_cache] and [_component_type_cache]
      live in the [process] state, shared by every registry; the instance
      attributes live in [ModuleRegistry];
    - log records, calls of [deep_format] and calls of generator functions are
      recorded, in order, in the trace of the process; what a generator does
      once it is called belongs to the modules, not to the registry;
    - [pkg_resources] and the formatter are an [environment] that the
      registry is run in;
    - an exception is an outcome of the computation, next to a value;
      [dispatch] recurses through macros without a bound, so it takes fuel. *)

From Stdlib Require Import ZArith Ascii String.
From stdpp Require Import gmap strings list fin_maps vector.

Set Warnings "-register-all,-clear-no-such-hyp".

Local Open Scope string_scope.
Local Open Scope list_scope.
Local Open Scope Z_scope.
Local Open Scope nat_scope.

(** ** Python values *)

Module Py.

(** The YAML values a job definition is made of. [VJinja2Loader] is an
    instance of [jenkins_jobs.local_yaml.Jinja2Loader], a template whose
    rendering is deferred. *)
Inductive pyval : Type :=
| VNone
| VBool (b : bool)
| VInt (z : Z)
| VStr (s : string)
| VList (l : list pyval)
| VDict (d : list (string * pyval))
| VJinja2Loader (template : string).

Abbreviation dict := (list (string * pyval)).

(** [bool(v)]: the truth value Python gives to [v] in [if v] and [v or w]. *)
Definition truthy (v : pyval) : bool :=
  match v with
  | VNone => false
  | VBool b => b
  | VInt z => negb (z =? 0)%Z
  | VStr s => negb (String.eqb s "")
  | VList l => match l with [] => false | _ => true end
  | VDict d => match d with [] => false | _ => true end
  | VJinja2Loader _ => true
  end.

(** [isinstance(v, dict)] and [isinstance(v, Jinja2Loader)]. *)
Definition is_dict (v : pyval) : bool :=
  match v with VDict _ => true | _ => false end.

Definition is_Jinja2Loader (v : pyval) : bool :=
  match v with VJinja2Loader _ => true | _ => false end.

(** [hash(v)] is defined: lists and dicts are unhashable. *)
Definition hashable (v : pyval) : bool :=
  match v with VList _ | VDict _ => false | _ => true end.

(** The exceptions of the embedding, all of them subclasses of [Exception].
    A [JenkinsJobsException] carries the format string of its message and
    the arguments given to [format]. *)
Inductive exn : Type :=
| JenkinsJobsException (fmt : string) (args : list pyval)
| TypeError (what : string)
| ValueError (what : string)
| KeyError (key : string)
| AttributeError (what : string)
| StopIteration
| OtherException (cls : string) (payload : pyval).

(** [d.get(k)] *)
Fixpoint dict_get (k : string) (d : dict) : option pyval :=
  match d with
  | [] => None
  | (k', v) :: d' => if String.eqb k k' then Some v else dict_get k d'
  end.

(** [d[k] = v]: an existing key keeps its position, a new one goes last. *)
Fixpoint dict_set (k : string) (v : pyval) (d : dict) : dict :=
  match d with
  | [] => [(k, v)]
  | (k', v') :: d' =>
      if String.eqb k k' then (k', v) :: d' else (k', v') :: dict_set k v d'
  end.

(** [d.update(other)] for a mapping [other]. *)
Definition dict_merge (d other : dict) : dict :=
  fold_left (fun acc kv => dict_set (fst kv) (snd kv) acc) other d.

(** What [d.update(v)] can do besides returning the updated mapping:
    raise, or need a key that is not a string (outside the embedding). *)
Inductive update_result : Type :=
| Updated (d : dict)
| UpdateRaises (e : exn)
| UpdateNonStringKey.

(** One element of the sequence given to [d.update(seq)]: it has to be an
    iterable of length two, the key and the value. Iterating a string gives
    its characters, iterating a mapping its keys. *)
Definition update_pair (d : dict) (item : pyval) : update_result :=
  match item with
  | VList [VStr k; v] => Updated (dict_set k v d)
  | VList [VList _; _] | VList [VDict _; _] =>
      UpdateRaises (TypeError "unhashable type")
  | VList [_; _] => UpdateNonStringKey
  | VStr (String a (String b EmptyString)) =>
      Updated (dict_set (String a EmptyString) (VStr (String b EmptyString)) d)
  | VDict [(k1, _); (k2, _)] => Updated (dict_set k1 (VStr k2) d)
  | VList _ | VStr _ | VDict _ =>
      UpdateRaises (ValueError "dictionary update sequence element has length other than 2")
  | VNone | VBool _ | VInt _ | VJinja2Loader _ =>
      UpdateRaises (TypeError "cannot convert dictionary update sequence element to a sequence")
  end.

Fixpoint update_pairs (d : dict) (items : list pyval) : update_result :=
  match items with
  | [] => Updated d
  | item :: items' =>
      match update_pair d item with
      | Updated d' => update_pairs d' items'
      | r => r
      end
  end.

(** The characters of a string, as Python iterates them. *)
Fixpoint chars (s : string) : list pyval :=
  match s with
  | EmptyString => []
  | String c s' => VStr (String c EmptyString) :: chars s'
  end.

(** [d.update(v)] for any value [v]: a mapping is merged; anything else is
    iterated as a sequence of key/value pairs. *)
Definition dict_update (d : dict) (v : pyval) : update_result :=
  match v with
  | VDict other => Updated (dict_merge d other)
  | VList items => update_pairs d items
  | VStr s => update_pairs d (chars s)
  | VNone | VBool _ | VInt _ | VJinja2Loader _ =>
      UpdateRaises (TypeError "object is not iterable")
  end.

(** [v[key]] for a string [key]. *)
Definition getitem (v : pyval) (key : string) : exn + pyval :=
  match v with
  | VDict d =>
      match dict_get key d with
      | Some x => inr x
      | None => inl (KeyError key)
      end
  | VList _ => inl (TypeError "list indices must be integers or slices, not str")
  | VStr _ => inl (TypeError "string indices must be integers")
  | VNone | VBool _ | VInt _ | VJinja2Loader _ =>
      inl (TypeError "object is not subscriptable")
  end.

(** The items [for b in v] goes through. *)
Definition iterate (v : pyval) : exn + list pyval :=
  match v with
  | VList l => inr l
  | VDict d => inr (map (fun kv => VStr (fst kv)) d)
  | VStr s => inr (chars s)
  | VNone | VBool _ | VInt _ | VJinja2Loader _ =>
      inl (TypeError "object is not iterable")
  end.

(** [s.split(sep)] for a one-character separator: every occurrence splits,
    and the result is never empty. *)
Fixpoint split (sep : ascii) (s : string) : list string :=
  match s with
  | EmptyString => [EmptyString]
  | String c s' =>
      if Ascii.eqb c sep then EmptyString :: split sep s'
      else match split sep s' with
           | [] => [String c EmptyString]
           | w :: ws => String c w :: ws
           end
  end.

(** [s.startswith(p)] *)
Definition startswith (p s : string) : bool := String.prefix p s.

End Py.

Export Py.

(** ** Regular expressions: the fragment of [re] that the registry uses *)

Module Re.

(** The pattern language: literals, [.*] (greedy; [.] matches everything but
    a newline), concatenation, alternation (left first) and the capturing
    group number 1. *)
Inductive regex : Type :=
| Eps
| Chr (c : ascii)
| DotStar
| Cat (r1 r2 : regex)
| Alt (r1 r2 : regex)
| Group1 (r : regex).

Definition newline : ascii := "010"%char.

(** A literal string. *)
Fixpoint lit (s : string) : regex :=
  match s with
  | EmptyString => Eps
  | String c s' => Cat (Chr c) (lit s')
  end.

(** The first [length s - length rest] characters of [s]: what a match that
    started at [s] and stopped at [rest] has consumed. *)
Definition consumed (s rest : string) : string :=
  String.substring 0 (String.length s - String.length rest) s.

Section Matcher.
Context {X : Type}.

(** Greedy [.*]: take the longest run first and give characters back one
    at a time until the continuation succeeds. *)
Fixpoint dot_star (s : string) (k : string -> option X) : option X :=
  match s with
  | EmptyString => k EmptyString
  | String c s' =>
      if Ascii.eqb c newline then k s
      else match dot_star s' k with
           | Some x => Some x
           | None => k s
           end
  end.

(** A backtracking matcher in continuation-passing style: [k] receives
    the rest of the input and the text of group 1, if it took part. *)
Fixpoint rx_match (r : regex) (s : string) (g : option string)
    (k : string -> option string -> option X) : option X :=
  match r with
  | Eps => k s g
  | Chr c =>
      match s with
      | String c' s' => if Ascii.eqb c c' then k s' g else None
      | EmptyString => None
      end
  | DotStar => dot_star s (fun s' => k s' g)
  | Cat r1 r2 => rx_match r1 s g (fun s' g' => rx_match r2 s' g' k)
  | Alt r1 r2 =>
      match rx_match r1 s g k with
      | Some x => Some x
      | None => rx_match r2 s g k
      end
  | Group1 r1 => rx_match r1 s g (fun s' _ => k s' (Some (consumed s s')))
  end.
End Matcher.

(** [re.match] at the start of [s]: the rest of the input and group 1. *)
Definition match_here (r : regex) (s : string) : option (string * option string) :=
  rx_match r s None (fun s' g => Some (s', g)).

(** A replacement template: text and references to group 1 ([\g<1>]). *)
Inductive repl_item : Type :=
| Text (s : string)
| GroupRef1.

Fixpoint expand (repl : list repl_item) (g : option string) : string :=
  match repl with
  | [] => EmptyString
  | Text t :: repl' => t +:+ expand repl' g
  | GroupRef1 :: repl' => default EmptyString g +:+ expand repl' g
  end.

(** [re.sub]: scan from the left; a match is replaced by the expanded
    template and the scan resumes after it; a character where no match
    starts is copied. An empty match is replaced and the next character
    copied (Python 3.7 and later). [fuel] bounds the number of scan steps;
    [sub] gives one more than the length of the input, which is enough. *)
Fixpoint sub_from (fuel : nat) (r : regex) (repl : list repl_item) (s : string) : string :=
  match fuel with
  | O => s
  | S fuel' =>
      let copy :=
        match s with
        | EmptyString => EmptyString
        | String c s' => String c (sub_from fuel' r repl s')
        end in
      match match_here r s with
      | Some (rest, g) =>
          if String.length rest <? String.length s
          then expand repl g +:+ sub_from fuel' r repl rest
          else expand repl g +:+ copy
      | None => copy
      end
  end.

Definition sub (r : regex) (repl : list repl_item) (s : string) : string :=
  sub_from (S (String.length s)) r repl s.

End Re.

(** ** The plugin metadata store *)

(** The pattern of [mutate_plugin_info]: group 1 is a greedy run of
    characters, followed by a dash and SNAPSHOT or BETA, followed by a run of
    characters that are dropped. *)
Definition version_pattern : Re.regex :=
  Re.Cat (Re.Group1 Re.DotStar)
    (Re.Cat (Re.Chr "-")
       (Re.Cat (Re.Alt (Re.lit "SNAPSHOT") (Re.lit "BETA")) Re.DotStar)).

(** Its replacement: group 1 followed by .preview *)
Definition version_repl : list Re.repl_item :=
  [Re.GroupRef1; Re.Text ".preview"].

(** [re.sub(pattern, replacement, version)] *)
Definition normalize_version (version : string) : string :=
  Re.sub version_pattern version_repl version.

(** ** Outcomes of a computation, and computations on a state *)

(** A call returns a value or raises. The embedding has two more outcomes:
    the fuel given to a recursion ran out, or the code needed a mapping key
    that is not a string. *)
Inductive outcome (A : Type) : Type :=
| Val (a : A)
| Raise (e : exn)
| OutOfFuel
| NonStringKey.

Arguments Val {A} a.
Arguments Raise {A} e.
Arguments OutOfFuel {A}.
Arguments NonStringKey {A}.

Definition outcome_bind {A B : Type} (o : outcome A) (k : A -> outcome B) : outcome B :=
  match o with
  | Val a => k a
  | Raise e => Raise e
  | OutOfFuel => OutOfFuel
  | NonStringKey => NonStringKey
  end.

(** A computation on a state of type [St]: the state is kept when the
    computation raises, as Python keeps the objects already mutated. *)
Definition M (St A : Type) : Type := St -> outcome A * St.

Definition ret {St A : Type} (a : A) : M St A := fun s => (Val a, s).

Definition bind {St A B : Type} (c : M St A) (k : A -> M St B) : M St B :=
  fun s =>
    match c s with
    | (Val a, s') => k a s'
    | (Raise e, s') => (Raise e, s')
    | (OutOfFuel, s') => (OutOfFuel, s')
    | (NonStringKey, s') => (NonStringKey, s')
    end.

Definition raise {St A : Type} (e : exn) : M St A := fun s => (Raise e, s).
Definition stop {St A : Type} (o : outcome A) : M St A := fun s => (o, s).
Definition get {St : Type} : M St St := fun s => (Val s, s).
Definition modify {St : Type} (f : St -> St) : M St unit := fun s => (Val tt, f s).

Declare Scope py_scope.
Delimit Scope py_scope with py.
Notation "'let*' x ':=' c 'in' k" := (bind c (fun x => k))
  (at level 10, x pattern, c at level 100, k at level 200) : py_scope.
Notation "c ';;' k" := (bind c (fun _ => k))
  (at level 100, k at level 200, right associativity) : py_scope.
Notation "'let?' x ':=' c 'in' k" := (outcome_bind c (fun x => k))
  (at level 10, x pattern, c at level 100, k at level 200) : py_scope.

Local Open Scope py_scope.

(** [for x in l: f(x)] *)
Fixpoint for_each {St A : Type} (f : A -> M St unit) (l : list A) : M St unit :=
  match l with
  | [] => ret tt
  | x :: l' => f x ;; for_each f l'
  end.

(** A value or the exception that evaluating it raises. *)
Definition lift {St A : Type} (r : exn + A) : M St A :=
  match r with
  | inl e => raise e
  | inr a => ret a
  end.

(** ** [_get_plugins_info_dict]

    The elements of [plugins_list] are objects: [mutate_plugin_info] changes
    each of them in place, the resulting dictionary refers to them, and the
    caller may list one object more than once. The objects are a store, a
    vector; a reference to an object is its position in the store, and the
    list is the list of the references of its elements, in order. The
    builder returns the store as it left it, and the dictionary from an alias
    to the reference of the object it stands for. *)

(** A key of a [gmap string _]: a string is one; a list or a mapping is
    unhashable. *)
Definition as_key (v : pyval) : outcome string :=
  match v with
  | VStr s => Val s
  | VList _ | VDict _ => Raise (TypeError "unhashable type")
  | VNone | VBool _ | VInt _ | VJinja2Loader _ => NonStringKey
  end.

(** The loop that collects the aliases: the values of the two name fields
    that are present and not [None]. *)
Definition collect_aliases (plugin_info : dict) : list pyval :=
  flat_map
    (fun key =>
       match default VNone (dict_get key plugin_info) with
       | VNone => []
       | value => [value]
       end)
    ["longName"; "shortName"].

(** The loop [for name in aliases: plugin_info_dict[name] = plugin_info],
    where [ref] is the reference to [plugin_info]. *)
Fixpoint alias_dict (ref : nat) (aliases : list pyval) (plugin_info_dict : gmap string nat)
    : outcome (gmap string nat) :=
  match aliases with
  | [] => Val plugin_info_dict
  | name :: aliases' =>
      let? key := as_key name in
      alias_dict ref aliases' (<[key := ref]> plugin_info_dict)
  end.

(** [mutate_plugin_info(plugin_info)] for the object of reference [ref]:
    the object after the call and the returned dictionary. [re.sub] raises
    [TypeError] when the version is not a string. *)
Definition mutate_plugin_info (ref : nat) (plugin_info : dict)
    : outcome (dict * gmap string nat) :=
  let version := default (VStr "0") (dict_get "version" plugin_info) in
  match version with
  | VStr v =>
      let plugin_info := dict_set "version" (VStr (normalize_version v)) plugin_info in
      let aliases := collect_aliases plugin_info in
      let? plugin_info_dict := alias_dict ref aliases ∅ in
      Val (plugin_info, plugin_info_dict)
  | _ => Raise (TypeError "expected string or bytes-like object")
  end.

(** The argument [plugins_list]: the objects it refers to, and the
    references of its elements. *)
Record PluginsList : Type := {
  store_size : nat;
  store : vec dict store_size;
  elements : list (fin store_size)
}.

(** [[mutate_plugin_info(v) for v in plugins_list]]: each call reads the
    object as the calls before it left it, and leaves it changed. *)
Fixpoint mutate_all {n : nat} (plugins_list : list (fin n)) (objects : vec dict n)
    : outcome (vec dict n * list (gmap string nat)) :=
  match plugins_list with
  | [] => Val (objects, [])
  | ref :: rest =>
      let? (v', d) := mutate_plugin_info (fin_to_nat ref) (objects !!! ref) in
      let? (objects', ds) := mutate_all rest (vinsert ref v' objects) in
      Val (objects', d :: ds)
  end.

(** [m.update(d)]: the entries of [d] win. *)
Definition gmap_update {V : Type} (m d : gmap string V) : gmap string V := d ∪ m.

Definition _get_plugins_info_dict (plugins_list : PluginsList)
    : outcome (list dict * gmap string nat) :=
  let? (objects, list_of_dicts) := mutate_all (elements plugins_list) (store plugins_list) in
  Val (vec_to_list objects, fold_left gmap_update list_of_dicts ∅).


(** ** The registry and the process it runs in *)

(** A [pkg_resources.EntryPoint]; its distribution plays no part here. *)
Record EntryPoint : Type := {
  ep_name : string;
  ep_module_name : string;
  ep_attrs : list string
}.

#[global] Instance EntryPoint_eq_dec : EqDecision EntryPoint.
Proof. solve_decision. Defined.

#[global] Instance EntryPoint_countable : Countable EntryPoint.
Proof.
  refine (inj_countable'
            (fun e => (ep_name e, ep_module_name e, ep_attrs e))
            (fun t => {| ep_name := t.1.1; ep_module_name := t.1.2; ep_attrs := t.2 |}) _).
  by intros [].
Defined.

(** A Python function, as far as the registry looks at it: its [__name__],
    its [__doc__] ([None] when it has no docstring) and the [args] of its
    [getargspec], the names of its positional parameters. [func_kwonlyargs]
    are the keyword-only parameters of its signature, which
    [getfullargspec] lists apart, in [kwonlyargs], and which the registry
    does not read. *)
Record pyfunc : Type := {
  func_module : string;
  func_name : string;
  func_doc : option string;
  func_args : list string;
  func_kwonlyargs : list string
}.

(** What the registry reads from a module class (or its instance). *)
Record ModuleClass : Type := {
  sequence : Z;
  component_type : option string;
  component_list_type : string
}.

(** The collaborators of the registry: the installed packages, as
    [pkg_resources] shows them, and [jenkins_jobs.formatter.deep_format].
    - [jenkins_jobs_modules]: the entry points of the group
      jenkins_jobs.modules;
    - [load_module e]: the class that [e.load()] returns;
    - [module_functions m]: the attributes of module [m] that are functions,
      in the order of [dir], each bound under its own [__name__], so that
      loading the entry point built for it gives the function back;
    - [iter_entry_points g]: the entry points registered for the group [g],
      with the function each one loads;
    - [deep_format data paramdict allow_empty]: the formatted data, or the
      exception raised. *)
Record environment : Type := {
  jenkins_jobs_modules : list EntryPoint;
  load_module : EntryPoint -> ModuleClass;
  module_functions : string -> list pyfunc;
  iter_entry_points : string -> list (EntryPoint * pyfunc);
  deep_format : pyval -> dict -> bool -> exn + pyval
}.

(** [jjb_config.yamlparser], as far as the registry reads it. *)
Record JJBConfig : Type := {
  allow_empty_variables : bool
}.

(** An XML element, the parent node that generators write under. *)
Definition node : Type := nat.

Inductive logger : Type := RootLogger | RegistryLogger.
Inductive level : Type := DEBUG | INFO | WARNING | ERROR.

(** An argument of a log record. *)
Inductive logarg : Type :=
| ArgVal (v : pyval)
| ArgStr (s : string)
| ArgStrs (l : list string)
| ArgEntryPoint (e : EntryPoint)
| ArgTable (eps : gmap string pyfunc).

(** What the registry does to the outside: a log record (format string and
    arguments), a call of [deep_format], a call
    [func(registry, xml_parent, data, **kwargs)] of a generator. What the
    generator does with the call is not part of the registry. *)
Inductive event : Type :=
| Log (lg : logger) (lvl : level) (fmt : string) (args : list logarg)
| DeepFormat (data : pyval) (paramdict : dict) (allow_empty : bool)
| Call (func : pyfunc) (xml_parent : node) (data : pyval) (kwargs : dict).

(** The instance attributes of a [ModuleRegistry] ([handlers] plays no part
    in what follows). [masked_warned] is a dictionary whose values are all
    [True]: the set of its keys. [plugin_objects] are the objects that
    [plugins_dict] refers to. [parser_data] is unset until
    [set_parser_data]. *)
Record ModuleRegistry : Type := {
  modules : list ModuleClass;
  modules_by_component_type : gmap string EntryPoint;
  jjb_config : JJBConfig;
  masked_warned : gset string;
  plugins_dict : gmap string nat;
  plugin_objects : list dict;
  parser_data : option (gmap string (gmap string pyval))
}.

(** The state that outlives a registry: the two class attributes, and the
    trace of events. *)
Record process : Type := {
  _entry_points_cache : gmap string (gmap string pyfunc);
  _component_type_cache : gmap EntryPoint string;
  trace : list event
}.

Record world : Type := {
  self : ModuleRegistry;
  proc : process
}.

Definition with_trace (f : list event -> list event) (w : world) : world :=
  {| self := self w;
     proc := {| _entry_points_cache := _entry_points_cache (proc w);
                _component_type_cache := _component_type_cache (proc w);
                trace := f (trace (proc w)) |} |}.

Definition with_entry_points_cache
    (f : gmap string (gmap string pyfunc) -> gmap string (gmap string pyfunc))
    (w : world) : world :=
  {| self := self w;
     proc := {| _entry_points_cache := f (_entry_points_cache (proc w));
                _component_type_cache := _component_type_cache (proc w);
                trace := trace (proc w) |} |}.

Definition with_component_type_cache
    (f : gmap EntryPoint string -> gmap EntryPoint string) (w : world) : world :=
  {| self := self w;
     proc := {| _entry_points_cache := _entry_points_cache (proc w);
                _component_type_cache := f (_component_type_cache (proc w));
                trace := trace (proc w) |} |}.

Definition with_masked_warned (f : gset string -> gset string) (w : world) : world :=
  {| self := {| modules := modules (self w);
                modules_by_component_type := modules_by_component_type (self w);
                jjb_config := jjb_config (self w);
                masked_warned := f (masked_warned (self w));
                plugins_dict := plugins_dict (self w);
                plugin_objects := plugin_objects (self w);
                parser_data := parser_data (self w) |};
     proc := proc w |}.

Definition emit (e : event) : M world unit := modify (with_trace (fun t => t ++ [e])).

Definition log (lg : logger) (lvl : level) (fmt : string) (args : list logarg) : M world unit :=
  emit (Log lg lvl fmt args).

(** ** [ModuleRegistry] *)

Section Registry.

Variable env : environment.

(** [self.modules.sort(key=operator.attrgetter("sequence"))]: Python's sort
    is stable. *)
Fixpoint insert_module (m : ModuleClass) (sorted : list ModuleClass) : list ModuleClass :=
  match sorted with
  | [] => [m]
  | x :: rest =>
      if (sequence m <=? sequence x)%Z then m :: sorted
      else x :: insert_module m rest
  end.

Definition sort_by_sequence (l : list ModuleClass) : list ModuleClass :=
  fold_right insert_module [] l.

(** One round of the loop of [__init__] over the module entry points. *)
Definition add_module (r : ModuleRegistry) (entrypoint : EntryPoint) : ModuleRegistry :=
  let module := load_module env entrypoint in
  {| modules := sort_by_sequence (modules r ++ [module]);
     modules_by_component_type :=
       match component_type module with
       | Some t => <[t := entrypoint]> (modules_by_component_type r)
       | None => modules_by_component_type r
       end;
     jjb_config := jjb_config r;
     masked_warned := masked_warned r;
     plugins_dict := plugins_dict r;
     plugin_objects := plugin_objects r;
     parser_data := parser_data r |}.

(** [ModuleRegistry(jjb_config, plugins_list)] *)
Definition __init__ (config : JJBConfig) (plugins_list : option PluginsList)
    : outcome ModuleRegistry :=
  let? (objects, plugins) :=
    match plugins_list with
    | None => Val ([], ∅)
    | Some l => _get_plugins_info_dict l
    end in
  Val (fold_left add_module (jenkins_jobs_modules env)
         {| modules := [];
            modules_by_component_type := ∅;
            jjb_config := config;
            masked_warned := ∅;
            plugins_dict := plugins;
            plugin_objects := objects;
            parser_data := None |}).

Definition set_parser_data (data : gmap string (gmap string pyval)) (r : ModuleRegistry)
    : ModuleRegistry :=
  {| modules := modules r;
     modules_by_component_type := modules_by_component_type r;
     jjb_config := jjb_config r;
     masked_warned := masked_warned r;
     plugins_dict := plugins_dict r;
     plugin_objects := plugin_objects r;
     parser_data := Some data |}.

(** What [get_plugin_info] returns: a reference to one of the plugin
    objects, or a new empty dictionary. *)
Inductive plugin_info : Type :=
| PluginObject (ref : nat)
| EmptyDict.

(** [self.plugins_dict.get(plugin_name, {})] *)
Definition get_plugin_info (r : ModuleRegistry) (plugin_name : string) : plugin_info :=
  match plugins_dict r !! plugin_name with
  | Some ref => PluginObject ref
  | None => EmptyDict
  end.

(** The mapping that a [plugin_info] stands for. *)
Definition contents (r : ModuleRegistry) (p : plugin_info) : option dict :=
  match p with
  | PluginObject ref => plugin_objects r !! ref
  | EmptyDict => Some []
  end.

(** [_filter_kwargs(func, **kwargs)] *)
Definition _filter_kwargs (func : pyfunc) (kwargs : dict) : dict :=
  filter (fun kv => fst kv ∈ func_args func) kwargs.

Definition get_component_list_type (entry_point : EntryPoint) : M world string :=
  let* w := get in
  match _component_type_cache (proc w) !! entry_point with
  | Some cached => ret cached
  | None =>
      let list_type := component_list_type (load_module env entry_point) in
      log RootLogger INFO "Caching type %s of %s"
        [ArgStr list_type; ArgEntryPoint entry_point] ;;
      modify (with_component_type_cache <[entry_point := list_type]>) ;;
      ret list_type
  end.

(** [paramdict.update(v)] *)
Definition update (paramdict : dict) (v : pyval) : M world dict :=
  match dict_update paramdict v with
  | Updated d => ret d
  | UpdateRaises e => raise e
  | UpdateNonStringKey => stop NonStringKey
  end.

(** The first block of [dispatch] after the component type is resolved:
    the name and the data of the component, the data interpolated when
    there is template data or the data is a Jinja2 template. *)
Definition component_name_and_data (component template_data job_data : pyval)
    : M world (pyval * pyval) :=
  match component with
  | VDict items =>
      match items with
      | [] => raise StopIteration
      | (name, component_data) :: _ =>
          if truthy template_data || is_Jinja2Loader component_data then
            let* paramdict := update [] template_data in
            let* paramdict :=
              update paramdict (if truthy job_data then job_data else VDict []) in
            let* w := get in
            let allow_empty := allow_empty_variables (jjb_config (self w)) in
            emit (DeepFormat component_data paramdict allow_empty) ;;
            match deep_format env component_data paramdict allow_empty with
            | inr formatted => ret (VStr name, formatted)
            | inl e =>
                log RootLogger ERROR "Failure formatting component ('%s') data '%s'"
                  [ArgStr name; ArgVal component_data] ;;
                raise e
            end
          else ret (VStr name, component_data)
      end
  | _ => ret (component, VDict [])
  end.

(** What the loop over the functions of the module reads in a docstring.
    The first line has to start with the tag; the name is what stands
    between the first and the second space of that line. A function without
    a docstring ([AttributeError]) and a first line without a space
    ([IndexError]) are not included. *)
Inductive docstring_tag : Type :=
| Declares (declared : string)
| Ignored (name_line : list string)
| NotIncluded.

Definition read_docstring (func_ep : pyfunc) : docstring_tag :=
  match func_doc func_ep with
  | None => NotIncluded
  | Some doc =>
      let name_line := Py.split Re.newline doc in
      match name_line with
      | [] => NotIncluded
      | first :: _ =>
          if negb (startswith "yaml:" first) then Ignored name_line
          else
            match Py.split " " first with
            | _ :: declared :: _ => Declares declared
            | _ => NotIncluded
            end
      end
  end.

(** One round of that loop: the entry point built for [func_ep], if its
    docstring declares a name. *)
Definition auto_entry_point (entry_point : EntryPoint) (func_ep : pyfunc)
    : M world (list (EntryPoint * pyfunc)) :=
  match read_docstring func_ep with
  | Ignored name_line =>
      log RegistryLogger DEBUG "Ignoring '%s' as an entry point" [ArgStrs name_line] ;;
      ret []
  | NotIncluded =>
      log RegistryLogger DEBUG "Not including func '%s' as an entry point"
        [ArgStr (func_name func_ep)] ;;
      ret []
  | Declares declared =>
      log RegistryLogger DEBUG "Adding auto EP '%s=%s:%s'"
        [ArgStr declared; ArgStr (ep_module_name entry_point);
         ArgStr (func_name func_ep)] ;;
      ret [({| ep_name := declared;
               ep_module_name := ep_module_name entry_point;
               ep_attrs := [func_name func_ep] |}, func_ep)]
  end.

Fixpoint auto_entry_points (entry_point : EntryPoint) (func_eps : list pyfunc)
    : M world (list (EntryPoint * pyfunc)) :=
  match func_eps with
  | [] => ret []
  | func_ep :: rest =>
      let* found := auto_entry_point entry_point func_ep in
      let* others := auto_entry_points entry_point rest in
      ret (found ++ others)
  end.

(** The loop that fills [eps]: a name already in the table is an error. *)
Fixpoint fill_table (component_type : string) (name : pyval)
    (module_eps : list (EntryPoint * pyfunc)) (eps : gmap string pyfunc)
    : M world (gmap string pyfunc) :=
  match module_eps with
  | [] => ret eps
  | (module_ep, loaded) :: rest =>
      match eps !! ep_name module_ep with
      | Some _ =>
          raise (JenkinsJobsException
                   "Duplicate entry point found for component type: '{0}', '{0}',name: '{1}'"
                   [VStr component_type; name])
      | None => fill_table component_type name rest (<[ep_name module_ep := loaded]> eps)
      end
  end.

(** The second block: the table of entry points of the list type, from the
    cache, or built and cached. *)
Definition entry_points (component_type component_list_type : string)
    (entry_point : EntryPoint) (name : pyval) : M world (gmap string pyfunc) :=
  let* w := get in
  match _entry_points_cache (proc w) !! component_list_type with
  | Some eps => ret eps
  | None =>
      log RootLogger DEBUG "Caching entrypoints for %s" [ArgStr component_list_type] ;;
      let* auto :=
        auto_entry_points entry_point (module_functions env (ep_module_name entry_point)) in
      let module_eps :=
        auto ++ iter_entry_points env ("jenkins_jobs." +:+ component_list_type) in
      let* eps := fill_table component_type name module_eps ∅ in
      modify (with_entry_points_cache <[component_list_type := eps]>) ;;
      log RegistryLogger DEBUG "Cached entry point group %s = %s"
        [ArgStr component_list_type; ArgTable eps] ;;
      ret eps
  end.

(** [self.parser_data.get(component_type, {}).get(name)] *)
Definition macro_lookup (component_type : string) (name : pyval) : M world pyval :=
  let* w := get in
  match parser_data (self w) with
  | None => raise (AttributeError "_ModuleRegistry__parser_data")
  | Some data =>
      match name with
      | VStr s => ret (default VNone (default ∅ (data !! component_type) !! s))
      | VList _ | VDict _ => raise (TypeError "unhashable type")
      | VNone | VBool _ | VInt _ | VJinja2Loader _ => ret VNone
      end
  end.

(** [name in eps] and [eps[name]]: the keys of the table are strings. *)
Definition table_get (eps : gmap string pyfunc) (name : pyval) : option pyfunc :=
  match name with
  | VStr s => eps !! s
  | _ => None
  end.

Definition warned (w : world) (name : pyval) : bool :=
  match name with
  | VStr s => bool_decide (s ∈ masked_warned (self w))
  | _ => false
  end.

Definition mask_warning : string :=
  "You have a macro ('%s') defined for '%s' component type that is masking an inbuilt definition".

(** The warning of a macro that masks an entry point, once per name. *)
Definition warn_masked (component_type : string) (name : pyval)
    (eps : gmap string pyfunc) : M world unit :=
  let* w := get in
  match name with
  | VStr s =>
      if bool_decide (is_Some (eps !! s)) && negb (warned w name) then
        modify (with_masked_warned (fun m => {[s]} ∪ m)) ;;
        log RegistryLogger WARNING mask_warning [ArgStr s; ArgStr component_type]
      else ret tt
  | _ => ret tt
  end.

(** The last block: expand the macro of that name, or call the entry point
    of that name. [recurse] is [self.dispatch]. *)
Definition expand_or_call
    (recurse : string -> node -> pyval -> pyval -> pyval -> M world unit)
    (component_type component_list_type : string) (xml_parent : node)
    (name component_data job_data : pyval) (eps : gmap string pyfunc) : M world unit :=
  let* component := macro_lookup component_type name in
  if truthy component then
    warn_masked component_type name eps ;;
    let* body := lift (getitem component component_list_type) in
    let* items := lift (iterate body) in
    for_each (fun b => recurse component_type xml_parent b component_data job_data) items
  else
    match table_get eps name with
    | Some func =>
        let kwargs := _filter_kwargs func [("job_data", job_data)] in
        emit (Call func xml_parent component_data kwargs)
    | None =>
        raise (JenkinsJobsException
                 "Unknown entry point or macro '{0}' for component type: '{1}'."
                 [name; VStr component_type])
    end.

(** What [dispatch] does once it has the name and the data of the
    component: get the table of entry points, then expand or call. *)
Definition resolve
    (recurse : string -> node -> pyval -> pyval -> pyval -> M world unit)
    (component_type component_list_type : string) (entry_point : EntryPoint)
    (xml_parent : node) (name component_data job_data : pyval) : M world unit :=
  let* eps := entry_points component_type component_list_type entry_point name in
  expand_or_call recurse component_type component_list_type xml_parent
    name component_data job_data eps.

(** The body of [dispatch], its recursive calls going to [recurse]. *)
Definition dispatch_body
    (recurse : string -> node -> pyval -> pyval -> pyval -> M world unit)
    (component_type : string) (xml_parent : node)
    (component template_data job_data : pyval) : M world unit :=
  let* w := get in
  match modules_by_component_type (self w) !! component_type with
  | None =>
      raise (JenkinsJobsException "Unknown component type: '{0}'." [VStr component_type])
  | Some entry_point =>
      let* component_list_type := get_component_list_type entry_point in
      let* name_data := component_name_and_data component template_data job_data in
      resolve recurse component_type component_list_type entry_point xml_parent
        (fst name_data) (snd name_data) job_data
  end.

(** [dispatch]: a macro may refer to itself, and then Python recurses until
    it gives up; [fuel] bounds the depth of the recursion. *)
Fixpoint dispatch (fuel : nat) (component_type : string) (xml_parent : node)
    (component template_data job_data : pyval) : M world unit :=
  match fuel with
  | O => stop OutOfFuel
  | S fuel' =>
      dispatch_body (dispatch fuel') component_type xml_parent
        component template_data job_data
  end.

End Registry.

Arguments dispatch env fuel component_type xml_parent component template_data job_data : simpl nomatch.

(** ** A small installation, for examples *)

Module Demo.

Definition builders_ep : EntryPoint :=
  {| ep_name := "builders";
     ep_module_name := "jenkins_jobs.modules.builders";
     ep_attrs := ["Builders"] |}.

Definition Builders : ModuleClass :=
  {| sequence := 60; component_type := Some "builder"; component_list_type := "builders" |}.

(** A generator whose name a macro masks, a helper without docstring, a
    generator that does not take [job_data] and one that does. *)
Definition build : pyfunc :=
  {| func_module := "jenkins_jobs.modules.builders";
     func_name := "build_step";
     func_doc := Some "yaml: build";
     func_args := ["registry"; "xml_parent"; "data"];
     func_kwonlyargs := [] |}.

Definition helper : pyfunc :=
  {| func_module := "jenkins_jobs.modules.builders";
     func_name := "helper";
     func_doc := None;
     func_args := ["data"];
     func_kwonlyargs := [] |}.

Definition shell : pyfunc :=
  {| func_module := "jenkins_jobs.modules.builders";
     func_name := "shell";
     func_doc := Some ("yaml: shell" +:+ String Re.newline "Execute a shell command.");
     func_args := ["registry"; "xml_parent"; "data"];
     func_kwonlyargs := [] |}.

Definition trigger : pyfunc :=
  {| func_module := "jenkins_jobs.modules.builders";
     func_name := "trigger";
     func_doc := Some "yaml: trigger-builds";
     func_args := ["registry"; "xml_parent"; "data"; "job_data"];
     func_kwonlyargs := [] |}.

(** A generator of another package, registered under a name that a
    docstring of the module declares too. *)
Definition other_shell : pyfunc :=
  {| func_module := "my_plugin.builders";
     func_name := "shell";
     func_doc := None;
     func_args := ["registry"; "xml_parent"; "data"];
     func_kwonlyargs := [] |}.

Definition other_shell_ep : EntryPoint :=
  {| ep_name := "shell"; ep_module_name := "my_plugin.builders"; ep_attrs := ["shell"] |}.

(** A generator of another package that takes [job_data] as a keyword-only
    parameter: [def notify(registry, xml_parent, data, *, job_data=None)]. *)
Definition notify : pyfunc :=
  {| func_module := "my_plugin.builders";
     func_name := "notify";
     func_doc := None;
     func_args := ["registry"; "xml_parent"; "data"];
     func_kwonlyargs := ["job_data"] |}.

Definition notify_ep : EntryPoint :=
  {| ep_name := "notify"; ep_module_name := "my_plugin.builders"; ep_attrs := ["notify"] |}.

(** A formatter for the examples: a string that starts with a dollar sign
    is replaced by the parameter of that name and is an error when there is
    none; the values of a mapping are formatted; the rest is kept. *)
Definition format_leaf (paramdict : dict) (v : pyval) : exn + pyval :=
  match v with
  | VStr (String "$" k) =>
      match dict_get k paramdict with
      | Some x => inr x
      | None => inl (OtherException "JenkinsJobsException" (VStr k))
      end
  | _ => inr v
  end.

Fixpoint format_items (paramdict : dict) (d : dict) : exn + dict :=
  match d with
  | [] => inr []
  | (k, v) :: d' =>
      match format_leaf paramdict v, format_items paramdict d' with
      | inr v', inr r => inr ((k, v') :: r)
      | inl e, _ => inl e
      | _, inl e => inl e
      end
  end.

Definition demo_format (data : pyval) (paramdict : dict) (allow_empty : bool) : exn + pyval :=
  match data with
  | VDict d =>
      match format_items paramdict d with
      | inr d' => inr (VDict d')
      | inl e => inl e
      end
  | _ => format_leaf paramdict data
  end.

Definition installed (external : list (EntryPoint * pyfunc)) : environment :=
  {| jenkins_jobs_modules := [builders_ep];
     load_module := fun _ => Builders;
     module_functions := fun m =>
       if String.eqb m "jenkins_jobs.modules.builders" then [build; helper; shell; trigger]
       else [];
     iter_entry_points := fun g =>
       if String.eqb g "jenkins_jobs.builders" then external else [];
     deep_format := demo_format |}.

Definition env : environment := installed [].

Definition clashing : environment := installed [(other_shell_ep, other_shell)].

Definition with_notify : environment := installed [(notify_ep, notify)].

Definition config : JJBConfig := {| allow_empty_variables := false |}.

Definition fresh_process : process :=
  {| _entry_points_cache := ∅; _component_type_cache := ∅; trace := [] |}.

(** The macros of the examples: [build] masks the generator of that name,
    [two-steps] has two builders that use the parameter [x], and the last two
    are falsy. *)
Definition macros : gmap string (gmap string pyval) :=
  {[ "builder" :=
       {[ "build" := VDict [("name", VStr "build");
                            ("builders", VList [VDict [("shell", VStr "make")]])];
          "two-steps" := VDict [("name", VStr "two-steps");
                                ("builders", VList [VDict [("shell", VStr "$x")];
                                                    VDict [("build", VDict [("job", VStr "$x")])]])];
          "shell" := VDict [];
          "nothing" := VNone ]} ]}.

(** The registry that the constructor makes in that installation, with the
    macros as parser data. *)
Definition registry : ModuleRegistry :=
  {| modules := [Builders];
     modules_by_component_type := {[ "builder" := builders_ep ]};
     jjb_config := config;
     masked_warned := ∅;
     plugins_dict := ∅;
     plugin_objects := [];
     parser_data := Some macros |}.

Definition world0 : world := {| self := registry; proc := fresh_process |}.

End Demo.

(** * The vocabulary of the properties *)

(** ** Version strings *)

Module Version.

(** [s] starts with one of the two markers. *)
Definition marker_at (s : string) : bool :=
  String.prefix "-SNAPSHOT" s || String.prefix "-BETA" s.

(** One of the two markers occurs somewhere in [s]. *)
Fixpoint has_marker (s : string) : bool :=
  marker_at s ||
  match s with
  | EmptyString => false
  | String _ s' => has_marker s'
  end.

(** [s] has no line break. *)
Fixpoint single_line (s : string) : bool :=
  match s with
  | EmptyString => true
  | String c s' => negb (Ascii.eqb c Re.newline) && single_line s'
  end.

(** What is left of [s] after the prefix [p]. *)
Fixpoint strip_prefix (p s : string) : option string :=
  match p with
  | EmptyString => Some s
  | String c p' =>
      match s with
      | String c' s' => if Ascii.eqb c c' then strip_prefix p' s' else None
      | EmptyString => None
      end
  end.

(** What is left of [s] after the marker it starts with. *)
Definition after_marker (s : string) : option string :=
  match s with
  | String c s1 =>
      if Ascii.eqb "-" c then
        match strip_prefix "SNAPSHOT" s1 with
        | Some r => Some r
        | None => strip_prefix "BETA" s1
        end
      else None
  | EmptyString => None
  end.

(** What [.*] leaves when nothing stops it: the input from the first line
    break on. *)
Fixpoint line_rest (s : string) : string :=
  match s with
  | EmptyString => EmptyString
  | String c s' => if Ascii.eqb c Re.newline then s else line_rest s'
  end.

(** The continuation of the first [.*] of the pattern, for a scan that
    started at [s0]: the marker, then the rest of the line. *)
Definition after_group (s0 s' : string) : option (string * option string) :=
  match after_marker s' with
  | Some r => Some (line_rest r, Some (Re.consumed s0 s'))
  | None => None
  end.

(** The two markers, and what follows the dash. *)
Definition is_marker (m : string) : Prop := m = "-SNAPSHOT" \/ m = "-BETA".

End Version.

(** ** Registries, traces and runs *)

(** The object [plugin_info] declares [alias] as its long or short name. *)
Definition declares (plugin_info : dict) (alias : string) : Prop :=
  dict_get "longName" plugin_info = Some (VStr alias) \/
  dict_get "shortName" plugin_info = Some (VStr alias).

(** How many elements of the list are the object [ref]. *)
Definition times_listed {n : nat} (ref : fin n) (plugins_list : list (fin n)) : nat :=
  length (filter (fun element => element = ref) plugins_list).

(** The world with the events [new] added to its trace. *)
Definition appended (new : list event) (w : world) : world :=
  with_trace (fun t => t ++ new) w.

(** [e] is the warning that the macro named [s] masks an entry point. *)
Definition is_mask_warning (s : string) (e : event) : bool :=
  match e with
  | Log RegistryLogger WARNING fmt (ArgStr s' :: _) =>
      String.eqb fmt mask_warning && String.eqb s' s
  | _ => false
  end.

(** How many times the trace [t] has that warning. *)
Fixpoint mask_warnings (s : string) (t : list event) : nat :=
  match t with
  | [] => 0
  | e :: t' => (if is_mask_warning s e then 1 else 0) + mask_warnings s t'
  end.

(** A step from [w] to [w'] that leaves the registry as it is and adds no
    mask warning to the trace. *)
Definition quiet_step (w w' : world) : Prop :=
  self w' = self w /\
  exists new, trace (proc w') = trace (proc w) ++ new /\ forall s, mask_warnings s new = 0.

(** The names that a step from [w] to [w'] has added to [masked_warned]. *)
Definition newly_warned (w w' : world) (s : string) : nat :=
  if bool_decide (s ∈ masked_warned (self w') ∖ masked_warned (self w)) then 1 else 0.

(** A step that warns exactly for the names it adds to [masked_warned],
    once for each, and forgets none. *)
Definition warns_once (w w' : world) : Prop :=
  masked_warned (self w) ⊆ masked_warned (self w') /\
  exists new, trace (proc w') = trace (proc w) ++ new /\
              forall s, mask_warnings s new = newly_warned w w' s.

(** The two caches of the process are the same in [w] and [w']. *)
Definition same_caches (w w' : world) : Prop :=
  _entry_points_cache (proc w') = _entry_points_cache (proc w) /\
  _component_type_cache (proc w') = _component_type_cache (proc w).

(** A computation all of whose runs are steps of the relation [R]. *)
Definition preserves (R : world -> world -> Prop) {A : Type} (c : M world A) : Prop :=
  forall w, R w (snd (c w)).

Abbreviation quiet := (preserves quiet_step).
Abbreviation steady := (preserves warns_once).
Abbreviation keeps_caches := (preserves same_caches).

(** A call of [dispatch], and a run of calls one after the other on the
    same registry, whatever the outcome of each. *)
Record call : Type := {
  call_fuel : nat;
  call_component_type : string;
  call_xml_parent : node;
  call_component : pyval;
  call_template_data : pyval;
  call_job_data : pyval
}.

Definition run_call (env : environment) (w : world) (c : call) : world :=
  snd (dispatch env (call_fuel c) (call_component_type c) (call_xml_parent c)
         (call_component c) (call_template_data c) (call_job_data c) w).

Definition run_calls (env : environment) (calls : list call) (w : world) : world :=
  fold_left (run_call env) calls w.

(** The first blocks of [dispatch] succeed on [component]: the type has the
    list type [lt], the component has the name [name] and the data [cd], the
    table of the list type is [eps], and the world is then [w3]. *)
Definition resolves (env : environment) (ct : string)
    (component template_data job_data : pyval) (w : world)
    (lt : string) (name cd : pyval) (eps : gmap string pyfunc) (w3 : world) : Prop :=
  exists ep w1 w2,
    modules_by_component_type (self w) !! ct = Some ep /\
    get_component_list_type env ep w = (Val lt, w1) /\
    component_name_and_data env component template_data job_data w1 = (Val (name, cd), w2) /\
    entry_points env ct lt ep name w2 = (Val eps, w3).

(** The components [items] are dispatched one after the other, in the order
    of the list, each for the component type [ct] and the parent [xml], with
    the template data [td] and the job data [jd]: the first in the world [w],
    each of the others in the world that the one before it left. The
    result is the outcome and the world of the first component whose
    dispatch does not return, or, when each returns, the world that the last
    one left. *)
Inductive dispatched_in_order (env : environment) (fuel : nat) (ct : string) (xml : node)
    (td jd : pyval) : list pyval -> world -> outcome unit * world -> Prop :=
| dispatched_none w :
    dispatched_in_order env fuel ct xml td jd [] w (Val tt, w)
| dispatched_next b rest w w' result :
    dispatch env fuel ct xml b td jd w = (Val tt, w') ->
    dispatched_in_order env fuel ct xml td jd rest w' result ->
    dispatched_in_order env fuel ct xml td jd (b :: rest) w result
| dispatched_stop b rest w o w' :
    dispatch env fuel ct xml b td jd w = (o, w') ->
    o <> Val tt ->
    dispatched_in_order env fuel ct xml td jd (b :: rest) w (o, w').

(** The macro of the name [s] for the component type [ct], [None] when
    there is none: what [macro_lookup] returns. *)
Definition macro_of (r : ModuleRegistry) (ct s : string) : option pyval :=
  match parser_data r with
  | Some data => Some (default VNone (default ∅ (data !! ct) !! s))
  | None => None
  end.

(** The signature of the function declares a parameter of that name, a
    positional one or a keyword-only one. *)
Definition declares_parameter (func : pyfunc) (name : string) : Prop :=
  name ∈ func_args func \/ name ∈ func_kwonlyargs func.

(** The keys of a Python mapping are distinct. *)
Fixpoint unique_keys (d : dict) : bool :=
  match d with
  | [] => true
  | (k, _) :: d' => negb (existsb (String.eqb k) (map fst d')) && unique_keys d'
  end.

(** The job data of a call: a mapping, or [None]. *)
Definition job_value (jd : option dict) : pyval :=
  match jd with
  | Some d => VDict d
  | None => VNone
  end.

(** The entry points that the docstrings of [funcs] declare, in order. *)
Definition declared_entry_points (entry_point : EntryPoint) (funcs : list pyfunc)
    : list (EntryPoint * pyfunc) :=
  flat_map
    (fun func_ep =>
       match read_docstring func_ep with
       | Declares declared =>
           [({| ep_name := declared;
                ep_module_name := ep_module_name entry_point;
                ep_attrs := [func_name func_ep] |}, func_ep)]
       | _ => []
       end)
    funcs.

(** The names of a list of entry points. *)
Definition names (l : list (EntryPoint * pyfunc)) : list string :=
  map (fun p => ep_name (fst p)) l.

(** The record that [dispatch] logs when it starts to build the table of a
    list type. *)
Definition caching_entry_points (lt : string) : event :=
  Log RootLogger DEBUG "Caching entrypoints for %s" [ArgStr lt].

(** The error of a name that two entry points have; its message names the
    component that was being dispatched. *)
Definition duplicate_error (ct : string) (name : pyval) : exn :=
  JenkinsJobsException
    "Duplicate entry point found for component type: '{0}', '{0}',name: '{1}'"
    [VStr ct; name].

(** ** The data of the examples *)

(** A list of two plugin objects, and a list that has one object twice. *)
Definition demo_plugins : PluginsList :=
  {| store_size := 2;
     store := [# [("longName", VStr "Jenkins Git plugin"); ("shortName", VStr "git");
                  ("version", VStr "1.2-SNAPSHOT")];
                 [("longName", VStr "Jenkins Mailer plugin"); ("shortName", VStr "mailer")]];
     elements := [0%fin; 1%fin] |}.

Definition demo_plugin_twice : PluginsList :=
  {| store_size := 1;
     store := [# [("longName", VStr "Jenkins Git plugin"); ("shortName", VStr "git");
                  ("version", VStr "1.0-BETA-SNAPSHOT")]];
     elements := [0%fin; 0%fin] |}.

(** Two objects that declare the same short name. *)
Definition demo_plugins_clash : PluginsList :=
  {| store_size := 2;
     store := [# [("longName", VStr "Jenkins Git plugin"); ("shortName", VStr "git")];
                 [("longName", VStr "Jenkins Git client plugin"); ("shortName", VStr "git")]];
     elements := [0%fin; 1%fin] |}.

(** The world after the list type of the builders is resolved, and the
    table of the builders. *)
Definition demo_world1 : world :=
  snd (get_component_list_type Demo.env Demo.builders_ep Demo.world0).

Definition demo_table : gmap string pyfunc :=
  {[ "build" := Demo.build; "shell" := Demo.shell; "trigger-builds" := Demo.trigger ]}.

(** The world after the table of the builders is built, for a component
    whose data is not interpolated. *)
Definition demo_world3 (name : pyval) : world :=
  snd (entry_points Demo.env "builder" "builders" Demo.builders_ep name demo_world1).

Definition demo_build_call : call :=
  {| call_fuel := 3;
     call_component_type := "builder";
     call_xml_parent := 0;
     call_component := VStr "build";
     call_template_data := VDict [];
     call_job_data := VNone |}.

Definition demo_build_macro : pyval :=
  VDict [("name", VStr "build"); ("builders", VList [VDict [("shell", VStr "make")]])].

(** * The rest of the registry *)

From Stdlib Require Import Sorted.

(** ** The handlers

    [registerHandler] and [getHandler] read and write the attribute
    [handlers] of the registry and nothing else: they are functions on its
    value, a dictionary of dictionaries. [method] is the type of the
    callbacks. *)

Section Handlers.
Context {method : Type}.

(** [registerHandler(category, name, method)]. The dictionary of the
    category is an object: it is stored under the category when it is empty
    (a new one, then), and the assignment to its key [name] shows in
    [handlers] either way. *)
Definition registerHandler (category name : string) (m : method)
    (handlers : gmap string (gmap string method)) : gmap string (gmap string method) :=
  let cat_dict := default ∅ (handlers !! category) in
  let handlers :=
    if decide (size cat_dict = 0) then <[category := cat_dict]> handlers else handlers in
  <[category := <[name := m]> cat_dict]> handlers.

(** [getHandler(category, name)]: [self.handlers[category][name]]. *)
Definition getHandler (category name : string)
    (handlers : gmap string (gmap string method)) : exn + method :=
  match handlers !! category with
  | None => inl (KeyError category)
  | Some cat_dict =>
      match cat_dict !! name with
      | None => inl (KeyError name)
      | Some m => inr m
      end
  end.

(** A run of registrations, in order. *)
Definition register_all (registrations : list (string * string * method))
    (handlers : gmap string (gmap string method)) : gmap string (gmap string method) :=
  fold_left (fun h r => registerHandler r.1.1 r.1.2 r.2 h) registrations handlers.

End Handlers.

(** ** The modules of a registry *)

(** The order of the modules: by [sequence]. *)
Definition sequence_le (a b : ModuleClass) : Prop := (sequence a <= sequence b)%Z.

(** The module of the entry point [e] owns the component type [ct]. *)
Definition owns (env : environment) (ct : string) (e : EntryPoint) : Prop :=
  component_type (load_module env e) = Some ct.

(** ** The plugin objects *)

(** Whether an object declares an alias can be decided. *)
#[global] Instance declares_dec plugin_info alias : Decision (declares plugin_info alias).
Proof.
  unfold declares.
  assert (Hdec : forall o : option pyval, Decision (o = Some (VStr alias))).
  { intros [[| | |s| | |]|]; try (right; discriminate).
    destruct (decide (s = alias)) as [->|Hne]; [by left | right; congruence]. }
  destruct (Hdec (dict_get "longName" plugin_info)) as [H1|H1]; [left; by left|].
  destruct (Hdec (dict_get "shortName" plugin_info)) as [H2|H2]; [left; by right|].
  right. intros [?|?]; contradiction.
Defined.

(** ** An installation with several modules, for examples *)

Definition general_ep : EntryPoint :=
  {| ep_name := "general"; ep_module_name := "jenkins_jobs.modules.general";
     ep_attrs := ["General"] |}.

Definition publishers_ep : EntryPoint :=
  {| ep_name := "publishers"; ep_module_name := "jenkins_jobs.modules.publishers";
     ep_attrs := ["Publishers"] |}.

Definition more_builders_ep : EntryPoint :=
  {| ep_name := "more-builders"; ep_module_name := "my_plugin.builders";
     ep_attrs := ["Builders"] |}.

(** The module of the builders comes first in the group and sorts second;
    another package declares the component type of the builders again. *)
Definition several_modules : environment :=
  {| jenkins_jobs_modules := [Demo.builders_ep; publishers_ep; general_ep; more_builders_ep];
     load_module := fun e =>
       if String.eqb (ep_name e) "general" then
         {| sequence := 10; component_type := None; component_list_type := "" |}
       else if String.eqb (ep_name e) "publishers" then
         {| sequence := 70; component_type := Some "publisher";
            component_list_type := "publishers" |}
       else if String.eqb (ep_name e) "more-builders" then
         {| sequence := 60; component_type := Some "builder";
            component_list_type := "more_builders" |}
       else Demo.Builders;
     module_functions := module_functions Demo.env;
     iter_entry_points := iter_entry_points Demo.env;
     deep_format := deep_format Demo.env |}.

(** ** What a call may change, and what it may add to the trace *)

(** The attributes of a registry that [dispatch] only reads. *)
Definition same_attributes (r r' : ModuleRegistry) : Prop :=
  modules r' = modules r /\
  modules_by_component_type r' = modules_by_component_type r /\
  jjb_config r' = jjb_config r /\
  plugins_dict r' = plugins_dict r /\
  plugin_objects r' = plugin_objects r /\
  parser_data r' = parser_data r.

(** A step that only adds: names to [masked_warned], entries to the two
    caches, events to the trace. An entry of a cache keeps its value. *)
Definition grows (w w' : world) : Prop :=
  same_attributes (self w) (self w') /\
  masked_warned (self w) ⊆ masked_warned (self w') /\
  _entry_points_cache (proc w) ⊆ _entry_points_cache (proc w') /\
  _component_type_cache (proc w) ⊆ _component_type_cache (proc w') /\
  exists new, trace (proc w') = trace (proc w) ++ new.

(** A step that adds to the trace only events that satisfy [P]. *)
Definition adds (P : event -> Prop) (w w' : world) : Prop :=
  exists new, trace (proc w') = trace (proc w) ++ new /\ Forall P new.

(** A world that the process may be in after it was in the world [w]: any
    number of steps later, where a step is a call of [dispatch] or of
    [get_component_list_type], with whatever is installed at that time, or
    the change to another registry of the process (a new registry, or the
    same one with other parser data). *)
Inductive later (w : world) : world -> Prop :=
| later_now : later w w
| later_dispatch w' env fuel ct xml component td jd :
    later w w' ->
    later w (snd (dispatch env fuel ct xml component td jd w'))
| later_list_type w' env entry_point :
    later w w' ->
    later w (snd (get_component_list_type env entry_point w'))
| later_registry w' r :
    later w w' ->
    later w {| self := r; proc := proc w' |}.

(** The event is no call of a generator. *)
Definition no_call (e : event) : Prop :=
  match e with
  | Call _ _ _ _ => False
  | _ => True
  end.

(** If the event is a call of a generator, the generator gets the parent
    [xml_parent], and [job_data] as a keyword if it takes it and no keyword
    otherwise. *)
Definition call_with (xml_parent : node) (job_data : pyval) (e : event) : Prop :=
  match e with
  | Call func parent _ kwargs =>
      parent = xml_parent /\
      kwargs = if bool_decide ("job_data" ∈ func_args func)
               then [("job_data", job_data)] else []
  | _ => True
  end.

(** ** The table of a list type *)

(** The entry points that [dispatch] collects for the list type [lt] of
    the module of [entry_point]: those that the docstrings of the module
    declare, then those registered for the group of [lt]. *)
Definition module_entry_points (env : environment) (lt : string) (entry_point : EntryPoint)
    : list (EntryPoint * pyfunc) :=
  declared_entry_points entry_point (module_functions env (ep_module_name entry_point)) ++
  iter_entry_points env ("jenkins_jobs." +:+ lt).

(** The table with the function of each entry point under its name. *)
Definition table_of (module_eps : list (EntryPoint * pyfunc)) : gmap string pyfunc :=
  list_to_map (map (fun p => (ep_name p.1, p.2)) module_eps).

(** ** More data for the examples *)

(** The world of a registry whose parser data was never set. *)
Definition demo_unset : world :=
  {| self := {| modules := [Demo.Builders];
                modules_by_component_type := {[ "builder" := Demo.builders_ep ]};
                jjb_config := Demo.config;
                masked_warned := ∅;
                plugins_dict := ∅;
                plugin_objects := [];
                parser_data := None |};
     proc := Demo.fresh_process |}.

(** A macro that has its builders under the name of the component type,
    not under the name of the list type, a macro that refers to itself, and
    a macro whose second component is not known. *)
Definition demo_odd_macros : gmap string (gmap string pyval) :=
  {[ "builder" :=
       {[ "lint" := VDict [("name", VStr "lint");
                           ("builder", VList [VDict [("shell", VStr "make lint")]])];
          "again" := VDict [("name", VStr "again");
                            ("builders", VList [VStr "again"])];
          "half" := VDict [("name", VStr "half");
                           ("builders", VList [VDict [("shell", VStr "make")];
                                               VStr "nowhere";
                                               VStr "trigger-builds"])] ]} ]}.

Definition demo_odd : world :=
  {| self := set_parser_data demo_odd_macros Demo.registry; proc := Demo.fresh_process |}.

(** ** Docstrings *)

(** The character [c] does not occur in [s]. *)
Fixpoint free_of (c : ascii) (s : string) : bool :=
  match s with
  | EmptyString => true
  | String c' s' => negb (Ascii.eqb c' c) && free_of c s'
  end.

(** * Properties *)

(** ** Version strings *)

Module VersionFacts.

Import Version.

Lemma strip_prefix_prefix p s :
  String.prefix p s = match strip_prefix p s with Some _ => true | None => false end.
Proof.
  revert s. induction p as [|c p IH]; intros [|c' s]; simpl; try reflexivity.
  destruct (ascii_dec c c') as [->|Hne].
  - rewrite Ascii.eqb_refl. apply IH.
  - apply Ascii.eqb_neq in Hne. rewrite Hne. reflexivity.
Qed.

Lemma marker_at_after_marker s :
  marker_at s = match after_marker s with Some _ => true | None => false end.
Proof.
  unfold marker_at. rewrite !strip_prefix_prefix.
  destruct s as [|c s]; [reflexivity|].
  change (strip_prefix "-SNAPSHOT" (String c s))
    with (if Ascii.eqb "-" c then strip_prefix "SNAPSHOT" s else None).
  change (strip_prefix "-BETA" (String c s))
    with (if Ascii.eqb "-" c then strip_prefix "BETA" s else None).
  unfold after_marker.
  destruct (Ascii.eqb "-" c); [|reflexivity].
  destruct (strip_prefix "SNAPSHOT" s); [reflexivity|].
  destruct (strip_prefix "BETA" s); reflexivity.
Qed.

Lemma rx_match_lit {X : Type} p s g (k : string -> option string -> option X) :
  Re.rx_match (Re.lit p) s g k =
  match strip_prefix p s with Some r => k r g | None => None end.
Proof.
  revert s. induction p as [|c p IH]; intros s; simpl; [reflexivity|].
  destruct s as [|c' s]; [reflexivity|].
  destruct (Ascii.eqb c c'); [apply IH | reflexivity].
Qed.

Lemma dot_star_ext {X : Type} (k1 k2 : string -> option X) s :
  (forall s', k1 s' = k2 s') -> Re.dot_star s k1 = Re.dot_star s k2.
Proof.
  intros Hk. induction s as [|c s IH]; simpl; [apply Hk|].
  rewrite IH, Hk. reflexivity.
Qed.

Lemma dot_star_total {X : Type} (f : string -> X) s :
  Re.dot_star s (fun s' => Some (f s')) = Some (f (line_rest s)).
Proof.
  induction s as [|c s IH]; simpl; [reflexivity|].
  destruct (Ascii.eqb c Re.newline); [reflexivity|].
  rewrite IH. reflexivity.
Qed.

Lemma match_here_pattern s :
  Re.match_here version_pattern s = Re.dot_star s (after_group s).
Proof.
  unfold Re.match_here, version_pattern. cbn [Re.rx_match].
  apply dot_star_ext. intros s'. unfold after_group, after_marker.
  destruct s' as [|c s1]; [reflexivity|].
  destruct (Ascii.eqb "-" c); [|reflexivity].
  rewrite !rx_match_lit.
  destruct (strip_prefix "SNAPSHOT" s1) as [r|].
  - rewrite (dot_star_total (fun s'' => (s'', Some (Re.consumed s (String c s1))))).
    reflexivity.
  - destruct (strip_prefix "BETA" s1) as [r|]; [|reflexivity].
    rewrite (dot_star_total (fun s'' => (s'', Some (Re.consumed s (String c s1))))).
    reflexivity.
Qed.

Lemma has_marker_cons c s :
  has_marker (String c s) = marker_at (String c s) || has_marker s.
Proof. reflexivity. Qed.

(** No marker, no match, wherever the scan starts. *)
Lemma dot_star_no_marker s0 s :
  has_marker s = false -> Re.dot_star s (after_group s0) = None.
Proof.
  induction s as [|c s IH]; intros Hs.
  - reflexivity.
  - rewrite has_marker_cons in Hs. apply orb_false_elim in Hs as [Hat Hs].
    rewrite marker_at_after_marker in Hat.
    assert (Hk : after_group s0 (String c s) = None).
    { unfold after_group. destruct (after_marker (String c s)); [discriminate|reflexivity]. }
    cbn [Re.dot_star]. rewrite (IH Hs), Hk.
    destruct (Ascii.eqb c Re.newline); reflexivity.
Qed.

Lemma sub_from_no_marker fuel s :
  has_marker s = false -> Re.sub_from fuel version_pattern version_repl s = s.
Proof.
  revert s. induction fuel as [|fuel IH]; intros s Hs; [reflexivity|].
  cbn [Re.sub_from]. rewrite match_here_pattern, (dot_star_no_marker s s Hs).
  destruct s as [|c s]; [reflexivity|].
  rewrite has_marker_cons in Hs. apply orb_false_elim in Hs as [_ Hs].
  rewrite (IH s Hs). reflexivity.
Qed.

Lemma append_cons c (a b : string) : String c a +:+ b = String c (a +:+ b).
Proof. reflexivity. Qed.

(** The greedy [.*] gives back nothing when the continuation accepts what
    follows a run without a line break. *)
Lemma dot_star_skip {X : Type} (k : string -> option X) base t x :
  single_line base = true ->
  Re.dot_star t k = Some x ->
  Re.dot_star (base +:+ t) k = Some x.
Proof.
  intros Hbase Ht. induction base as [|c base IH]; [exact Ht|].
  cbn [single_line] in Hbase. apply andb_prop in Hbase as [Hc Hbase].
  apply negb_true_iff in Hc.
  rewrite append_cons. cbn [Re.dot_star]. rewrite Hc, (IH Hbase). reflexivity.
Qed.

Lemma line_rest_single_line s : single_line s = true -> line_rest s = EmptyString.
Proof.
  induction s as [|c s IH]; [reflexivity|].
  cbn [single_line line_rest]. intros H. apply andb_prop in H as [Hc Hs].
  apply negb_true_iff in Hc. rewrite Hc. auto.
Qed.

Lemma length_append (a b : string) :
  String.length (a +:+ b) = String.length a + String.length b.
Proof.
  induction a as [|c a IH]; [reflexivity|].
  rewrite append_cons. cbn [String.length]. rewrite IH. reflexivity.
Qed.

Lemma consumed_append base t : Re.consumed (base +:+ t) t = base.
Proof.
  unfold Re.consumed. rewrite length_append.
  replace (String.length base + String.length t - String.length t)
    with (String.length base) by lia.
  induction base as [|c base IH].
  - destruct t; reflexivity.
  - rewrite append_cons. cbn [String.length String.substring]. rewrite IH. reflexivity.
Qed.

Lemma append_empty_r (s : string) : s +:+ EmptyString = s.
Proof.
  induction s as [|c s IH]; [reflexivity|].
  rewrite append_cons, IH. reflexivity.
Qed.

Lemma marker_shape m rest :
  is_marker m ->
  exists word,
    m +:+ rest = String "-" (word +:+ rest) /\
    after_marker (m +:+ rest) = Some rest /\
    (has_marker rest = false -> has_marker (word +:+ rest) = false).
Proof.
  intros [-> | ->].
  - exists "SNAPSHOT". split; [reflexivity|]. split.
    + reflexivity.
    + intros H. exact H.
  - exists "BETA". split; [reflexivity|]. split.
    + reflexivity.
    + intros H. exact H.
Qed.

(** A version of one line is cut at its last marker. *)
Lemma normalize_at_last_marker base m rest :
  is_marker m ->
  single_line base = true ->
  single_line rest = true ->
  has_marker rest = false ->
  normalize_version (base +:+ m +:+ rest) = base +:+ ".preview".
Proof.
  intros Hm Hbase Hrest Hno.
  destruct (marker_shape m rest Hm) as (word & Heq & Hafter & Hword).
  unfold normalize_version, Re.sub. cbn [Re.sub_from].
  rewrite match_here_pattern.
  assert (Hmatch : Re.dot_star (base +:+ m +:+ rest) (after_group (base +:+ m +:+ rest))
                   = Some (EmptyString, Some base)).
  { apply dot_star_skip; [exact Hbase|].
    rewrite Heq at 1. cbn [Re.dot_star].
    change (Ascii.eqb "-" Re.newline) with false. cbv iota.
    rewrite (dot_star_no_marker _ _ (Hword Hno)).
    rewrite <- Heq. unfold after_group. rewrite Hafter.
    rewrite (line_rest_single_line rest Hrest), consumed_append. reflexivity. }
  rewrite Hmatch.
  assert (Hlen : (String.length EmptyString <? String.length (base +:+ m +:+ rest)) = true).
  { apply Nat.ltb_lt. rewrite !length_append. destruct Hm as [-> | ->]; simpl; lia. }
  rewrite Hlen.
  assert (Hend : Re.sub_from (String.length (base +:+ m +:+ rest)) version_pattern
                   version_repl EmptyString = EmptyString).
  { apply sub_from_no_marker. reflexivity. }
  rewrite Hend. cbn [Re.expand version_repl default].
  rewrite !append_empty_r. reflexivity.
Qed.

Lemma normalize_no_marker v : has_marker v = false -> normalize_version v = v.
Proof. apply sub_from_no_marker. Qed.

End VersionFacts.

(** ** Mappings *)

Lemma dict_get_set_eq k v d : dict_get k (dict_set k v d) = Some v.
Proof.
  induction d as [|[k' v'] d IH]; simpl.
  - by rewrite String.eqb_refl.
  - destruct (String.eqb k k') eqn:E; simpl; rewrite E; [reflexivity | exact IH].
Qed.

Lemma dict_get_set_ne k k' v d : k <> k' -> dict_get k' (dict_set k v d) = dict_get k' d.
Proof.
  intros Hne. induction d as [|[k0 v0] d IH]; simpl.
  - destruct (String.eqb k' k) eqn:E; [|reflexivity].
    apply String.eqb_eq in E. congruence.
  - destruct (String.eqb k k0) eqn:E; simpl.
    + apply String.eqb_eq in E. subst k0.
      destruct (String.eqb k' k) eqn:E'; [|reflexivity].
      apply String.eqb_eq in E'. congruence.
    + destruct (String.eqb k' k0); [reflexivity | exact IH].
Qed.

Lemma mutate_plugin_info_inv ref plugin_info mutated d :
  mutate_plugin_info ref plugin_info = Val (mutated, d) ->
  exists v,
    default (VStr "0") (dict_get "version" plugin_info) = VStr v /\
    mutated = dict_set "version" (VStr (normalize_version v)) plugin_info /\
    alias_dict ref (collect_aliases mutated) ∅ = Val d.
Proof.
  unfold mutate_plugin_info.
  destruct (default (VStr "0") (dict_get "version" plugin_info)) as [| | |v| | |];
    try discriminate.
  destruct (alias_dict _ _ _) as [m| | |] eqn:E; simpl; try discriminate.
  intros [= <- <-]. exists v. auto.
Qed.

(** C7, as amended. The version of a plugin object is rewritten when the
    object is registered: a missing version becomes 0; a version of one line
    that has a marker (a dash and SNAPSHOT or BETA) is cut at its last marker
    and gets the suffix .preview; a version without a marker is kept. *)
Theorem version_normalized_at_last_marker :
  forall ref plugin_info mutated d,
    mutate_plugin_info ref plugin_info = Val (mutated, d) ->
    exists v,
      default (VStr "0") (dict_get "version" plugin_info) = VStr v /\
      dict_get "version" mutated = Some (VStr (normalize_version v)) /\
      (forall base m rest,
          v = base +:+ m +:+ rest ->
          Version.is_marker m ->
          Version.single_line base = true ->
          Version.single_line rest = true ->
          Version.has_marker rest = false ->
          normalize_version v = base +:+ ".preview") /\
      (Version.has_marker v = false -> normalize_version v = v).
Proof.
  intros ref plugin_info mutated d H.
  destruct (mutate_plugin_info_inv _ _ _ _ H) as (v & Hv & -> & _).
  exists v. split; [exact Hv|]. split; [apply dict_get_set_eq|]. split.
  - intros base m rest -> Hm Hb Hr Hno. by apply VersionFacts.normalize_at_last_marker.
  - apply VersionFacts.normalize_no_marker.
Qed.

Example normalize_snapshot : normalize_version "1.2-SNAPSHOT" = "1.2.preview".
Proof. reflexivity. Qed.

Example normalize_beta3 : normalize_version "1.2-BETA3" = "1.2.preview".
Proof. reflexivity. Qed.

Example normalize_plain : normalize_version "1.2" = "1.2".
Proof. reflexivity. Qed.

Lemma version_normalized_witness :
  exists v,
    default (VStr "0") (dict_get "version" [("shortName", VStr "git"); ("version", VStr "1.2-BETA3")])
      = VStr v /\
    dict_get "version" [("shortName", VStr "git"); ("version", VStr "1.2.preview")]
      = Some (VStr (normalize_version v)) /\
    normalize_version v = "1.2" +:+ ".preview".
Proof.
  destruct (version_normalized_at_last_marker 0
              [("shortName", VStr "git"); ("version", VStr "1.2-BETA3")]
              [("shortName", VStr "git"); ("version", VStr "1.2.preview")]
              {["git" := 0]} eq_refl) as (v & Hv & Hget & Hcut & _).
  exists v. split; [exact Hv|]. split; [exact Hget|].
  injection Hv as <-.
  apply (Hcut "1.2" "-BETA" "3"); [reflexivity | right; reflexivity | reflexivity..].
Defined.

(** Without the amendment the property fails. The version below is some
    text, the marker -BETA, and more text, and it is not rewritten to that
    text with the suffix: the pattern is greedy, and cuts at the last marker.
    And a version of two lines is neither cut to the text before its marker
    nor kept. *)
Lemma version_not_cut_at_first_marker :
  "1.0-BETA-2-SNAPSHOT" = "1.0" +:+ "-BETA" +:+ "-2-SNAPSHOT" /\
  normalize_version "1.0-BETA-2-SNAPSHOT" = "1.0-BETA-2.preview" /\
  normalize_version "1.0-BETA-2-SNAPSHOT" <> "1.0" +:+ ".preview" /\
  normalize_version ("1.2-SNAPSHOT" +:+ String Re.newline "rc")
    = "1.2.preview" +:+ String Re.newline "rc" /\
  normalize_version ("1.2-SNAPSHOT" +:+ String Re.newline "rc") <> "1.2" +:+ ".preview" /\
  normalize_version ("1.2-SNAPSHOT" +:+ String Re.newline "rc")
    <> "1.2-SNAPSHOT" +:+ String Re.newline "rc".
Proof. repeat split; try reflexivity; discriminate. Qed.

(** ** The plugin metadata store *)

Lemma collect_aliases_spec plugin_info alias :
  VStr alias ∈ collect_aliases plugin_info <-> declares plugin_info alias.
Proof.
  unfold collect_aliases, declares. cbn [flat_map].
  destruct (dict_get "longName" plugin_info) as [[]|];
    destruct (dict_get "shortName" plugin_info) as [[]|];
    simpl; rewrite ?elem_of_cons, ?elem_of_nil; intuition congruence.
Qed.

Lemma declares_set_version plugin_info v alias :
  declares (dict_set "version" v plugin_info) alias <-> declares plugin_info alias.
Proof.
  unfold declares.
  rewrite (dict_get_set_ne "version" "longName"), (dict_get_set_ne "version" "shortName");
    [reflexivity | discriminate..].
Qed.

Lemma as_key_inv name key : as_key name = Val key -> name = VStr key.
Proof. destruct name; simpl; congruence. Qed.

Lemma alias_dict_registered ref aliases m0 m k :
  alias_dict ref aliases m0 = Val m ->
  VStr k ∈ aliases \/ m0 !! k = Some ref ->
  m !! k = Some ref.
Proof.
  revert m0. induction aliases as [|name aliases IH]; intros m0 H Hk.
  - injection H as <-. destruct Hk as [Hk|Hk]; [by apply elem_of_nil in Hk | exact Hk].
  - cbn [alias_dict] in H.
    destruct (as_key name) as [key| | |] eqn:Hkey; try discriminate.
    apply as_key_inv in Hkey. subst name. cbn [outcome_bind] in H.
    apply (IH _ H).
    destruct (decide (key = k)) as [->|Hne]; [right; apply lookup_insert_eq|].
    destruct Hk as [Hk|Hk].
    + apply elem_of_cons in Hk as [[=]|Hk]; [congruence | by left].
    + right. by rewrite lookup_insert_ne.
Qed.

Lemma alias_dict_other ref aliases m0 m k :
  alias_dict ref aliases m0 = Val m ->
  VStr k ∉ aliases ->
  m !! k = m0 !! k.
Proof.
  revert m0. induction aliases as [|name aliases IH]; intros m0 H Hk.
  - injection H as <-. reflexivity.
  - cbn [alias_dict] in H.
    destruct (as_key name) as [key| | |] eqn:Hkey; try discriminate.
    apply as_key_inv in Hkey. subst name. cbn [outcome_bind] in H.
    apply not_elem_of_cons in Hk as [Hne Hk].
    rewrite (IH _ H Hk). apply lookup_insert_ne. congruence.
Qed.

Lemma dict_set_set k v1 v2 d : dict_set k v2 (dict_set k v1 d) = dict_set k v2 d.
Proof.
  induction d as [|[k' v'] d IH]; simpl.
  - by rewrite String.eqb_refl.
  - destruct (String.eqb k k') eqn:E; simpl; rewrite E; [reflexivity | by rewrite IH].
Qed.

(** The rewriting of a version leaves the names of every object as they
    are. *)
Lemma declares_vinsert {n : nat} (objects : vec dict n) (ref ref' : fin n) v alias :
  declares (vinsert ref (dict_set "version" v (objects !!! ref)) objects !!! ref') alias <->
  declares (objects !!! ref') alias.
Proof.
  destruct (decide (ref = ref')) as [->|Hne].
  - rewrite vlookup_insert. apply declares_set_version.
  - by rewrite vlookup_insert_ne.
Qed.

(** The dictionary that [mutate_all] returns for the element at position
    [j]: the names of the object, each with the reference of the object. *)
Lemma mutate_all_lookup {n : nat} (plugins_list : list (fin n)) objects objects' list_of_dicts :
  mutate_all plugins_list objects = Val (objects', list_of_dicts) ->
  length list_of_dicts = length plugins_list /\
  forall j ref,
    plugins_list !! j = Some ref ->
    exists m,
      list_of_dicts !! j = Some m /\
      (forall k, declares (objects !!! ref) k -> m !! k = Some (fin_to_nat ref)) /\
      (forall k, ~ declares (objects !!! ref) k -> m !! k = None).
Proof.
  revert objects objects' list_of_dicts.
  induction plugins_list as [|ref0 rest IH]; intros objects objects' list_of_dicts H.
  - injection H as <- <-. split; [reflexivity|]. intros j ref Hj. discriminate.
  - cbn [mutate_all] in H.
    destruct (mutate_plugin_info ref0 (objects !!! ref0)) as [[d0' m0]| | |] eqn:Hm;
      try discriminate.
    cbn [outcome_bind] in H.
    destruct (mutate_all rest (vinsert ref0 d0' objects)) as [[vs ds]| | |] eqn:Hrest;
      try discriminate.
    cbn [outcome_bind] in H. injection H as <- <-.
    destruct (IH _ _ _ Hrest) as [Hlen Hds].
    destruct (mutate_plugin_info_inv _ _ _ _ Hm) as (v & Hv & -> & Ha).
    split; [cbn [length]; by rewrite Hlen|].
    intros [|j] ref Hj.
    + injection Hj as ->. exists m0. split; [reflexivity|]. split; intros k Hk.
      * apply (alias_dict_registered _ _ _ _ _ Ha). left.
        apply collect_aliases_spec, declares_set_version. exact Hk.
      * rewrite (alias_dict_other _ _ _ _ k Ha); [apply lookup_empty|].
        intros Hin. apply collect_aliases_spec, declares_set_version in Hin. auto.
    + destruct (Hds j ref Hj) as (m & Hm' & Hin & Hout).
      exists m. split; [exact Hm'|]. split; intros k Hk.
      * apply Hin, declares_vinsert, Hk.
      * apply Hout. intros Hd. apply Hk. by apply declares_vinsert in Hd.
Qed.

Lemma times_listed_cons {n : nat} (ref ref0 : fin n) rest :
  times_listed ref (ref0 :: rest) =
  if decide (ref0 = ref) then S (times_listed ref rest) else times_listed ref rest.
Proof.
  unfold times_listed. rewrite filter_cons.
  destruct (decide (ref0 = ref)); reflexivity.
Qed.

Lemma times_listed_elem {n : nat} (ref : fin n) plugins_list :
  ref ∈ plugins_list -> times_listed ref plugins_list <> 0.
Proof.
  intros Hin Hzero. unfold times_listed in Hzero. apply length_zero_iff_nil in Hzero.
  assert (Hin' : ref ∈ filter (fun element => element = ref) plugins_list)
    by (by apply list_elem_of_filter).
  rewrite Hzero in Hin'. by apply elem_of_nil in Hin'.
Qed.

(** The store that [mutate_all] returns: an object that is not listed is
    as it was, and the version of an object that is listed was rewritten
    once for each time it is listed. *)
Lemma mutate_all_store {n : nat} (plugins_list : list (fin n)) objects objects' list_of_dicts :
  mutate_all plugins_list objects = Val (objects', list_of_dicts) ->
  forall ref,
    match times_listed ref plugins_list with
    | 0 => objects' !!! ref = objects !!! ref
    | S k =>
        exists v,
          default (VStr "0") (dict_get "version" (objects !!! ref)) = VStr v /\
          objects' !!! ref =
          dict_set "version" (VStr (Nat.iter (S k) normalize_version v)) (objects !!! ref)
    end.
Proof.
  revert objects objects' list_of_dicts.
  induction plugins_list as [|ref0 rest IH]; intros objects objects' list_of_dicts H ref.
  - injection H as <- <-. reflexivity.
  - cbn [mutate_all] in H.
    destruct (mutate_plugin_info ref0 (objects !!! ref0)) as [[d0' m0]| | |] eqn:Hm;
      try discriminate.
    cbn [outcome_bind] in H.
    destruct (mutate_all rest (vinsert ref0 d0' objects)) as [[vs ds]| | |] eqn:Hrest;
      try discriminate.
    cbn [outcome_bind] in H. injection H as <- <-.
    destruct (mutate_plugin_info_inv _ _ _ _ Hm) as (v & Hv & -> & _).
    specialize (IH _ _ _ Hrest ref). rewrite times_listed_cons.
    destruct (decide (ref0 = ref)) as [->|Hne].
    + rewrite vlookup_insert in IH. exists v. split; [exact Hv|].
      destruct (times_listed ref rest) as [|k].
      * exact IH.
      * destruct IH as (v' & Hv' & ->).
        rewrite dict_get_set_eq in Hv'. injection Hv' as <-.
        rewrite dict_set_set. f_equal. f_equal.
        change (Nat.iter (S k) normalize_version (normalize_version v))
          with (Nat.iter (S k) normalize_version (Nat.iter 1 normalize_version v)).
        rewrite <- Nat.iter_add. f_equal. lia.
    + rewrite vlookup_insert_ne in IH by exact Hne. exact IH.
Qed.

(** The merge of the dictionaries: the last one that has the key wins. *)
Lemma fold_update_none (ds : list (gmap string nat)) (m0 : gmap string nat) k :
  (forall j m, ds !! j = Some m -> m !! k = None) ->
  fold_left gmap_update ds m0 !! k = m0 !! k.
Proof.
  revert m0. induction ds as [|m1 ds IH]; intros m0 H; [reflexivity|].
  cbn [fold_left]. rewrite IH.
  - unfold gmap_update. rewrite lookup_union_r; [reflexivity|]. apply (H 0). reflexivity.
  - intros j m Hj. apply (H (S j)). exact Hj.
Qed.

Lemma fold_update_last (ds : list (gmap string nat)) (m0 : gmap string nat) i m k v :
  ds !! i = Some m ->
  m !! k = Some v ->
  (forall j m', i < j -> ds !! j = Some m' -> m' !! k = None) ->
  fold_left gmap_update ds m0 !! k = Some v.
Proof.
  revert i m0. induction ds as [|m1 ds IH]; intros i m0 Hi Hm Hlater; [discriminate|].
  cbn [fold_left]. destruct i as [|i].
  - injection Hi as ->. rewrite fold_update_none.
    + unfold gmap_update. by apply lookup_union_Some_l.
    + intros j m' Hj. apply (Hlater (S j)); [lia | exact Hj].
  - apply (IH i); [exact Hi | exact Hm |].
    intros j m' Hlt Hj. apply (Hlater (S j)); [lia | exact Hj].
Qed.

Lemma fold_add_module_plugins env l r :
  plugins_dict (fold_left (add_module env) l r) = plugins_dict r /\
  plugin_objects (fold_left (add_module env) l r) = plugin_objects r /\
  masked_warned (fold_left (add_module env) l r) = masked_warned r.
Proof.
  revert r. induction l as [|e l IH]; intros r; [auto|].
  cbn [fold_left]. destruct (IH (add_module env r e)) as (-> & -> & ->). auto.
Qed.

Lemma init_plugins env config plugins_list r :
  __init__ env config (Some plugins_list) = Val r ->
  _get_plugins_info_dict plugins_list = Val (plugin_objects r, plugins_dict r).
Proof.
  unfold __init__.
  destruct (_get_plugins_info_dict plugins_list) as [[objects plugins]| | |];
    try discriminate.
  cbn [outcome_bind]. intros [= <-].
  destruct (fold_add_module_plugins env (jenkins_jobs_modules env)
              {| modules := []; modules_by_component_type := ∅; jjb_config := config;
                 masked_warned := ∅; plugins_dict := plugins; plugin_objects := objects;
                 parser_data := None |}) as (-> & -> & _).
  reflexivity.
Qed.

(** C8, as amended. [get_plugin_info] is a lookup with a default, and has
    no way to fail. In a registry made from a list of plugin objects, an
    alias that no object of the list declares gives the empty mapping; and
    when an object declares a long and a short name, and no later element of
    the list declares either of them, both names give a reference to that
    one object, which is the object of the caller with its version rewritten
    once for each time the list has it. *)
Theorem get_plugin_info_shared_record :
  forall env config plugins_list r,
    __init__ env config (Some plugins_list) = Val r ->
    (forall alias,
        (forall j ref, elements plugins_list !! j = Some ref ->
                       ~ declares (store plugins_list !!! ref) alias) ->
        get_plugin_info r alias = EmptyDict /\ contents r (get_plugin_info r alias) = Some []) /\
    (forall i ref long short,
        elements plugins_list !! i = Some ref ->
        dict_get "longName" (store plugins_list !!! ref) = Some (VStr long) ->
        dict_get "shortName" (store plugins_list !!! ref) = Some (VStr short) ->
        (forall j ref', i < j -> elements plugins_list !! j = Some ref' ->
                        ~ declares (store plugins_list !!! ref') long /\
                        ~ declares (store plugins_list !!! ref') short) ->
        get_plugin_info r long = PluginObject (fin_to_nat ref) /\
        get_plugin_info r short = PluginObject (fin_to_nat ref) /\
        exists v,
          default (VStr "0") (dict_get "version" (store plugins_list !!! ref)) = VStr v /\
          contents r (PluginObject (fin_to_nat ref))
            = Some (dict_set "version"
                      (VStr (Nat.iter (times_listed ref (elements plugins_list))
                               normalize_version v))
                      (store plugins_list !!! ref))).
Proof.
  intros env config [n objects plugins_list] r Hinit. cbn [store elements store_size].
  apply init_plugins in Hinit. unfold _get_plugins_info_dict in Hinit.
  cbn [store elements store_size] in Hinit.
  destruct (mutate_all plugins_list objects) as [[objects' ds]| | |] eqn:Hall;
    try discriminate.
  cbn [outcome_bind] in Hinit. injection Hinit as Hobj Hdict.
  destruct (mutate_all_lookup _ _ _ _ Hall) as [Hlen Hds].
  assert (Hnone : forall alias j m,
             (forall j ref, plugins_list !! j = Some ref -> ~ declares (objects !!! ref) alias) ->
             ds !! j = Some m -> m !! alias = None).
  { intros alias j m Hno Hj.
    destruct (lookup_lt_is_Some_2 plugins_list j) as [ref Href].
    { rewrite <- Hlen. eapply lookup_lt_Some, Hj. }
    destruct (Hds j ref Href) as (m' & Hm' & _ & Hout).
    rewrite Hj in Hm'. injection Hm' as <-. apply Hout, (Hno j ref Href). }
  split.
  - intros alias Hno.
    assert (Hk : plugins_dict r !! alias = None).
    { rewrite <- Hdict, fold_update_none; [apply lookup_empty|].
      intros j m Hj. by apply (Hnone alias j m). }
    unfold get_plugin_info. rewrite Hk. auto.
  - intros i ref long short Hi Hlong Hshort Hlater.
    destruct (Hds i ref Hi) as (m & Hm & Hin & _).
    assert (Hget : forall alias,
               declares (objects !!! ref) alias ->
               (forall j ref', i < j -> plugins_list !! j = Some ref' ->
                               ~ declares (objects !!! ref') alias) ->
               get_plugin_info r alias = PluginObject (fin_to_nat ref)).
    { intros alias Hdecl Hnot. unfold get_plugin_info.
      rewrite <- Hdict, (fold_update_last ds ∅ i m alias _ Hm (Hin alias Hdecl));
        [reflexivity|].
      intros j m' Hlt Hj.
      destruct (lookup_lt_is_Some_2 plugins_list j) as [ref' Href'].
      { rewrite <- Hlen. eapply lookup_lt_Some, Hj. }
      destruct (Hds j ref' Href') as (m'' & Hm'' & _ & Hout).
      rewrite Hj in Hm''. injection Hm'' as <-. apply Hout, (Hnot j ref' Hlt Href'). }
    split; [|split].
    + apply Hget; [by left|]. intros j ref' Hlt Href'. apply (Hlater j ref' Hlt Href').
    + apply Hget; [by right|]. intros j ref' Hlt Href'. apply (Hlater j ref' Hlt Href').
    + pose proof (mutate_all_store _ _ _ _ Hall ref) as Hstore.
      assert (Hlisted : times_listed ref plugins_list <> 0)
        by (eapply times_listed_elem, list_elem_of_lookup_2, Hi).
      destruct (times_listed ref plugins_list) as [|k]; [contradiction|].
      destruct Hstore as (v & Hv & Hobject).
      exists v. split; [exact Hv|]. cbn [contents].
      rewrite <- Hobj, <- Hobject. by apply vlookup_lookup.
Qed.

Lemma get_plugin_info_shared_record_witness :
  (exists r,
      __init__ Demo.env Demo.config (Some demo_plugins) = Val r /\
      get_plugin_info r "no such plugin" = EmptyDict /\
      get_plugin_info r "Jenkins Git plugin" = PluginObject 0 /\
      get_plugin_info r "git" = PluginObject 0 /\
      contents r (PluginObject 0)
        = Some [("longName", VStr "Jenkins Git plugin"); ("shortName", VStr "git");
                ("version", VStr "1.2.preview")]) /\
  (exists r,
      __init__ Demo.env Demo.config (Some demo_plugin_twice) = Val r /\
      get_plugin_info r "Jenkins Git plugin" = PluginObject 0 /\
      get_plugin_info r "git" = PluginObject 0 /\
      contents r (PluginObject 0)
        = Some [("longName", VStr "Jenkins Git plugin"); ("shortName", VStr "git");
                ("version", VStr "1.0.preview")]).
Proof.
  split.
  - eexists. split; [reflexivity|].
    destruct (get_plugin_info_shared_record Demo.env Demo.config demo_plugins _ eq_refl)
      as [Hempty Hshared].
    split.
    + apply Hempty. intros j ref Hj [H|H];
        destruct j as [|[|j]]; try discriminate; vm_compute in Hj; injection Hj as <-;
        vm_compute in H; discriminate.
    + destruct (Hshared 0 0%fin "Jenkins Git plugin" "git" eq_refl eq_refl eq_refl)
        as (Hlong & Hshort & v & Hv & Hc).
      * intros j ref Hlt Hj. destruct j as [|[|j]]; [lia | | discriminate].
        vm_compute in Hj. injection Hj as <-.
        split; intros [H|H]; vm_compute in H; discriminate.
      * split; [exact Hlong|]. split; [exact Hshort|].
        etrans; [exact Hc|]. vm_compute in Hv. injection Hv as <-. reflexivity.
  - eexists. split; [reflexivity|].
    destruct (get_plugin_info_shared_record Demo.env Demo.config demo_plugin_twice _ eq_refl)
      as [_ Hshared].
    destruct (Hshared 1 0%fin "Jenkins Git plugin" "git" eq_refl eq_refl eq_refl)
      as (Hlong & Hshort & v & Hv & Hc).
    + intros j ref Hlt Hj. destruct j as [|[|j]]; [lia | lia | discriminate].
    + split; [exact Hlong|]. split; [exact Hshort|].
      etrans; [exact Hc|]. vm_compute in Hv. injection Hv as <-. reflexivity.
Defined.

(** An object that the list has twice is one record, and its version is
    rewritten twice: the second rewriting cuts at the marker that the first
    one left. *)
Example plugin_listed_twice :
  exists r,
    __init__ Demo.env Demo.config (Some demo_plugin_twice) = Val r /\
    get_plugin_info r "git" = PluginObject 0 /\
    contents r (PluginObject 0)
      = Some [("longName", VStr "Jenkins Git plugin"); ("shortName", VStr "git");
              ("version", VStr "1.0.preview")] /\
    normalize_version "1.0-BETA-SNAPSHOT" = "1.0-BETA.preview".
Proof. eexists. split; [reflexivity|]. repeat split; reflexivity. Qed.

(** Without the amendment the property fails: the first object below
    declares a long and a short name, and the two names give different
    objects, because the second object declares the same short name and the
    last one wins. *)
Lemma alias_taken_by_later_plugin :
  exists r,
    __init__ Demo.env Demo.config (Some demo_plugins_clash) = Val r /\
    dict_get "longName" (store demo_plugins_clash !!! 0%fin)
      = Some (VStr "Jenkins Git plugin") /\
    dict_get "shortName" (store demo_plugins_clash !!! 0%fin) = Some (VStr "git") /\
    get_plugin_info r "Jenkins Git plugin" = PluginObject 0 /\
    get_plugin_info r "git" = PluginObject 1 /\
    contents r (get_plugin_info r "Jenkins Git plugin")
      <> contents r (get_plugin_info r "git").
Proof.
  eexists. split; [reflexivity|]. repeat split; try reflexivity. discriminate.
Qed.

(** ** The trace of a dispatch *)

Lemma emit_eq e w : emit e w = (Val tt, appended [e] w).
Proof. reflexivity. Qed.

Lemma appended_nil w : appended [] w = w.
Proof.
  destruct w as [r [a b t]]. unfold appended, with_trace. cbn.
  by rewrite app_nil_r.
Qed.

Lemma appended_app a b w : appended b (appended a w) = appended (a ++ b) w.
Proof. unfold appended, with_trace. cbn. by rewrite app_assoc. Qed.

Lemma mask_warnings_app s t1 t2 :
  mask_warnings s (t1 ++ t2) = mask_warnings s t1 + mask_warnings s t2.
Proof. induction t1 as [|e t1 IH]; cbn; [reflexivity | rewrite IH; lia]. Qed.

#[global] Instance quiet_step_preorder : PreOrder quiet_step.
Proof.
  split.
  - intros w. split; [reflexivity|]. exists []. split; [by rewrite app_nil_r | reflexivity].
  - intros w1 w2 w3 [Hs1 (n1 & Ht1 & Hq1)] [Hs2 (n2 & Ht2 & Hq2)]. split; [congruence|].
    exists (n1 ++ n2). split.
    + rewrite Ht2, Ht1, app_assoc. reflexivity.
    + intros s. rewrite mask_warnings_app, Hq1, Hq2. reflexivity.
Qed.

#[global] Instance same_caches_preorder : PreOrder same_caches.
Proof.
  split.
  - intros w. split; reflexivity.
  - intros w1 w2 w3 [H1 H2] [H3 H4]. split; congruence.
Qed.

Lemma newly_warned_trans w1 w2 w3 s :
  masked_warned (self w1) ⊆ masked_warned (self w2) ->
  masked_warned (self w2) ⊆ masked_warned (self w3) ->
  newly_warned w1 w3 s = newly_warned w1 w2 s + newly_warned w2 w3 s.
Proof.
  intros H12 H23. unfold newly_warned.
  repeat case_bool_decide; first [lia | exfalso; set_solver].
Qed.

#[global] Instance warns_once_preorder : PreOrder warns_once.
Proof.
  split.
  - intros w. split; [reflexivity|]. exists []. split; [by rewrite app_nil_r|].
    intros s. unfold newly_warned. case_bool_decide; [exfalso; set_solver | reflexivity].
  - intros w1 w2 w3 [Hs1 (n1 & Ht1 & Hq1)] [Hs2 (n2 & Ht2 & Hq2)].
    split; [etrans; eassumption|].
    exists (n1 ++ n2). split.
    + rewrite Ht2, Ht1, app_assoc. reflexivity.
    + intros s. rewrite mask_warnings_app, Hq1, Hq2.
      symmetry. by apply newly_warned_trans.
Qed.

Lemma quiet_step_warns_once w w' : quiet_step w w' -> warns_once w w'.
Proof.
  intros [Hs (new & Ht & Hq)]. split; [by rewrite Hs|].
  exists new. split; [exact Ht|]. intros s. rewrite Hq.
  unfold newly_warned. rewrite Hs. case_bool_decide; [exfalso; set_solver | reflexivity].
Qed.

(** Computations all of whose runs are steps of a preorder [R]. *)
Section Preserves.
Variable R : world -> world -> Prop.
Context `{!PreOrder R}.

Lemma preserves_ret {A : Type} (a : A) : preserves R (ret a).
Proof. intros w. reflexivity. Qed.

Lemma preserves_raise {A : Type} e : preserves R (@raise world A e).
Proof. intros w. reflexivity. Qed.

Lemma preserves_stop {A : Type} (o : outcome A) : preserves R (@stop world A o).
Proof. intros w. reflexivity. Qed.

Lemma preserves_lift {A : Type} (r : exn + A) : preserves R (@lift world A r).
Proof. destruct r; [apply preserves_raise | apply preserves_ret]. Qed.

Lemma preserves_get : preserves R (@get world).
Proof. intros w. reflexivity. Qed.

Lemma preserves_bind {A B : Type} (c : M world A) (k : A -> M world B) :
  preserves R c -> (forall a, preserves R (k a)) -> preserves R (bind c k).
Proof.
  intros Hc Hk w. unfold bind. specialize (Hc w).
  destruct (c w) as [[a| | |] w1]; cbn in *; try exact Hc.
  etrans; [exact Hc | apply Hk].
Qed.

Lemma preserves_for_each {A : Type} (f : A -> M world unit) (l : list A) :
  (forall x, preserves R (f x)) -> preserves R (for_each f l).
Proof.
  intros Hf. induction l as [|x l IH]; cbn [for_each].
  - apply preserves_ret.
  - apply preserves_bind; [apply Hf | intros _; exact IH].
Qed.
End Preserves.

Lemma quiet_steady {A : Type} (c : M world A) : quiet c -> steady c.
Proof. intros H w. apply quiet_step_warns_once, H. Qed.

Lemma quiet_emit e : (forall s, is_mask_warning s e = false) -> quiet (emit e).
Proof.
  intros H w. rewrite emit_eq. split; [reflexivity|]. exists [e]. split; [reflexivity|].
  intros s. cbn. by rewrite H.
Qed.

Lemma quiet_entry_points_cache f : quiet (modify (with_entry_points_cache f)).
Proof.
  intros w. split; [reflexivity|]. exists []. split; [|reflexivity].
  cbn. by rewrite app_nil_r.
Qed.

Lemma quiet_component_type_cache f : quiet (modify (with_component_type_cache f)).
Proof.
  intros w. split; [reflexivity|]. exists []. split; [|reflexivity].
  cbn. by rewrite app_nil_r.
Qed.

Lemma keeps_caches_emit e : keeps_caches (emit e).
Proof. intros w. split; reflexivity. Qed.

(** One step of a proof that a computation preserves a preorder. *)
Ltac preserves_step :=
  lazymatch goal with
  | |- preserves _ (bind _ _) => apply preserves_bind; [tc_solve | | intros ?]
  | |- preserves _ (ret _) => apply preserves_ret; tc_solve
  | |- preserves _ (raise _) => apply preserves_raise; tc_solve
  | |- preserves _ (stop _) => apply preserves_stop; tc_solve
  | |- preserves _ (lift _) => apply preserves_lift; tc_solve
  | |- preserves _ get => apply preserves_get; tc_solve
  | |- preserves quiet_step (log _ _ _ _) => apply quiet_emit; intros ?; reflexivity
  | |- preserves quiet_step (emit _) => apply quiet_emit; intros ?; reflexivity
  | |- preserves same_caches (log _ _ _ _) => apply keeps_caches_emit
  | |- preserves same_caches (emit _) => apply keeps_caches_emit
  | |- preserves quiet_step (modify (with_entry_points_cache _)) =>
      apply quiet_entry_points_cache
  | |- preserves quiet_step (modify (with_component_type_cache _)) =>
      apply quiet_component_type_cache
  | |- preserves _ (match ?x with _ => _ end) => destruct x
  end.

Lemma quiet_get_component_list_type env ep : quiet (get_component_list_type env ep).
Proof. unfold get_component_list_type. repeat preserves_step. Qed.

Lemma quiet_update paramdict v : quiet (update paramdict v).
Proof. unfold update. repeat preserves_step. Qed.

Lemma quiet_component_name_and_data env component template_data job_data :
  quiet (component_name_and_data env component template_data job_data).
Proof.
  unfold component_name_and_data.
  repeat first [apply quiet_update | preserves_step].
Qed.

Lemma quiet_auto_entry_point ep func_ep : quiet (auto_entry_point ep func_ep).
Proof. unfold auto_entry_point. repeat preserves_step. Qed.

Lemma quiet_auto_entry_points ep funcs : quiet (auto_entry_points ep funcs).
Proof.
  induction funcs as [|f funcs IH]; cbn [auto_entry_points].
  - apply preserves_ret; tc_solve.
  - repeat first [apply quiet_auto_entry_point | apply IH | preserves_step].
Qed.

Lemma quiet_fill_table ct name l eps : quiet (fill_table ct name l eps).
Proof.
  revert eps. induction l as [|[e f] l IH]; intros eps; cbn [fill_table].
  - apply preserves_ret; tc_solve.
  - destruct (eps !! ep_name e); [apply preserves_raise; tc_solve | apply IH].
Qed.

Lemma quiet_entry_points env ct lt ep name : quiet (entry_points env ct lt ep name).
Proof.
  unfold entry_points.
  repeat first [apply quiet_auto_entry_points | apply quiet_fill_table | preserves_step].
Qed.

Lemma quiet_macro_lookup ct name : quiet (macro_lookup ct name).
Proof. unfold macro_lookup. repeat preserves_step. Qed.

Lemma keeps_caches_component_name_and_data env component template_data job_data :
  keeps_caches (component_name_and_data env component template_data job_data).
Proof.
  unfold component_name_and_data, update. repeat preserves_step.
Qed.

Lemma keeps_caches_auto_entry_points ep funcs : keeps_caches (auto_entry_points ep funcs).
Proof.
  induction funcs as [|f funcs IH]; cbn [auto_entry_points].
  - apply preserves_ret; tc_solve.
  - unfold auto_entry_point. repeat first [apply IH | preserves_step].
Qed.

(** ** The warning of a masked entry point *)

Lemma is_mask_warning_log s s' ct :
  is_mask_warning s' (Log RegistryLogger WARNING mask_warning [ArgStr s; ArgStr ct])
  = bool_decide (s = s').
Proof.
  cbn [is_mask_warning]. rewrite String.eqb_refl. cbn [andb].
  destruct (String.eqb_spec s s') as [->|Hne].
  - by rewrite bool_decide_eq_true_2.
  - by rewrite bool_decide_eq_false_2.
Qed.

(** What [warn_masked] does, in full. *)
Lemma warn_masked_eq ct s eps w :
  warn_masked ct (VStr s) eps w =
  if bool_decide (is_Some (eps !! s)) && negb (bool_decide (s ∈ masked_warned (self w)))
  then (Val tt,
        appended [Log RegistryLogger WARNING mask_warning [ArgStr s; ArgStr ct]]
          (with_masked_warned (fun m => {[s]} ∪ m) w))
  else (Val tt, w).
Proof.
  unfold warn_masked, bind, get, warned.
  destruct (bool_decide (is_Some (eps !! s)) && negb (bool_decide (s ∈ masked_warned (self w))));
    reflexivity.
Qed.

Lemma steady_warn_masked ct name eps : steady (warn_masked ct name eps).
Proof.
  intros w. destruct name as [| | |s| | |]; try reflexivity.
  rewrite warn_masked_eq.
  destruct (bool_decide (is_Some (eps !! s))); cbn [andb]; [|reflexivity].
  case_bool_decide as Hin; cbn [negb snd]; [reflexivity|].
  split.
  - cbn. set_solver.
  - eexists. split; [reflexivity|]. intros s'. cbn [mask_warnings].
    rewrite is_mask_warning_log. unfold newly_warned. cbn.
    repeat case_bool_decide; first [lia | exfalso; set_solver].
Qed.

Lemma steady_expand_or_call recurse ct lt xml name cd jd eps :
  (forall ct' xml' b td' jd', steady (recurse ct' xml' b td' jd')) ->
  steady (expand_or_call recurse ct lt xml name cd jd eps).
Proof.
  intros Hrec. unfold expand_or_call.
  apply preserves_bind; [tc_solve | apply quiet_steady, quiet_macro_lookup | intros component].
  destruct (truthy component).
  - apply preserves_bind; [tc_solve | apply steady_warn_masked | intros _].
    repeat preserves_step.
    apply preserves_for_each; [tc_solve|]. intros b. apply Hrec.
  - destruct (table_get eps name).
    + apply quiet_steady, quiet_emit. reflexivity.
    + preserves_step.
Qed.

Lemma steady_dispatch env fuel ct xml component td jd :
  steady (dispatch env fuel ct xml component td jd).
Proof.
  revert ct xml component td jd.
  induction fuel as [|fuel IH]; intros ct xml component td jd; cbn [dispatch].
  - preserves_step.
  - unfold dispatch_body, resolve.
    preserves_step; [preserves_step|].
    destruct (modules_by_component_type (self a) !! ct); [|preserves_step].
    preserves_step; [apply quiet_steady, quiet_get_component_list_type|].
    preserves_step; [apply quiet_steady, quiet_component_name_and_data|].
    preserves_step; [apply quiet_steady, quiet_entry_points|].
    apply steady_expand_or_call. exact IH.
Qed.

Lemma run_calls_warns_once env calls w : warns_once w (run_calls env calls w).
Proof.
  revert w. induction calls as [|c calls IH]; intros w; cbn [run_calls fold_left].
  - reflexivity.
  - etrans; [apply steady_dispatch | apply IH].
Qed.

(** ** The steps of [dispatch] *)

Lemma dispatch_resolved env fuel ct xml component td jd w lt name cd eps w3 :
  resolves env ct component td jd w lt name cd eps w3 ->
  dispatch env (S fuel) ct xml component td jd w =
  expand_or_call (dispatch env fuel) ct lt xml name cd jd eps w3.
Proof.
  intros (ep & w1 & w2 & Hct & Hlt & Hcd & Heps).
  cbn [dispatch]. unfold dispatch_body, resolve, bind at 1, get.
  rewrite Hct. unfold bind at 1. rewrite Hlt.
  unfold bind at 1. rewrite Hcd. unfold bind at 1. cbn [fst snd]. rewrite Heps.
  reflexivity.
Qed.

Lemma resolves_quiet env ct component td jd w lt name cd eps w3 :
  resolves env ct component td jd w lt name cd eps w3 -> quiet_step w w3.
Proof.
  intros (ep & w1 & w2 & Hct & Hlt & Hcd & Heps).
  etrans; [|etrans].
  - pose proof (quiet_get_component_list_type env ep w) as H. rewrite Hlt in H. exact H.
  - pose proof (quiet_component_name_and_data env component td jd w1) as H.
    rewrite Hcd in H. exact H.
  - pose proof (quiet_entry_points env ct lt ep name w2) as H. rewrite Heps in H. exact H.
Qed.

Lemma macro_lookup_eq ct s w macro :
  macro_of (self w) ct s = Some macro ->
  macro_lookup ct (VStr s) w = (Val macro, w).
Proof.
  unfold macro_of, macro_lookup, bind, get.
  destruct (parser_data (self w)); [|discriminate]. by intros [= <-].
Qed.

(** A truthy macro is expanded. *)
Lemma expand_macro recurse ct lt xml s cd jd eps w macro body items :
  macro_of (self w) ct s = Some macro ->
  truthy macro = true ->
  getitem macro lt = inr body ->
  iterate body = inr items ->
  expand_or_call recurse ct lt xml (VStr s) cd jd eps w =
  (warn_masked ct (VStr s) eps ;;
   for_each (fun b => recurse ct xml b cd jd) items)%py w.
Proof.
  intros Hmacro Htruthy Hbody Hitems.
  unfold expand_or_call, bind at 1. rewrite (macro_lookup_eq _ _ _ _ Hmacro), Htruthy.
  unfold bind. destruct (warn_masked ct (VStr s) eps w) as [[[]| | |] w']; try reflexivity.
  rewrite Hbody. cbn [lift]. unfold ret. rewrite Hitems. reflexivity.
Qed.

(** Without a truthy macro, the entry point of that name is called. *)
Lemma call_entry_point recurse ct lt xml s cd jd eps w macro :
  macro_of (self w) ct s = Some macro ->
  truthy macro = false ->
  expand_or_call recurse ct lt xml (VStr s) cd jd eps w =
  match eps !! s with
  | Some func =>
      (Val tt, appended [Call func xml cd (_filter_kwargs func [("job_data", jd)])] w)
  | None =>
      (Raise (JenkinsJobsException
                "Unknown entry point or macro '{0}' for component type: '{1}'."
                [VStr s; VStr ct]), w)
  end.
Proof.
  intros Hmacro Hfalsy.
  unfold expand_or_call, bind at 1. rewrite (macro_lookup_eq _ _ _ _ Hmacro), Hfalsy.
  cbn [table_get]. destruct (eps !! s); reflexivity.
Qed.

Lemma filter_kwargs_job_data func jd :
  _filter_kwargs func [("job_data", jd)] =
  if bool_decide ("job_data" ∈ func_args func) then [("job_data", jd)] else [].
Proof.
  unfold _filter_kwargs. cbn [filter list_filter]. cbn [fst].
  destruct (decide_rel elem_of "job_data" (func_args func)) as [Hin|Hnin].
  - by rewrite bool_decide_eq_true_2.
  - by rewrite bool_decide_eq_false_2.
Qed.

(** ** Fuel

    The fuel only bounds the depth of the recursion through macros: a
    dispatch that has an outcome with some fuel has the same outcome, and
    leaves the same world, with more. *)

Lemma bind_more_fuel {A B : Type} (c : M world A) (k1 k2 : A -> M world B) w :
  (forall a w', fst (k1 a w') <> OutOfFuel -> k2 a w' = k1 a w') ->
  fst (bind c k1 w) <> OutOfFuel ->
  bind c k2 w = bind c k1 w.
Proof.
  intros Hk. unfold bind. destruct (c w) as [[a| | |] w']; cbn [fst]; auto.
Qed.

Lemma for_each_more_fuel {A : Type} (f g : A -> M world unit) l w :
  (forall x w', fst (f x w') <> OutOfFuel -> g x w' = f x w') ->
  fst (for_each f l w) <> OutOfFuel ->
  for_each g l w = for_each f l w.
Proof.
  intros Hfg. revert w. induction l as [|x l IH]; intros w H; [reflexivity|].
  cbn [for_each] in *.
  assert (Hx : fst (f x w) <> OutOfFuel).
  { intros E. apply H. unfold bind. destruct (f x w) as [[[]| | |] w']; cbn in *; congruence. }
  transitivity (bind (f x) (fun _ => for_each g l) w).
  { unfold bind. rewrite (Hfg x w Hx). reflexivity. }
  revert H. apply bind_more_fuel. intros _ w'. apply IH.
Qed.

Lemma expand_or_call_more_fuel recurse1 recurse2 ct lt xml name cd jd eps w :
  (forall ct' xml' b td' jd' w',
      fst (recurse1 ct' xml' b td' jd' w') <> OutOfFuel ->
      recurse2 ct' xml' b td' jd' w' = recurse1 ct' xml' b td' jd' w') ->
  fst (expand_or_call recurse1 ct lt xml name cd jd eps w) <> OutOfFuel ->
  expand_or_call recurse2 ct lt xml name cd jd eps w
  = expand_or_call recurse1 ct lt xml name cd jd eps w.
Proof.
  intros Hrec. unfold expand_or_call.
  apply bind_more_fuel. intros component w1.
  destruct (truthy component); [|reflexivity].
  apply bind_more_fuel. intros _ w2.
  apply bind_more_fuel. intros body w3.
  apply bind_more_fuel. intros items w4.
  apply for_each_more_fuel. intros b w5. apply Hrec.
Qed.

Lemma dispatch_more_fuel env fuel ct xml component td jd w :
  fst (dispatch env fuel ct xml component td jd w) <> OutOfFuel ->
  dispatch env (S fuel) ct xml component td jd w
  = dispatch env fuel ct xml component td jd w.
Proof.
  revert ct xml component td jd w.
  induction fuel as [|fuel IH]; intros ct xml component td jd w H.
  - cbn in H. congruence.
  - cbn [dispatch] in *. unfold dispatch_body, resolve in *.
    revert H. apply bind_more_fuel. intros w0 w1.
    destruct (modules_by_component_type (self w0) !! ct); [|reflexivity].
    apply bind_more_fuel. intros list_type w2.
    apply bind_more_fuel. intros name_data w3.
    apply bind_more_fuel. intros table w4.
    apply expand_or_call_more_fuel. intros ct' xml' b td' jd' w5. apply IH.
Qed.

Lemma dispatch_enough_fuel env fuel more ct xml component td jd w :
  fst (dispatch env fuel ct xml component td jd w) <> OutOfFuel ->
  dispatch env (more + fuel) ct xml component td jd w
  = dispatch env fuel ct xml component td jd w.
Proof.
  intros H. induction more as [|more IH]; [reflexivity|].
  cbn [Nat.add]. rewrite dispatch_more_fuel; rewrite IH; auto.
Qed.

(** ** Macros and generators *)

(** The loop over the body of a macro dispatches its items in order. *)
Lemma for_each_dispatched env fuel ct xml td jd items w :
  dispatched_in_order env fuel ct xml td jd items w
    (for_each (fun b => dispatch env fuel ct xml b td jd) items w).
Proof.
  revert w. induction items as [|b rest IH]; intros w.
  - constructor.
  - cbn [for_each]. unfold bind.
    destruct (dispatch env fuel ct xml b td jd w) as [[[]| | |] w'] eqn:Hb.
    + eapply dispatched_next; [exact Hb | apply IH].
    + eapply dispatched_stop; [exact Hb | discriminate].
    + eapply dispatched_stop; [exact Hb | discriminate].
    + eapply dispatched_stop; [exact Hb | discriminate].
Qed.

Lemma warn_masked_returns ct name eps w : fst (warn_masked ct name eps w) = Val tt.
Proof.
  destruct name as [| | |s| | |]; try reflexivity.
  rewrite warn_masked_eq.
  by destruct (bool_decide (is_Some (eps !! s)) &&
               negb (bool_decide (s ∈ masked_warned (self w)))).
Qed.

(** C1. When the name of the component is that of a macro of the component
    type, [dispatch] dispatches every item that the body of the macro lists
    under the list type: one after the other in the order of the body, each
    for the same component type and parent, with the data of the component
    as template data and with the job data it was given, each in the world
    that the one before it left. It ends as the first item that does not
    return ends, or returns after the last. The only thing it does before
    the first item is the warning of a masked entry point. *)
Theorem macro_expands_in_order :
  forall env fuel ct xml component td jd w lt s cd eps w3 macro body items,
    resolves env ct component td jd w lt (VStr s) cd eps w3 ->
    macro_of (self w) ct s = Some macro ->
    truthy macro = true ->
    getitem macro lt = inr body ->
    iterate body = inr items ->
    dispatched_in_order env fuel ct xml cd jd items
      (snd (warn_masked ct (VStr s) eps w3))
      (dispatch env (S fuel) ct xml component td jd w).
Proof.
  intros env fuel ct xml component td jd w lt s cd eps w3 macro body items
    Hres Hmacro Htruthy Hbody Hitems.
  rewrite (dispatch_resolved _ _ _ _ _ _ _ _ _ _ _ _ _ Hres).
  destruct (resolves_quiet _ _ _ _ _ _ _ _ _ _ _ Hres) as [Hself _].
  rewrite (expand_macro _ _ _ _ _ _ _ _ _ macro body items);
    [| by rewrite Hself | assumption..].
  unfold bind at 1. pose proof (warn_masked_returns ct (VStr s) eps w3) as Hwarn.
  destruct (warn_masked ct (VStr s) eps w3) as [o w3'].
  cbn [fst snd] in Hwarn |- *. subst o. apply for_each_dispatched.
Qed.

(** When the name is that of a macro and of an entry point, [dispatch]
    expands the macro; it warns, and records the name, unless the registry
    has the name recorded. *)
Lemma masking_macro_expanded env fuel ct xml component td jd w lt s cd eps w3 macro func :
  resolves env ct component td jd w lt (VStr s) cd eps w3 ->
  macro_of (self w) ct s = Some macro ->
  truthy macro = true ->
  eps !! s = Some func ->
  dispatch env (S fuel) ct xml component td jd w =
  (let* body := lift (getitem macro lt) in
   let* items := lift (iterate body) in
   for_each (fun b => dispatch env fuel ct xml b cd jd) items)%py
    (if bool_decide (s ∈ masked_warned (self w)) then w3
     else appended [Log RegistryLogger WARNING mask_warning [ArgStr s; ArgStr ct]]
            (with_masked_warned (fun m => {[s]} ∪ m) w3)).
Proof.
  intros Hres Hmacro Htruthy Heps.
  rewrite (dispatch_resolved _ _ _ _ _ _ _ _ _ _ _ _ _ Hres).
  destruct (resolves_quiet _ _ _ _ _ _ _ _ _ _ _ Hres) as [Hself _].
  unfold expand_or_call, bind at 1.
  rewrite (macro_lookup_eq ct s w3 macro) by (by rewrite Hself).
  rewrite Htruthy. unfold bind at 1. rewrite warn_masked_eq, Heps, Hself.
  rewrite bool_decide_eq_true_2 by eauto. cbn [andb].
  destruct (bool_decide (s ∈ masked_warned (self w))); reflexivity.
Qed.

(** C2, as amended. A name that is a macro and an entry point is expanded
    as the macro by every dispatch. Over any run of calls of [dispatch] on
    one registry, the warning of the masked entry point is logged at most
    once for a name, and not at all for a name that the registry has
    recorded as warned. *)
Theorem macro_masks_entry_point_once_per_registry :
  (forall env fuel ct xml component td jd w lt s cd eps w3 macro func,
      resolves env ct component td jd w lt (VStr s) cd eps w3 ->
      macro_of (self w) ct s = Some macro ->
      truthy macro = true ->
      eps !! s = Some func ->
      dispatch env (S fuel) ct xml component td jd w =
      (let* body := lift (getitem macro lt) in
       let* items := lift (iterate body) in
       for_each (fun b => dispatch env fuel ct xml b cd jd) items)%py
        (if bool_decide (s ∈ masked_warned (self w)) then w3
         else appended [Log RegistryLogger WARNING mask_warning [ArgStr s; ArgStr ct]]
                (with_masked_warned (fun m => {[s]} ∪ m) w3))) /\
  (forall env calls w,
      exists new,
        trace (proc (run_calls env calls w)) = trace (proc w) ++ new /\
        forall s,
          mask_warnings s new <= 1 /\
          (s ∈ masked_warned (self w) -> mask_warnings s new = 0)).
Proof.
  split.
  - intros. by eapply masking_macro_expanded.
  - intros env calls w.
    destruct (run_calls_warns_once env calls w) as [Hsub (new & Htrace & Hcount)].
    exists new. split; [exact Htrace|]. intros s. rewrite Hcount. unfold newly_warned.
    case_bool_decide as Hnew; split; try lia. intros Hin. exfalso. set_solver.
Qed.

(** C4, as amended. When the name is not that of a macro and the table has
    an entry point of that name, [dispatch] calls it, once, on the registry,
    the parent node and the data of the component, and does nothing else.
    The job data is passed as the keyword argument [job_data] exactly when
    [job_data] is among the [args] that [getargspec] gives for the function,
    the names of its positional parameters; a function whose signature
    declares no parameter [job_data] is called with no keyword argument. *)
Theorem generator_called_with_accepted_kwargs :
  forall env fuel ct xml component td jd w lt s cd eps w3 macro func,
    resolves env ct component td jd w lt (VStr s) cd eps w3 ->
    macro_of (self w) ct s = Some macro ->
    truthy macro = false ->
    eps !! s = Some func ->
    exists kwargs,
      snd (dispatch env (S fuel) ct xml component td jd w)
      = appended [Call func xml cd kwargs] w3 /\
      kwargs = (if bool_decide ("job_data" ∈ func_args func) then [("job_data", jd)] else []) /\
      (dict_get "job_data" kwargs = Some jd <-> "job_data" ∈ func_args func) /\
      (~ declares_parameter func "job_data" -> kwargs = []).
Proof.
  intros env fuel ct xml component td jd w lt s cd eps w3 macro func
    Hres Hmacro Hfalsy Heps.
  rewrite (dispatch_resolved _ _ _ _ _ _ _ _ _ _ _ _ _ Hres).
  destruct (resolves_quiet _ _ _ _ _ _ _ _ _ _ _ Hres) as [Hself _].
  rewrite (call_entry_point _ _ _ _ _ _ _ _ _ macro) by (by rewrite ?Hself).
  rewrite Heps, filter_kwargs_job_data. eexists. split; [reflexivity|].
  split; [reflexivity|]. split.
  - destruct (bool_decide_reflect ("job_data" ∈ func_args func)) as [Hin|Hnin].
    + split; [done|]. intros _. reflexivity.
    + split; [discriminate | contradiction].
  - intros Hno. rewrite bool_decide_eq_false_2; [reflexivity|].
    intros Hin. apply Hno. by left.
Qed.

(** C10. A macro that is falsy is no macro: [dispatch] does not warn and
    does not expand; it calls the entry point of that name when there is
    one, and raises the error of an unknown entry point or macro when there
    is none. Nothing up to there has touched the registry or warned. *)
Theorem falsy_macro_is_no_macro :
  forall env fuel ct xml component td jd w lt s cd eps w3 data macros macro,
    resolves env ct component td jd w lt (VStr s) cd eps w3 ->
    parser_data (self w) = Some data ->
    data !! ct = Some macros ->
    macros !! s = Some macro ->
    truthy macro = false ->
    dispatch env (S fuel) ct xml component td jd w =
    match eps !! s with
    | Some func =>
        (Val tt, appended [Call func xml cd (_filter_kwargs func [("job_data", jd)])] w3)
    | None =>
        (Raise (JenkinsJobsException
                  "Unknown entry point or macro '{0}' for component type: '{1}'."
                  [VStr s; VStr ct]), w3)
    end /\
    quiet_step w w3.
Proof.
  intros env fuel ct xml component td jd w lt s cd eps w3 data macros macro
    Hres Hdata Hct Hs Hfalsy.
  pose proof (resolves_quiet _ _ _ _ _ _ _ _ _ _ _ Hres) as Hquiet.
  split; [|exact Hquiet]. destruct Hquiet as [Hself _].
  rewrite (dispatch_resolved _ _ _ _ _ _ _ _ _ _ _ _ _ Hres).
  apply call_entry_point with (macro := macro); [|exact Hfalsy].
  unfold macro_of. rewrite Hself, Hdata, Hct. cbn. rewrite Hs. reflexivity.
Qed.

(** C9. A mapping of more than one pair is no error. [dispatch] takes its
    first pair: the key is the name of the component, and the value is its
    data, as it is when there is no template data and the value is no
    template, and interpolated otherwise. What [dispatch] does is what it
    does for the mapping of that pair alone: the other pairs are not read. *)
Theorem only_first_pair_is_dispatched :
  forall env fuel ct xml name data rest td jd w,
    dispatch env fuel ct xml (VDict ((name, data) :: rest)) td jd w =
    dispatch env fuel ct xml (VDict [(name, data)]) td jd w /\
    (truthy td || is_Jinja2Loader data = false ->
     component_name_and_data env (VDict ((name, data) :: rest)) td jd w
     = (Val (VStr name, data), w)) /\
    (forall lt n cd eps w3,
        resolves env ct (VDict ((name, data) :: rest)) td jd w lt n cd eps w3 ->
        n = VStr name /\
        if truthy td || is_Jinja2Loader data
        then exists paramdict,
               deep_format env data paramdict (allow_empty_variables (jjb_config (self w)))
               = inr cd
        else cd = data).
Proof.
  intros env fuel ct xml name data rest td jd w. split; [|split].
  - destruct fuel; reflexivity.
  - intros Hplain. unfold component_name_and_data. rewrite Hplain. reflexivity.
  - intros lt n cd eps w3 (ep & w1 & w2 & _ & H1 & Hcd & _).
    pose proof (quiet_get_component_list_type env ep w) as [Hself _].
    rewrite H1 in Hself. cbn [snd] in Hself. rewrite <- Hself.
    unfold component_name_and_data in Hcd.
    destruct (truthy td || is_Jinja2Loader data).
    + unfold bind, update, get in Hcd.
      destruct (dict_update [] td) as [p1| |]; try discriminate.
      cbn [ret] in Hcd.
      destruct (dict_update p1 (if truthy jd then jd else VDict [])) as [paramdict| |];
        try discriminate.
      cbn [ret] in Hcd. rewrite emit_eq in Hcd.
      destruct (deep_format env data paramdict (allow_empty_variables (jjb_config (self w1))))
        as [e|formatted] eqn:Hformat.
      * unfold log in Hcd. rewrite emit_eq in Hcd. discriminate.
      * injection Hcd as <- <- _. split; [reflexivity|]. by exists paramdict.
    + injection Hcd as <- <- _. split; reflexivity.
Qed.

(** ** Interpolation of the data of a component *)

Lemma dict_get_absent k (d : dict) :
  existsb (String.eqb k) (map fst d) = false -> dict_get k d = None.
Proof.
  induction d as [|[k' v] d IH]; cbn; [reflexivity|].
  intros H. apply orb_false_elim in H as [-> H]. auto.
Qed.

(** After [d.update(other)], a key of [other] has the value [other] gives
    it, and another key has the value it had. *)
Lemma dict_get_merge (d other : dict) k :
  unique_keys other = true ->
  dict_get k (dict_merge d other) =
  match dict_get k other with
  | Some v => Some v
  | None => dict_get k d
  end.
Proof.
  unfold dict_merge. revert d.
  induction other as [|[k0 v0] other IH]; intros d Hu; [reflexivity|].
  cbn [unique_keys] in Hu. apply andb_prop in Hu as [Hk0 Hu].
  apply negb_true_iff in Hk0.
  cbn [fold_left fst snd dict_get]. rewrite (IH _ Hu).
  destruct (String.eqb_spec k k0) as [->|Hne].
  - rewrite (dict_get_absent _ _ Hk0). apply dict_get_set_eq.
  - destruct (dict_get k other); [reflexivity|].
    apply dict_get_set_ne. congruence.
Qed.

(** What [component_name_and_data] does for a mapping, when the template
    data and the job data are mappings. *)
Lemma component_name_and_data_mapping env name cd rest (td : dict) (jd : option dict) w :
  let paramdict := dict_merge (dict_merge [] td) (default [] jd) in
  let allow_empty := allow_empty_variables (jjb_config (self w)) in
  component_name_and_data env (VDict ((name, cd) :: rest)) (VDict td) (job_value jd) w =
  if truthy (VDict td) || is_Jinja2Loader cd then
    match deep_format env cd paramdict allow_empty with
    | inr formatted =>
        (Val (VStr name, formatted), appended [DeepFormat cd paramdict allow_empty] w)
    | inl e =>
        (Raise e,
         appended [DeepFormat cd paramdict allow_empty;
                   Log RootLogger ERROR "Failure formatting component ('%s') data '%s'"
                     [ArgStr name; ArgVal cd]] w)
    end
  else (Val (VStr name, cd), w).
Proof.
  intros paramdict allow_empty. unfold component_name_and_data.
  destruct (truthy (VDict td) || is_Jinja2Loader cd); [|reflexivity].
  assert (Hjob : dict_update (dict_merge [] td)
                   (if truthy (job_value jd) then job_value jd else VDict [])
                 = Updated paramdict).
  { destruct jd as [[|kv d]|]; reflexivity. }
  unfold bind at 1. cbn [update dict_update ret]. unfold bind at 1, update. rewrite Hjob.
  unfold ret, bind, get. rewrite !emit_eq. fold allow_empty.
  change (allow_empty_variables (jjb_config (self w))) with allow_empty.
  destruct (deep_format env cd paramdict allow_empty); [|reflexivity].
  unfold log. rewrite emit_eq, appended_app. reflexivity.
Qed.

Lemma dispatch_component env fuel ct xml component td jd w ep lt w1 :
  modules_by_component_type (self w) !! ct = Some ep ->
  get_component_list_type env ep w = (Val lt, w1) ->
  dispatch env (S fuel) ct xml component td jd w =
  (let* name_data := component_name_and_data env component td jd in
   resolve env (dispatch env fuel) ct lt ep xml (fst name_data) (snd name_data) jd)%py w1.
Proof.
  intros Hct Hlt. cbn [dispatch]. unfold dispatch_body, bind at 1, get.
  rewrite Hct. unfold bind at 1. rewrite Hlt. reflexivity.
Qed.

Lemma get_component_list_type_self env ep w lt w1 :
  get_component_list_type env ep w = (Val lt, w1) -> self w1 = self w.
Proof.
  intros H. pose proof (quiet_get_component_list_type env ep w) as [Hs _].
  rewrite H in Hs. exact Hs.
Qed.

(** C5. For a component that is a mapping, with mappings as template data
    and job data: the data of the component is interpolated exactly when the
    template data is not empty or the data is a Jinja2 template; the
    parameters are the template data updated with the job data, so that a key
    of the job data has the value the job data gives it, and any other key
    the value the template data gives it. *)
Theorem interpolation_when_and_with_what :
  forall env fuel ct xml name cd rest (td : dict) (jd : option dict) w ep lt w1,
    modules_by_component_type (self w) !! ct = Some ep ->
    get_component_list_type env ep w = (Val lt, w1) ->
    unique_keys td = true ->
    unique_keys (default [] jd) = true ->
    let paramdict := dict_merge (dict_merge [] td) (default [] jd) in
    let allow_empty := allow_empty_variables (jjb_config (self w)) in
    dispatch env (S fuel) ct xml (VDict ((name, cd) :: rest)) (VDict td) (job_value jd) w =
    (if truthy (VDict td) || is_Jinja2Loader cd then
       match deep_format env cd paramdict allow_empty with
       | inr formatted =>
           resolve env (dispatch env fuel) ct lt ep xml (VStr name) formatted (job_value jd)
             (appended [DeepFormat cd paramdict allow_empty] w1)
       | inl e =>
           (Raise e,
            appended [DeepFormat cd paramdict allow_empty;
                      Log RootLogger ERROR "Failure formatting component ('%s') data '%s'"
                        [ArgStr name; ArgVal cd]] w1)
       end
     else
       resolve env (dispatch env fuel) ct lt ep xml (VStr name) cd (job_value jd) w1) /\
    forall k,
      dict_get k paramdict =
      match dict_get k (default [] jd) with
      | Some v => Some v
      | None => dict_get k td
      end.
Proof.
  intros env fuel ct xml name cd rest td jd w ep lt w1 Hct Hlt Htd Hjd paramdict allow_empty.
  split.
  - rewrite (dispatch_component _ _ _ _ _ _ _ _ _ _ _ Hct Hlt).
    unfold bind. rewrite component_name_and_data_mapping.
    rewrite (get_component_list_type_self _ _ _ _ _ Hlt).
    fold paramdict. fold allow_empty.
    destruct (truthy (VDict td) || is_Jinja2Loader cd); [|reflexivity].
    destruct (deep_format env cd paramdict allow_empty); reflexivity.
  - intros k. unfold paramdict. rewrite (dict_get_merge _ _ _ Hjd).
    destruct (dict_get k (default [] jd)); [reflexivity|].
    rewrite (dict_get_merge _ _ _ Htd). destruct (dict_get k td); reflexivity.
Qed.

(** What [component_name_and_data] does when the formatter fails. *)
Lemma component_name_and_data_fails env name cd rest td jd w p1 paramdict e :
  truthy td || is_Jinja2Loader cd = true ->
  dict_update [] td = Updated p1 ->
  dict_update p1 (if truthy jd then jd else VDict []) = Updated paramdict ->
  deep_format env cd paramdict (allow_empty_variables (jjb_config (self w))) = inl e ->
  component_name_and_data env (VDict ((name, cd) :: rest)) td jd w =
  (Raise e,
   appended [DeepFormat cd paramdict (allow_empty_variables (jjb_config (self w)));
             Log RootLogger ERROR "Failure formatting component ('%s') data '%s'"
               [ArgStr name; ArgVal cd]] w).
Proof.
  intros Hcond Htd Hjd Hfmt. unfold component_name_and_data. rewrite Hcond.
  unfold bind at 1, update. rewrite Htd. unfold ret, bind at 1. rewrite Hjd.
  unfold bind, get. rewrite emit_eq. cbn [self appended with_trace].
  rewrite Hfmt. unfold log. rewrite emit_eq, appended_app. reflexivity.
Qed.

(** C6. When the formatter raises, [dispatch] logs the name of the
    component and its data as they were, and raises the exception of the
    formatter itself; it does nothing else. *)
Theorem interpolation_failure_reraised :
  forall env fuel ct xml name cd rest td jd w ep lt w1 p1 paramdict e,
    modules_by_component_type (self w) !! ct = Some ep ->
    get_component_list_type env ep w = (Val lt, w1) ->
    truthy td || is_Jinja2Loader cd = true ->
    dict_update [] td = Updated p1 ->
    dict_update p1 (if truthy jd then jd else VDict []) = Updated paramdict ->
    deep_format env cd paramdict (allow_empty_variables (jjb_config (self w))) = inl e ->
    dispatch env (S fuel) ct xml (VDict ((name, cd) :: rest)) td jd w =
    (Raise e,
     appended [DeepFormat cd paramdict (allow_empty_variables (jjb_config (self w)));
               Log RootLogger ERROR "Failure formatting component ('%s') data '%s'"
                 [ArgStr name; ArgVal cd]] w1).
Proof.
  intros env fuel ct xml name cd rest td jd w ep lt w1 p1 paramdict e
    Hct Hlt Hcond Htd Hjd Hfmt.
  rewrite (dispatch_component _ _ _ _ _ _ _ _ _ _ _ Hct Hlt).
  pose proof (get_component_list_type_self _ _ _ _ _ Hlt) as Hself.
  unfold bind.
  rewrite (component_name_and_data_fails env name cd rest td jd w1 p1 paramdict e);
    rewrite ?Hself; auto.
Qed.

(** ** The table of entry points *)

Lemma auto_entry_points_value ep funcs w :
  fst (auto_entry_points ep funcs w) = Val (declared_entry_points ep funcs).
Proof.
  revert w. induction funcs as [|f funcs IH]; intros w; [reflexivity|].
  cbn [auto_entry_points declared_entry_points flat_map].
  unfold bind at 1.
  assert (Hf : exists w1,
             auto_entry_point ep f w =
             (Val match read_docstring f with
                  | Declares declared =>
                      [({| ep_name := declared;
                           ep_module_name := ep_module_name ep;
                           ep_attrs := [func_name f] |}, f)]
                  | _ => []
                  end, w1)).
  { unfold auto_entry_point. destruct (read_docstring f); eexists; reflexivity. }
  destruct Hf as [w1 ->]. unfold bind at 1.
  specialize (IH w1). destruct (auto_entry_points ep funcs w1) as [o w2].
  cbn [fst] in IH. subst o. reflexivity.
Qed.

Lemma fill_table_taken ct name l eps w x :
  x ∈ names l -> is_Some (eps !! x) ->
  fill_table ct name l eps w = (Raise (duplicate_error ct name), w).
Proof.
  revert eps. induction l as [|[e f] l IH]; intros eps Hin Hsome.
  - by apply elem_of_nil in Hin.
  - cbn [fill_table]. destruct (eps !! ep_name e) eqn:He; [reflexivity|].
    apply IH.
    + cbn in Hin. apply elem_of_cons in Hin as [->|Hin]; [|exact Hin].
      rewrite He in Hsome. by destruct Hsome.
    + destruct (decide (ep_name e = x)) as [->|Hne].
      * rewrite lookup_insert_eq. eauto.
      * by rewrite lookup_insert_ne.
Qed.

Lemma fill_table_twice ct name l1 l2 eps w x :
  x ∈ names l1 -> x ∈ names l2 ->
  fill_table ct name (l1 ++ l2) eps w = (Raise (duplicate_error ct name), w).
Proof.
  revert eps. induction l1 as [|[e f] l1 IH]; intros eps H1 H2.
  - by apply elem_of_nil in H1.
  - cbn [app fill_table]. destruct (eps !! ep_name e) eqn:He; [reflexivity|].
    cbn in H1. apply elem_of_cons in H1 as [->|H1].
    + apply fill_table_taken with (x := ep_name e).
      * unfold names. rewrite map_app. apply elem_of_app. by right.
      * rewrite lookup_insert_eq. eauto.
    + by apply IH.
Qed.

Lemma keeps_caches_log lg lvl fmt args : keeps_caches (log lg lvl fmt args).
Proof. apply keeps_caches_emit. Qed.

(** A name that a docstring and a registered entry point both declare stops
    the construction of the table, and nothing is cached. *)
Lemma entry_points_duplicate env ct lt ep name w dup :
  _entry_points_cache (proc w) !! lt = None ->
  dup ∈ names (declared_entry_points ep (module_functions env (ep_module_name ep))) ->
  dup ∈ names (iter_entry_points env ("jenkins_jobs." +:+ lt)) ->
  exists w',
    entry_points env ct lt ep name w = (Raise (duplicate_error ct name), w') /\
    quiet_step w w' /\ same_caches w w' /\
    exists new, trace (proc w') = trace (proc w) ++ caching_entry_points lt :: new.
Proof.
  intros Hcache Hauto Hext.
  pose proof (quiet_entry_points env ct lt ep name w) as Hquiet.
  unfold entry_points in *. unfold bind at 1 in Hquiet. unfold bind at 1.
  unfold get in *. rewrite Hcache in *.
  unfold bind at 1 in Hquiet. unfold bind at 1. unfold log in *. rewrite emit_eq in *.
  set (w0 := appended _ w) in *.
  unfold bind at 1 in Hquiet. unfold bind at 1.
  pose proof (auto_entry_points_value ep (module_functions env (ep_module_name ep)) w0) as Hval.
  pose proof (keeps_caches_auto_entry_points ep (module_functions env (ep_module_name ep)) w0)
    as Hkeep.
  pose proof (quiet_auto_entry_points ep (module_functions env (ep_module_name ep)) w0)
    as [_ (new & Hnew & _)].
  destruct (auto_entry_points ep (module_functions env (ep_module_name ep)) w0) as [o w1].
  cbn [fst snd] in Hval, Hkeep, Hnew. subst o.
  unfold bind at 1 in Hquiet. unfold bind at 1.
  rewrite (fill_table_twice ct name _ _ ∅ w1 dup Hauto Hext) in *.
  exists w1. split; [reflexivity|]. split; [exact Hquiet|]. split.
  - etrans; [|exact Hkeep]. split; reflexivity.
  - exists new. rewrite Hnew. subst w0. cbn. by rewrite <- app_assoc.
Qed.

Lemma get_component_list_type_cached env ep w lt :
  _component_type_cache (proc w) !! ep = Some lt ->
  get_component_list_type env ep w = (Val lt, w).
Proof.
  intros H. unfold get_component_list_type, bind, get. rewrite H. reflexivity.
Qed.

Lemma get_component_list_type_caches env ep w lt w1 :
  get_component_list_type env ep w = (Val lt, w1) ->
  _component_type_cache (proc w1) !! ep = Some lt /\
  _entry_points_cache (proc w1) = _entry_points_cache (proc w).
Proof.
  unfold get_component_list_type, bind, get.
  destruct (_component_type_cache (proc w) !! ep) eqn:E.
  - intros [= <- <-]. auto.
  - unfold log. rewrite emit_eq. cbn. intros [= <- <-]. cbn.
    split; [apply lookup_insert_eq | reflexivity].
Qed.

(** C3. When the table of a list type is not in the cache, and a docstring
    of the module and a registered entry point declare the same name,
    [dispatch] raises the error of the registry. The registry and the cache
    of tables are as before, so the next dispatch for that component type
    starts to build the table again, and raises the same error. *)
Theorem duplicate_entry_point_is_fatal_each_time :
  forall env fuel ct xml component td jd w ep lt w1 name cd w2 dup,
    modules_by_component_type (self w) !! ct = Some ep ->
    get_component_list_type env ep w = (Val lt, w1) ->
    component_name_and_data env component td jd w1 = (Val (name, cd), w2) ->
    _entry_points_cache (proc w) !! lt = None ->
    dup ∈ names (declared_entry_points ep (module_functions env (ep_module_name ep))) ->
    dup ∈ names (iter_entry_points env ("jenkins_jobs." +:+ lt)) ->
    exists w',
      dispatch env (S fuel) ct xml component td jd w = (Raise (duplicate_error ct name), w') /\
      self w' = self w /\
      _entry_points_cache (proc w') = _entry_points_cache (proc w) /\
      forall fuel' xml' component' td' jd' name' cd' w2',
        component_name_and_data env component' td' jd' w' = (Val (name', cd'), w2') ->
        exists w'' new,
          dispatch env (S fuel') ct xml' component' td' jd' w'
            = (Raise (duplicate_error ct name'), w'') /\
          _entry_points_cache (proc w'') = _entry_points_cache (proc w) /\
          trace (proc w'') = trace (proc w2') ++ caching_entry_points lt :: new.
Proof.
  intros env fuel ct xml component td jd w ep lt w1 name cd w2 dup
    Hct Hlt Hcd Hcache Hauto Hext.
  destruct (get_component_list_type_caches _ _ _ _ _ Hlt) as [Htype1 Heps1].
  pose proof (get_component_list_type_self _ _ _ _ _ Hlt) as Hself1.
  pose proof (keeps_caches_component_name_and_data env component td jd w1) as [Heps2 Htype2].
  pose proof (quiet_component_name_and_data env component td jd w1) as [Hself2 _].
  rewrite Hcd in Heps2, Htype2, Hself2. cbn [snd] in Heps2, Htype2, Hself2.
  destruct (entry_points_duplicate env ct lt ep name w2 dup)
    as (w' & Hdup & [Hself3 _] & [Heps3 Htype3] & _);
    [congruence | exact Hauto | exact Hext |].
  exists w'. split; [|split; [congruence|split; [congruence|]]].
  - rewrite (dispatch_component _ _ _ _ _ _ _ _ _ _ _ Hct Hlt).
    unfold bind. rewrite Hcd. unfold resolve, bind. cbn [fst snd]. rewrite Hdup. reflexivity.
  - intros fuel' xml' component' td' jd' name' cd' w2' Hcd'.
    assert (Hct' : modules_by_component_type (self w') !! ct = Some ep) by congruence.
    assert (Hlt' : get_component_list_type env ep w' = (Val lt, w')).
    { apply get_component_list_type_cached. congruence. }
    pose proof (keeps_caches_component_name_and_data env component' td' jd' w') as [Heps4 _].
    rewrite Hcd' in Heps4. cbn [snd] in Heps4.
    destruct (entry_points_duplicate env ct lt ep name' w2' dup)
      as (w'' & Hdup' & _ & [Heps5 _] & new & Hnew);
      [congruence | exact Hauto | exact Hext |].
    exists w'', new. split; [|split; [congruence | exact Hnew]].
    rewrite (dispatch_component _ _ _ _ _ _ _ _ _ _ _ Hct' Hlt').
    unfold bind. rewrite Hcd'. unfold resolve, bind. cbn [fst snd]. rewrite Hdup'. reflexivity.
Qed.

(** ** The examples *)

Example demo_registry :
  outcome_bind (__init__ Demo.env Demo.config None)
    (fun r => Val (set_parser_data Demo.macros r)) = Val Demo.registry.
Proof. reflexivity. Qed.

(** The first blocks of [dispatch], run one after the other. *)
Lemma resolves_run env ct component td jd w ep lt name cd eps :
  modules_by_component_type (self w) !! ct = Some ep ->
  let r1 := get_component_list_type env ep w in
  let r2 := component_name_and_data env component td jd (snd r1) in
  let r3 := entry_points env ct lt ep name (snd r2) in
  fst r1 = Val lt ->
  fst r2 = Val (name, cd) ->
  fst r3 = Val eps ->
  resolves env ct component td jd w lt name cd eps (snd r3).
Proof.
  intros Hct r1 r2 r3 H1 H2 H3. exists ep, (snd r1), (snd r2).
  split; [exact Hct|]. rewrite <- H1, <- H2, <- H3.
  repeat split; apply surjective_pairing.
Qed.

Lemma demo_resolves component jd s cd :
  fst (component_name_and_data Demo.env component (VDict []) jd demo_world1)
    = Val (VStr s, cd) ->
  snd (component_name_and_data Demo.env component (VDict []) jd demo_world1) = demo_world1 ->
  resolves Demo.env "builder" component (VDict []) jd Demo.world0
    "builders" (VStr s) cd demo_table (demo_world3 (VStr s)).
Proof.
  intros Hcd Hw.
  pose proof (resolves_run Demo.env "builder" component (VDict []) jd Demo.world0
                Demo.builders_ep "builders" (VStr s) cd demo_table eq_refl eq_refl Hcd)
    as H.
  cbv zeta in H. fold demo_world1 in H. rewrite Hw in H. apply H.
  vm_compute. reflexivity.
Qed.

Lemma macro_expands_in_order_witness :
  dispatched_in_order Demo.env 2 "builder" 0 (VDict [("x", VInt 1)]) VNone
    [VDict [("shell", VStr "$x")]; VDict [("build", VDict [("job", VStr "$x")])]]
    (snd (warn_masked "builder" (VStr "two-steps") demo_table (demo_world3 (VStr "two-steps"))))
    (dispatch Demo.env 3 "builder" 0 (VDict [("two-steps", VDict [("x", VInt 1)])])
       (VDict []) VNone Demo.world0).
Proof.
  apply (macro_expands_in_order Demo.env 2 "builder" 0
           (VDict [("two-steps", VDict [("x", VInt 1)])]) (VDict []) VNone Demo.world0
           "builders" "two-steps" (VDict [("x", VInt 1)]) demo_table
           (demo_world3 (VStr "two-steps"))
           (VDict [("name", VStr "two-steps");
                   ("builders", VList [VDict [("shell", VStr "$x")];
                                       VDict [("build", VDict [("job", VStr "$x")])]])])
           (VList [VDict [("shell", VStr "$x")]; VDict [("build", VDict [("job", VStr "$x")])]])).
  - apply demo_resolves; reflexivity.
  - reflexivity.
  - reflexivity.
  - reflexivity.
  - reflexivity.
Defined.

(** The sub-builders of the macro get the data of the macro call as their
    template data, in the order of the body. *)
Example two_sub_builders_formatted_in_order :
  let w := snd (dispatch Demo.env 3 "builder" 0
                  (VDict [("two-steps", VDict [("x", VInt 1)])]) (VDict []) VNone Demo.world0) in
  omap (fun e => match e with
                 | DeepFormat data paramdict _ => Some (data, paramdict)
                 | _ => None
                 end) (trace (proc w)) =
  [(VStr "$x", [("x", VInt 1)]);
   (VDict [("job", VStr "$x")], [("x", VInt 1)]);
   (VStr "make", [("job", VInt 1)])].
Proof. vm_compute. reflexivity. Qed.

Lemma macro_masks_entry_point_once_witness :
  dispatch Demo.env 3 "builder" 0 (VStr "build") (VDict []) VNone Demo.world0 =
  (let* body := lift (getitem demo_build_macro "builders") in
   let* items := lift (iterate body) in
   for_each (fun b => dispatch Demo.env 2 "builder" 0 b (VDict []) VNone) items)%py
    (if bool_decide ("build" ∈ masked_warned (self Demo.world0)) then demo_world3 (VStr "build")
     else appended [Log RegistryLogger WARNING mask_warning [ArgStr "build"; ArgStr "builder"]]
            (with_masked_warned (fun m => {["build"]} ∪ m) (demo_world3 (VStr "build")))) /\
  (exists new,
      trace (proc (run_calls Demo.env [demo_build_call; demo_build_call] Demo.world0))
        = trace (proc Demo.world0) ++ new /\
      mask_warnings "build" new <= 1).
Proof.
  destruct macro_masks_entry_point_once_per_registry as [Hexpand Honce]. split.
  - apply (Hexpand Demo.env 2 "builder" 0 (VStr "build") (VDict []) VNone Demo.world0
             "builders" "build" (VDict []) demo_table (demo_world3 (VStr "build"))
             demo_build_macro Demo.build).
    + apply demo_resolves; reflexivity.
    + reflexivity.
    + reflexivity.
    + reflexivity.
  - destruct (Honce Demo.env [demo_build_call; demo_build_call] Demo.world0) as (new & Htrace & Hcount).
    exists new. split; [exact Htrace | apply Hcount].
Defined.

(** Two dispatches of the masking macro on one registry: one warning, and
    the generator of the macro body called twice, the masked one never. *)
Example build_twice_warns_once :
  let w := run_calls Demo.env [demo_build_call; demo_build_call] Demo.world0 in
  mask_warnings "build" (trace (proc w)) = 1 /\
  omap (fun e => match e with
                 | Call func _ data _ => Some (func, data)
                 | _ => None
                 end) (trace (proc w)) =
  [(Demo.shell, VStr "make"); (Demo.shell, VStr "make")].
Proof. vm_compute. split; reflexivity. Qed.

(** Over the life of a process the property fails: [masked_warned] belongs
    to the registry, not to the process. Two registries made in one process
    each log the warning for the same name. *)
Lemma warned_again_by_second_registry :
  exists r1 r2,
    __init__ Demo.env Demo.config None = Val r1 /\
    __init__ Demo.env Demo.config None = Val r2 /\
    let w1 := {| self := set_parser_data Demo.macros r1; proc := Demo.fresh_process |} in
    let w1' := run_call Demo.env w1 demo_build_call in
    let w2 := {| self := set_parser_data Demo.macros r2; proc := proc w1' |} in
    let w2' := run_call Demo.env w2 demo_build_call in
    mask_warnings "build" (trace (proc w1')) = 1 /\
    mask_warnings "build" (trace (proc w2')) = 2.
Proof.
  do 2 eexists. split; [reflexivity|]. split; [reflexivity|].
  vm_compute. split; reflexivity.
Qed.

Lemma duplicate_entry_point_witness :
  exists w',
    dispatch Demo.clashing 1 "builder" 0 (VStr "shell") (VDict []) VNone Demo.world0
      = (Raise (duplicate_error "builder" (VStr "shell")), w') /\
    self w' = Demo.registry /\
    _entry_points_cache (proc w') = ∅ /\
    exists w'',
      dispatch Demo.clashing 1 "builder" 0 (VStr "build") (VDict []) VNone w'
        = (Raise (duplicate_error "builder" (VStr "build")), w'').
Proof.
  assert (Hauto : "shell" ∈ names (declared_entry_points Demo.builders_ep
                                     (module_functions Demo.clashing
                                        (ep_module_name Demo.builders_ep)))).
  { vm_compute. repeat constructor. }
  assert (Hext : "shell" ∈ names (iter_entry_points Demo.clashing
                                    ("jenkins_jobs." +:+ "builders"))).
  { vm_compute. repeat constructor. }
  destruct (duplicate_entry_point_is_fatal_each_time Demo.clashing 0 "builder" 0
              (VStr "shell") (VDict []) VNone Demo.world0 Demo.builders_ep "builders"
              demo_world1 (VStr "shell") (VDict []) demo_world1 "shell"
              eq_refl eq_refl eq_refl eq_refl Hauto Hext)
    as (w' & Hraise & Hself & Hcache & Hagain).
  exists w'. split; [exact Hraise|]. split; [exact Hself|]. split; [exact Hcache|].
  destruct (Hagain 0 0 (VStr "build") (VDict []) VNone (VStr "build") (VDict []) w' eq_refl)
    as (w'' & new & Hraise' & _).
  exists w''. exact Hraise'.
Defined.

Lemma generator_called_witness :
  snd (dispatch Demo.env 1 "builder" 0 (VDict [("trigger-builds", VStr "downstream")])
         (VDict []) (VDict [("name", VStr "job")]) Demo.world0) =
  appended [Call Demo.trigger 0 (VStr "downstream")
              [("job_data", VDict [("name", VStr "job")])]]
    (demo_world3 (VStr "trigger-builds")) /\
  snd (dispatch Demo.env 1 "builder" 0 (VDict [("shell", VStr "make")])
         (VDict []) (VDict [("name", VStr "job")]) Demo.world0) =
  appended [Call Demo.shell 0 (VStr "make") []] (demo_world3 (VStr "shell")).
Proof.
  split.
  - destruct (generator_called_with_accepted_kwargs Demo.env 0 "builder" 0
                (VDict [("trigger-builds", VStr "downstream")]) (VDict [])
                (VDict [("name", VStr "job")]) Demo.world0 "builders" "trigger-builds"
                (VStr "downstream") demo_table (demo_world3 (VStr "trigger-builds"))
                VNone Demo.trigger) as (kwargs & Hrun & -> & _).
    + apply demo_resolves; reflexivity.
    + reflexivity.
    + reflexivity.
    + reflexivity.
    + exact Hrun.
  - destruct (generator_called_with_accepted_kwargs Demo.env 0 "builder" 0
                (VDict [("shell", VStr "make")]) (VDict [])
                (VDict [("name", VStr "job")]) Demo.world0 "builders" "shell"
                (VStr "make") demo_table (demo_world3 (VStr "shell"))
                (VDict []) Demo.shell) as (kwargs & Hrun & -> & _).
    + apply demo_resolves; reflexivity.
    + reflexivity.
    + reflexivity.
    + reflexivity.
    + exact Hrun.
Defined.

(** Without the amendment the property fails: the signature of the
    generator below declares the parameter [job_data], as a keyword-only
    parameter, and the generator is called without it, because the registry
    looks for the name among the positional parameters only. *)
Lemma keyword_only_job_data_not_passed :
  declares_parameter Demo.notify "job_data" /\
  ("job_data" ∉ func_args Demo.notify) /\
  snd (dispatch Demo.with_notify 1 "builder" 0 (VStr "notify") (VDict [])
         (VDict [("name", VStr "job")]) Demo.world0) =
  appended [Call Demo.notify 0 (VDict []) []]
    (snd (entry_points Demo.with_notify "builder" "builders" Demo.builders_ep
            (VStr "notify") demo_world1)).
Proof.
  split.
  { right. apply list_elem_of_here. }
  split.
  { cbn [func_args Demo.notify]. rewrite !not_elem_of_cons.
    repeat split; try discriminate. apply not_elem_of_nil. }
  vm_compute. reflexivity.
Qed.

Lemma only_first_pair_witness :
  dispatch Demo.env 1 "builder" 0
    (VDict [("shell", VStr "make"); ("trigger-builds", VStr "downstream")])
    (VDict []) VNone Demo.world0
  = (Val tt, appended [Call Demo.shell 0 (VStr "make") []] (demo_world3 (VStr "shell"))) /\
  component_name_and_data Demo.env
    (VDict [("shell", VStr "make"); ("trigger-builds", VStr "downstream")])
    (VDict []) VNone Demo.world0
  = (Val (VStr "shell", VStr "make"), Demo.world0).
Proof.
  destruct (only_first_pair_is_dispatched Demo.env 1 "builder" 0 "shell" (VStr "make")
              [("trigger-builds", VStr "downstream")] (VDict []) VNone Demo.world0)
    as (Hsame & Hplain & _).
  split.
  - rewrite Hsame. vm_compute. reflexivity.
  - apply Hplain. reflexivity.
Defined.

Lemma interpolation_witness :
  dispatch Demo.env 1 "builder" 0 (VDict [("trigger-builds", VStr "$x")])
    (VDict [("x", VInt 1); ("y", VInt 2)]) (VDict [("x", VInt 7)]) Demo.world0 =
  resolve Demo.env (dispatch Demo.env 0) "builder" "builders" Demo.builders_ep 0
    (VStr "trigger-builds") (VInt 7) (VDict [("x", VInt 7)])
    (appended [DeepFormat (VStr "$x") [("x", VInt 7); ("y", VInt 2)] false] demo_world1) /\
  dict_get "x" [("x", VInt 7); ("y", VInt 2)] = Some (VInt 7) /\
  dict_get "y" [("x", VInt 7); ("y", VInt 2)] = Some (VInt 2).
Proof.
  destruct (interpolation_when_and_with_what Demo.env 0 "builder" 0 "trigger-builds"
              (VStr "$x") [] [("x", VInt 1); ("y", VInt 2)] (Some [("x", VInt 7)])
              Demo.world0 Demo.builders_ep "builders" demo_world1
              eq_refl eq_refl eq_refl eq_refl)
    as [Hdispatch Hparams].
  split; [exact Hdispatch|]. split; [exact (Hparams "x") | exact (Hparams "y")].
Defined.

Lemma interpolation_failure_witness :
  dispatch Demo.env 1 "builder" 0 (VDict [("shell", VStr "$missing")])
    (VDict [("x", VInt 1)]) VNone Demo.world0 =
  (Raise (OtherException "JenkinsJobsException" (VStr "missing")),
   appended [DeepFormat (VStr "$missing") [("x", VInt 1)] false;
             Log RootLogger ERROR "Failure formatting component ('%s') data '%s'"
               [ArgStr "shell"; ArgVal (VStr "$missing")]] demo_world1).
Proof.
  exact (interpolation_failure_reraised Demo.env 0 "builder" 0 "shell" (VStr "$missing") []
           (VDict [("x", VInt 1)]) VNone Demo.world0 Demo.builders_ep "builders" demo_world1
           [("x", VInt 1)] [("x", VInt 1)]
           (OtherException "JenkinsJobsException" (VStr "missing"))
           eq_refl eq_refl eq_refl eq_refl eq_refl eq_refl).
Defined.

Lemma falsy_macro_witness :
  (dispatch Demo.env 1 "builder" 0 (VStr "shell") (VDict []) VNone Demo.world0 =
   (Val tt, appended [Call Demo.shell 0 (VDict []) []] (demo_world3 (VStr "shell"))) /\
   quiet_step Demo.world0 (demo_world3 (VStr "shell"))) /\
  (dispatch Demo.env 1 "builder" 0 (VStr "nothing") (VDict []) VNone Demo.world0 =
   (Raise (JenkinsJobsException
             "Unknown entry point or macro '{0}' for component type: '{1}'."
             [VStr "nothing"; VStr "builder"]), demo_world3 (VStr "nothing")) /\
   quiet_step Demo.world0 (demo_world3 (VStr "nothing"))).
Proof.
  assert (Hmacros : Demo.macros !! "builder" = Some (default ∅ (Demo.macros !! "builder")))
    by reflexivity.
  split.
  - apply (falsy_macro_is_no_macro Demo.env 0 "builder" 0 (VStr "shell") (VDict []) VNone
             Demo.world0 "builders" "shell" (VDict []) demo_table (demo_world3 (VStr "shell"))
             Demo.macros (default ∅ (Demo.macros !! "builder")) (VDict [])).
    + apply demo_resolves; reflexivity.
    + reflexivity.
    + exact Hmacros.
    + reflexivity.
    + reflexivity.
  - apply (falsy_macro_is_no_macro Demo.env 0 "builder" 0 (VStr "nothing") (VDict []) VNone
             Demo.world0 "builders" "nothing" (VDict []) demo_table
             (demo_world3 (VStr "nothing"))
             Demo.macros (default ∅ (Demo.macros !! "builder")) VNone).
    + apply demo_resolves; reflexivity.
    + reflexivity.
    + exact Hmacros.
    + reflexivity.
    + reflexivity.
Defined.

(** A component that is a bare name, and an unknown component type. *)
Example bare_name_component w :
  component_name_and_data Demo.env (VStr "run-tests") (VDict []) VNone w
  = (Val (VStr "run-tests", VDict []), w).
Proof. reflexivity. Qed.

Example unknown_component_type w :
  dispatch Demo.env 1 "frobnicator" 0 (VStr "run-tests") (VDict []) VNone
    {| self := Demo.registry; proc := w |}
  = (Raise (JenkinsJobsException "Unknown component type: '{0}'." [VStr "frobnicator"]),
     {| self := Demo.registry; proc := w |}).
Proof. reflexivity. Qed.

(** Template data that is not a mapping: [dict.update] raises before
    anything is interpolated. This is what a macro called with a string as
    its data does to the components of its body. *)
Example string_template_data_raises w :
  component_name_and_data Demo.env (VDict [("shell", VStr "make")]) (VStr "arg") VNone w
  = (Raise (ValueError "dictionary update sequence element has length other than 2"), w).
Proof. reflexivity. Qed.

(** * More properties *)

(** ** The handlers *)

Section HandlerFacts.
Context {method : Type}.
Implicit Types (h : gmap string (gmap string method)) (m : method).

Lemma registerHandler_lookup category name m h c :
  registerHandler category name m h !! c =
  if decide (category = c) then Some (<[name := m]> (default ∅ (h !! category)))
  else h !! c.
Proof.
  unfold registerHandler. destruct (decide (category = c)) as [->|Hne].
  - apply lookup_insert_eq.
  - rewrite lookup_insert_ne by done.
    destruct (decide (size (default ∅ (h !! category)) = 0)); [|reflexivity].
    by rewrite lookup_insert_ne.
Qed.

(** X1. A handler that was registered is the one that [getHandler] returns
    for its category and name, whatever was registered there before. *)
Theorem getHandler_registerHandler :
  forall (category name : string) m h,
    getHandler category name (registerHandler category name m h) = inr m.
Proof.
  intros category name m h. unfold getHandler.
  rewrite registerHandler_lookup, decide_True by done.
  by rewrite lookup_insert_eq.
Qed.

(** X2. A registration changes no other handler: for another pair of
    category and name, [getHandler] returns a handler after the registration
    exactly when it returned that handler before. *)
Theorem registerHandler_keeps_others :
  forall (category name c n : string) m h m',
    (c, n) <> (category, name) ->
    getHandler c n (registerHandler category name m h) = inr m' <->
    getHandler c n h = inr m'.
Proof.
  intros category name c n m h m' Hne. unfold getHandler.
  rewrite registerHandler_lookup.
  destruct (decide (category = c)) as [->|Hc]; [|reflexivity].
  assert (Hn : name <> n) by congruence.
  rewrite lookup_insert_ne by done.
  destruct (h !! c) as [d|]; cbn; [reflexivity|].
  rewrite lookup_empty. split; discriminate.
Qed.

Lemma register_all_cons c0 n0 m0 (regs : list (string * string * method)) h :
  register_all ((c0, n0, m0) :: regs) h = register_all regs (registerHandler c0 n0 m0 h).
Proof. reflexivity. Qed.

Lemma register_all_lookup_other (regs : list (string * string * method)) h c :
  c ∉ map (fun r => r.1.1) regs ->
  register_all regs h !! c = h !! c.
Proof.
  revert h. induction regs as [|[[c0 n0] m0] regs IH]; intros h Hc; [reflexivity|].
  cbn in Hc. apply not_elem_of_cons in Hc as [Hne Hc].
  rewrite register_all_cons.
  rewrite IH by done. rewrite registerHandler_lookup. by rewrite decide_False.
Qed.

Lemma register_all_lookup_name (regs : list (string * string * method)) h c n :
  (forall r, r ∈ regs -> (r.1.1, r.1.2) <> (c, n)) ->
  default ∅ (register_all regs h !! c) !! n = default ∅ (h !! c) !! n.
Proof.
  revert h. induction regs as [|[[c0 n0] m0] regs IH]; intros h Hr; [reflexivity|].
  rewrite register_all_cons.
  rewrite IH by (intros r Hin; apply Hr; by right).
  rewrite registerHandler_lookup.
  destruct (decide (c0 = c)) as [->|Hne]; [|reflexivity].
  cbn. apply lookup_insert_ne. intros ->. by apply (Hr (c, n, m0)); [left|].
Qed.

Lemma register_all_category (regs : list (string * string * method)) h c :
  c ∈ map (fun r => r.1.1) regs \/ is_Some (h !! c) ->
  is_Some (register_all regs h !! c).
Proof.
  revert h. induction regs as [|[[c0 n0] m0] regs IH]; intros h Hc.
  - destruct Hc as [Hc|Hc]; [by apply elem_of_nil in Hc | exact Hc].
  - rewrite register_all_cons.
    apply IH. rewrite registerHandler_lookup.
    destruct (decide (c0 = c)) as [->|Hne]; [right; eauto|].
    destruct Hc as [Hc|Hc]; [|by right].
    cbn in Hc. apply elem_of_cons in Hc as [->|Hc]; [done | by left].
Qed.

(** X3. Starting from no handlers, [getHandler] raises [KeyError] for a
    pair that was never registered: with the category as the missing key when
    nothing was registered in the category, and with the name otherwise. *)
Theorem getHandler_unregistered :
  forall (regs : list (string * string * method)) (c n : string),
    (forall r, r ∈ regs -> (r.1.1, r.1.2) <> (c, n)) ->
    getHandler c n (register_all regs ∅) =
    inl (KeyError (if bool_decide (c ∈ map (fun r => r.1.1) regs) then n else c)).
Proof.
  intros regs c n Hr. unfold getHandler.
  pose proof (register_all_lookup_name regs ∅ c n Hr) as Hn.
  rewrite lookup_empty in Hn. cbn in Hn. rewrite lookup_empty in Hn.
  case_bool_decide as Hc.
  - destruct (register_all_category regs ∅ c (or_introl Hc)) as [d Hd].
    rewrite Hd in Hn |- *. cbn in Hn. by rewrite Hn.
  - by rewrite register_all_lookup_other, lookup_empty.
Qed.

End HandlerFacts.

Lemma getHandler_unregistered_witness :
  getHandler "publisher" "scm" (register_all [("scm", "git", 1); ("scm", "svn", 2)] ∅)
    = inl (KeyError "publisher") /\
  getHandler "scm" "hg" (register_all [("scm", "git", 1); ("scm", "svn", 2)] ∅)
    = inl (KeyError "hg").
Proof.
  split.
  - apply (getHandler_unregistered [("scm", "git", 1); ("scm", "svn", 2)] "publisher" "scm").
    intros r Hr. apply elem_of_cons in Hr as [->|Hr]; [discriminate|].
    apply elem_of_cons in Hr as [->|Hr]; [discriminate|]. by apply elem_of_nil in Hr.
  - apply (getHandler_unregistered [("scm", "git", 1); ("scm", "svn", 2)] "scm" "hg").
    intros r Hr. apply elem_of_cons in Hr as [->|Hr]; [discriminate|].
    apply elem_of_cons in Hr as [->|Hr]; [discriminate|]. by apply elem_of_nil in Hr.
Defined.

Lemma registerHandler_keeps_others_witness :
  getHandler "scm" "git" (registerHandler "scm" "svn" 2 (registerHandler "scm" "git" 1 ∅))
    = inr 1.
Proof.
  apply (registerHandler_keeps_others "scm" "svn" "scm" "git" 2
           (registerHandler "scm" "git" 1 ∅) 1); [discriminate|].
  reflexivity.
Defined.

(** ** The modules of a registry *)

Lemma insert_module_sorted m l :
  Sorted sequence_le l -> Sorted sequence_le (insert_module m l).
Proof.
  induction 1 as [|x l Hl IH Hhd]; cbn [insert_module].
  - repeat constructor.
  - destruct (Z.leb_spec (sequence m) (sequence x)) as [Hle|Hlt].
    + constructor; [by constructor|]. by constructor.
    + constructor; [exact IH|].
      destruct Hhd as [|y l Hxy]; cbn [insert_module].
      * constructor. unfold sequence_le. lia.
      * destruct (sequence m <=? sequence y)%Z; constructor; [unfold sequence_le; lia | exact Hxy].
Qed.

Lemma insert_module_perm m l : insert_module m l ≡ₚ m :: l.
Proof.
  induction l as [|x l IH]; cbn [insert_module]; [reflexivity|].
  destruct (sequence m <=? sequence x)%Z; [reflexivity|].
  rewrite IH. apply Permutation_swap.
Qed.

Lemma insert_module_filter m l k :
  filter (fun x => sequence x = k) (insert_module m l) =
  filter (fun x => sequence x = k) (m :: l).
Proof.
  induction l as [|x l IH]; cbn [insert_module]; [reflexivity|].
  destruct (Z.leb_spec (sequence m) (sequence x)) as [Hle|Hlt]; [reflexivity|].
  rewrite filter_cons, IH, !filter_cons.
  destruct (decide (sequence x = k)), (decide (sequence m = k)); try reflexivity. lia.
Qed.

Lemma sort_by_sequence_sorted l : Sorted sequence_le (sort_by_sequence l).
Proof.
  induction l as [|x l IH]; cbn; [constructor | by apply insert_module_sorted].
Qed.

Lemma sort_by_sequence_perm l : sort_by_sequence l ≡ₚ l.
Proof.
  induction l as [|x l IH]; cbn; [reflexivity|].
  by rewrite insert_module_perm, IH.
Qed.

Lemma sort_by_sequence_filter l k :
  filter (fun x => sequence x = k) (sort_by_sequence l) = filter (fun x => sequence x = k) l.
Proof.
  induction l as [|x l IH]; [reflexivity|].
  cbn [sort_by_sequence fold_right]. rewrite insert_module_filter, !filter_cons.
  fold (sort_by_sequence l). rewrite IH. reflexivity.
Qed.

(** The modules after the loop of the constructor. *)
Lemma fold_add_module_modules env l r :
  let r' := fold_left (add_module env) l r in
  (l <> [] -> Sorted sequence_le (modules r')) /\
  modules r' ≡ₚ modules r ++ map (load_module env) l /\
  forall k, filter (fun x => sequence x = k) (modules r') =
            filter (fun x => sequence x = k) (modules r ++ map (load_module env) l).
Proof.
  revert r. induction l as [|e l IH]; intros r r'.
  - cbn. rewrite app_nil_r. split; [done | by split].
  - subst r'. cbn [fold_left map].
    destruct (IH (add_module env r e)) as (Hsorted & Hperm & Hfilter).
    cbn [add_module modules] in Hperm, Hfilter.
    split; [|split].
    + intros _. destruct l as [|e' l]; [|apply Hsorted; discriminate].
      cbn. apply sort_by_sequence_sorted.
    + rewrite Hperm, sort_by_sequence_perm, <- app_assoc. reflexivity.
    + intros k.
      change (load_module env e :: map (load_module env) l)
        with ([load_module env e] ++ map (load_module env) l).
      rewrite Hfilter, !filter_app, sort_by_sequence_filter, filter_app, <- app_assoc.
      reflexivity.
Qed.

Lemma init_fold env config plugins_list r :
  __init__ env config plugins_list = Val r ->
  exists r0,
    modules r0 = [] /\ modules_by_component_type r0 = ∅ /\
    masked_warned r0 = ∅ /\ parser_data r0 = None /\ jjb_config r0 = config /\
    r = fold_left (add_module env) (jenkins_jobs_modules env) r0.
Proof.
  unfold __init__.
  destruct (match plugins_list with None => _ | Some l => _ end) as [[objects plugins]| | |];
    cbn [outcome_bind]; try discriminate.
  intros [= <-].
  exists {| modules := []; modules_by_component_type := ∅; jjb_config := config;
            masked_warned := ∅; plugins_dict := plugins; plugin_objects := objects;
            parser_data := None |}.
  repeat split; reflexivity.
Qed.

(** X4. The modules of a registry are the modules that the entry points of
    the group load, each one once, in ascending order of [sequence]. *)
Theorem init_modules_sorted :
  forall env config plugins_list r,
    __init__ env config plugins_list = Val r ->
    Sorted sequence_le (modules r) /\
    modules r ≡ₚ map (load_module env) (jenkins_jobs_modules env).
Proof.
  intros env config plugins_list r Hinit.
  destruct (init_fold _ _ _ _ Hinit) as (r0 & Hm & _ & _ & _ & _ & ->).
  destruct (fold_add_module_modules env (jenkins_jobs_modules env) r0) as (Hs & Hp & _).
  rewrite Hm in Hp. split; [|exact Hp].
  destruct (jenkins_jobs_modules env) as [|e l] eqn:E; [|apply Hs; discriminate].
  cbn. rewrite Hm. constructor.
Qed.

(** X5. The sort is stable: the modules of one [sequence] are in the order
    in which the entry points of the group gave them. *)
Theorem init_modules_stable :
  forall env config plugins_list r k,
    __init__ env config plugins_list = Val r ->
    filter (fun m => sequence m = k) (modules r) =
    filter (fun m => sequence m = k) (map (load_module env) (jenkins_jobs_modules env)).
Proof.
  intros env config plugins_list r k Hinit.
  destruct (init_fold _ _ _ _ Hinit) as (r0 & Hm & _ & _ & _ & _ & ->).
  destruct (fold_add_module_modules env (jenkins_jobs_modules env) r0) as (_ & _ & Hf).
  rewrite Hf, Hm. reflexivity.
Qed.

Lemma fold_add_module_types_none env ct l r :
  (forall e, e ∈ l -> ~ owns env ct e) ->
  modules_by_component_type (fold_left (add_module env) l r) !! ct
  = modules_by_component_type r !! ct.
Proof.
  revert r. induction l as [|e l IH]; intros r Hl; [reflexivity|].
  cbn [fold_left]. rewrite IH by (intros e' He'; apply Hl; by right).
  cbn [add_module modules_by_component_type].
  destruct (component_type (load_module env e)) as [t|] eqn:Ht; [|reflexivity].
  apply lookup_insert_ne. intros ->. apply (Hl e); [by left | exact Ht].
Qed.

Lemma fold_add_module_types_last env ct l1 e l2 r :
  owns env ct e ->
  (forall e', e' ∈ l2 -> ~ owns env ct e') ->
  modules_by_component_type (fold_left (add_module env) (l1 ++ e :: l2) r) !! ct = Some e.
Proof.
  intros He Hl2. rewrite fold_left_app. cbn [fold_left].
  rewrite fold_add_module_types_none by exact Hl2.
  cbn [add_module modules_by_component_type]. unfold owns in He. rewrite He.
  apply lookup_insert_eq.
Qed.

(** X6. A component type belongs to the last entry point of the group whose
    module declares it, and to none when no module declares it. *)
Theorem init_component_type_owner :
  forall env config plugins_list r ct,
    __init__ env config plugins_list = Val r ->
    ((forall e, e ∈ jenkins_jobs_modules env -> ~ owns env ct e) ->
     modules_by_component_type r !! ct = None) /\
    (forall l1 e l2,
        jenkins_jobs_modules env = l1 ++ e :: l2 ->
        owns env ct e ->
        (forall e', e' ∈ l2 -> ~ owns env ct e') ->
        modules_by_component_type r !! ct = Some e).
Proof.
  intros env config plugins_list r ct Hinit.
  destruct (init_fold _ _ _ _ Hinit) as (r0 & _ & Ht & _ & _ & _ & ->). split.
  - intros Hnone. rewrite fold_add_module_types_none by exact Hnone.
    by rewrite Ht, lookup_empty.
  - intros l1 e l2 -> He Hl2. by apply fold_add_module_types_last.
Qed.

(** X7. In a registry as the constructor made it, with or without parser
    data, [dispatch] for a component type that no installed module declares
    raises the error of an unknown component type and changes nothing. *)
Theorem dispatch_undeclared_component_type :
  forall env config plugins_list r fuel ct xml component td jd w,
    __init__ env config plugins_list = Val r ->
    modules_by_component_type (self w) = modules_by_component_type r ->
    (forall e, e ∈ jenkins_jobs_modules env -> ~ owns env ct e) ->
    dispatch env (S fuel) ct xml component td jd w =
    (Raise (JenkinsJobsException "Unknown component type: '{0}'." [VStr ct]), w).
Proof.
  intros env config plugins_list r fuel ct xml component td jd w Hinit Hw Hnone.
  destruct (init_fold _ _ _ _ Hinit) as (r0 & _ & Ht & _ & _ & _ & ->).
  cbn [dispatch]. unfold dispatch_body, bind, get.
  rewrite Hw, fold_add_module_types_none by exact Hnone.
  by rewrite Ht, lookup_empty.
Qed.

Lemma init_modules_sorted_witness :
  exists r,
    __init__ several_modules Demo.config None = Val r /\
    Sorted sequence_le (modules r) /\
    modules r ≡ₚ map (load_module several_modules) (jenkins_jobs_modules several_modules).
Proof.
  eexists. split; [reflexivity|].
  apply (init_modules_sorted several_modules Demo.config None _ eq_refl).
Defined.

Lemma init_modules_stable_witness :
  exists r,
    __init__ several_modules Demo.config None = Val r /\
    map component_list_type (filter (fun m => sequence m = 60%Z) (modules r))
    = ["builders"; "more_builders"].
Proof.
  eexists. split; [reflexivity|].
  rewrite (init_modules_stable several_modules Demo.config None _ 60%Z eq_refl).
  reflexivity.
Defined.

Lemma init_component_type_owner_witness :
  exists r,
    __init__ several_modules Demo.config None = Val r /\
    modules_by_component_type r !! "trigger" = None /\
    modules_by_component_type r !! "builder" = Some more_builders_ep.
Proof.
  eexists. split; [reflexivity|].
  split.
  - apply (init_component_type_owner several_modules Demo.config None _ "trigger" eq_refl).
    intros e He. unfold owns.
    repeat (apply elem_of_cons in He as [->|He]; [discriminate|]).
    by apply elem_of_nil in He.
  - apply (proj2 (init_component_type_owner several_modules Demo.config None _ "builder"
                    eq_refl) [Demo.builders_ep; publishers_ep; general_ep] more_builders_ep []);
      [reflexivity | reflexivity |].
    intros e He. by apply elem_of_nil in He.
Defined.

Lemma dispatch_undeclared_component_type_witness :
  dispatch Demo.env 1 "frobnicator" 0 (VStr "run-tests") (VDict []) VNone Demo.world0 =
  (Raise (JenkinsJobsException "Unknown component type: '{0}'." [VStr "frobnicator"]),
   Demo.world0).
Proof.
  eapply (dispatch_undeclared_component_type Demo.env Demo.config None _ 0 "frobnicator");
    [reflexivity | reflexivity |].
  intros e He. unfold owns.
  apply elem_of_cons in He as [->|He]; [discriminate|]. by apply elem_of_nil in He.
Defined.

(** ** More on the plugin metadata store *)

Lemma fold_update_some (ds : list (gmap string nat)) (m0 : gmap string nat) k v :
  fold_left gmap_update ds m0 !! k = Some v ->
  (exists j m, ds !! j = Some m /\ m !! k = Some v /\
               forall j' m', j < j' -> ds !! j' = Some m' -> m' !! k = None) \/
  (m0 !! k = Some v /\ forall j m, ds !! j = Some m -> m !! k = None).
Proof.
  revert m0. induction ds as [|m1 ds IH]; intros m0 H.
  - right. split; [exact H|]. intros j m Hj. discriminate.
  - cbn [fold_left] in H. destruct (IH _ H) as [(j & m & Hj & Hm & Hlater)|[Hm0 Hnone]].
    + left. exists (S j), m. split; [exact Hj|]. split; [exact Hm|].
      intros [|j'] m' Hlt Hj'; [lia|]. apply (Hlater j'); [lia | exact Hj'].
    + unfold gmap_update in Hm0. destruct (m1 !! k) as [v1|] eqn:E1.
      * left. exists 0, m1. split; [reflexivity|].
        rewrite (lookup_union_Some_l _ _ _ _ E1) in Hm0. split; [congruence|].
        intros [|j'] m' Hlt Hj'; [lia|]. apply (Hnone j'). exact Hj'.
      * right. rewrite lookup_union_r in Hm0 by exact E1. split; [exact Hm0|].
        intros [|j] m Hj; [by injection Hj as <- | apply (Hnone j); exact Hj].
Qed.

(** X8. What [get_plugin_info] returns for an alias is the object of the
    last element of the list that declares the alias as its long or short
    name: the last registration of an alias wins. The object is returned by
    reference, whatever the number of elements that are this object. *)
Theorem get_plugin_info_last_declaring :
  forall env config plugins_list r alias object,
    __init__ env config (Some plugins_list) = Val r ->
    get_plugin_info r alias = PluginObject object <->
    exists i ref,
      fin_to_nat ref = object /\
      elements plugins_list !! i = Some ref /\
      declares (store plugins_list !!! ref) alias /\
      forall j ref', i < j -> elements plugins_list !! j = Some ref' ->
                     ~ declares (store plugins_list !!! ref') alias.
Proof.
  intros env config [n objects plugins_list] r alias object Hinit.
  cbn [store elements store_size].
  apply init_plugins in Hinit. unfold _get_plugins_info_dict in Hinit.
  cbn [store elements store_size] in Hinit.
  destruct (mutate_all plugins_list objects) as [[objects' ds]| | |] eqn:Hall;
    try discriminate.
  cbn [outcome_bind] in Hinit. injection Hinit as Hobj Hdict.
  destruct (mutate_all_lookup _ _ _ _ Hall) as [Hlen Hds'].
  assert (Hds : forall j m, ds !! j = Some m ->
                  exists ref, plugins_list !! j = Some ref /\
                    (declares (objects !!! ref) alias -> m !! alias = Some (fin_to_nat ref)) /\
                    (~ declares (objects !!! ref) alias -> m !! alias = None)).
  { intros j m Hj.
    destruct (lookup_lt_is_Some_2 plugins_list j) as [ref Href].
    { rewrite <- Hlen. eapply lookup_lt_Some, Hj. }
    destruct (Hds' j ref Href) as (m' & Hm & Hin & Hout).
    rewrite Hj in Hm. injection Hm as <-. exists ref. split; [exact Href|]. split.
    - apply Hin.
    - apply Hout. }
  unfold get_plugin_info. rewrite <- Hdict. split.
  - destruct (fold_left gmap_update ds ∅ !! alias) as [object'|] eqn:E; [|discriminate].
    intros [= ->].
    destruct (fold_update_some _ _ _ _ E) as [(j & m & Hj & Hm & Hlater)|[Hempty _]];
      [|by rewrite lookup_empty in Hempty].
    destruct (Hds j m Hj) as (ref & Href & Hin & Hout).
    destruct (decide (declares (objects !!! ref) alias)) as [Hdecl|Hndecl];
      [|rewrite (Hout Hndecl) in Hm; discriminate].
    rewrite (Hin Hdecl) in Hm. injection Hm as <-.
    exists j, ref. split; [reflexivity|]. split; [exact Href|]. split; [exact Hdecl|].
    intros j' ref' Hlt Href' Hdecl'.
    destruct (lookup_lt_is_Some_2 ds j') as [m' Hm'].
    { rewrite Hlen. eapply lookup_lt_Some, Href'. }
    destruct (Hds j' m' Hm') as (ref'' & Href'' & Hin' & _).
    rewrite Href' in Href''. injection Href'' as <-.
    rewrite (Hlater j' m' Hlt Hm') in Hin'. by specialize (Hin' Hdecl').
  - intros (i & ref & <- & Href & Hdecl & Hlater).
    destruct (lookup_lt_is_Some_2 ds i) as [m Hm].
    { rewrite Hlen. eapply lookup_lt_Some, Href. }
    destruct (Hds i m Hm) as (ref0 & Href0 & Hin & _).
    rewrite Href in Href0. injection Href0 as <-.
    rewrite (fold_update_last ds ∅ i m alias _ Hm (Hin Hdecl)); [reflexivity|].
    intros j m' Hlt Hj. destruct (Hds j m' Hj) as (ref' & Href' & _ & Hout).
    apply Hout, (Hlater j ref' Hlt Href').
Qed.

Lemma get_plugin_info_last_declaring_witness :
  exists r,
    __init__ Demo.env Demo.config (Some demo_plugin_twice) = Val r /\
    get_plugin_info r "git" = PluginObject 0.
Proof.
  eexists. split; [reflexivity|].
  apply (get_plugin_info_last_declaring Demo.env Demo.config demo_plugin_twice _ "git" 0
           eq_refl).
  exists 1, 0%fin. split; [reflexivity|]. split; [reflexivity|]. split; [by right|].
  intros j ref Hlt Hj. destruct j as [|[|j]]; [lia | lia | discriminate].
Defined.

(** X9. The constructor changes nothing in a plugin object but its version:
    the registry refers to as many objects as the caller has, and every
    other key of an object has the value it had. *)
Theorem plugin_objects_keep_other_fields :
  forall env config plugins_list r,
    __init__ env config (Some plugins_list) = Val r ->
    length (plugin_objects r) = store_size plugins_list /\
    forall ref,
      exists d', plugin_objects r !! fin_to_nat ref = Some d' /\
                 forall k, k <> "version" ->
                           dict_get k d' = dict_get k (store plugins_list !!! ref).
Proof.
  intros env config [n objects plugins_list] r Hinit.
  cbn [store elements store_size].
  apply init_plugins in Hinit. unfold _get_plugins_info_dict in Hinit.
  cbn [store elements store_size] in Hinit.
  destruct (mutate_all plugins_list objects) as [[objects' ds]| | |] eqn:Hall;
    try discriminate.
  cbn [outcome_bind] in Hinit. injection Hinit as Hobj Hdict.
  rewrite <- Hobj. split; [apply length_vec_to_list|].
  intros ref. exists (objects' !!! ref). split; [by apply vlookup_lookup|].
  intros k Hk. pose proof (mutate_all_store _ _ _ _ Hall ref) as Hstore.
  destruct (times_listed ref plugins_list) as [|times].
  - by rewrite Hstore.
  - destruct Hstore as (v & _ & ->). apply dict_get_set_ne. congruence.
Qed.

Lemma plugin_objects_keep_other_fields_witness :
  exists r,
    __init__ Demo.env Demo.config (Some demo_plugins) = Val r /\
    length (plugin_objects r) = 2 /\
    exists d', plugin_objects r !! 0 = Some d' /\
               dict_get "shortName" d' = Some (VStr "git").
Proof.
  eexists. split; [reflexivity|].
  destruct (plugin_objects_keep_other_fields Demo.env Demo.config demo_plugins _ eq_refl)
    as [Hlen Hobj].
  split; [exact Hlen|].
  destruct (Hobj 0%fin) as (d' & Hd' & Hkeep).
  exists d'. split; [exact Hd'|]. rewrite Hkeep by discriminate. reflexivity.
Defined.

Lemma alias_dict_strings ref aliases m0 m a :
  alias_dict ref aliases m0 = Val m -> a ∈ aliases -> exists s, a = VStr s.
Proof.
  revert m0. induction aliases as [|name aliases IH]; intros m0 H Ha.
  - by apply elem_of_nil in Ha.
  - cbn [alias_dict] in H.
    destruct (as_key name) as [key| | |] eqn:Hkey; try discriminate.
    apply as_key_inv in Hkey. subst name. cbn [outcome_bind] in H.
    apply elem_of_cons in Ha as [->|Ha]; [eauto | eapply IH; eauto].
Qed.

Lemma collect_aliases_value plugin_info key value :
  key = "longName" \/ key = "shortName" ->
  dict_get key plugin_info = Some value ->
  value = VNone \/ value ∈ collect_aliases plugin_info.
Proof.
  intros Hkey Hget. unfold collect_aliases. cbn [flat_map].
  destruct value; [by left|right..];
    destruct Hkey as [-> | ->]; rewrite Hget; cbn;
    rewrite ?elem_of_app, ?elem_of_cons; auto.
Qed.

(** The names of the objects that [mutate_all] goes through are strings or
    [None]. *)
Lemma mutate_all_names {n : nat} (plugins_list : list (fin n)) objects objects' list_of_dicts :
  mutate_all plugins_list objects = Val (objects', list_of_dicts) ->
  forall ref key value,
    ref ∈ plugins_list ->
    key = "longName" \/ key = "shortName" ->
    dict_get key (objects !!! ref) = Some value ->
    value = VNone \/ exists s, value = VStr s.
Proof.
  revert objects objects' list_of_dicts.
  induction plugins_list as [|ref0 rest IH];
    intros objects objects' list_of_dicts H ref key value Hin Hkey Hget.
  - by apply elem_of_nil in Hin.
  - cbn [mutate_all] in H.
    destruct (mutate_plugin_info ref0 (objects !!! ref0)) as [[d0' m0]| | |] eqn:Hm;
      try discriminate.
    cbn [outcome_bind] in H.
    destruct (mutate_all rest (vinsert ref0 d0' objects)) as [[vs ds]| | |] eqn:Hrest;
      try discriminate.
    destruct (mutate_plugin_info_inv _ _ _ _ Hm) as (v & Hv & -> & Ha).
    assert (Hne : "version" <> key) by (destruct Hkey as [-> | ->]; discriminate).
    apply elem_of_cons in Hin as [->|Hin].
    + destruct (collect_aliases_value
                  (dict_set "version" (VStr (normalize_version v)) (objects !!! ref0))
                  key value Hkey) as [Hnone|Hval]; [|by left|].
      * by rewrite dict_get_set_ne.
      * right. eapply alias_dict_strings; eauto.
    + apply (IH _ _ _ Hrest ref key value Hin Hkey).
      destruct (decide (ref0 = ref)) as [->|Hdiff].
      * rewrite vlookup_insert. by rewrite dict_get_set_ne.
      * by rewrite vlookup_insert_ne.
Qed.

(** X10. The constructor returns a registry only if the version of every
    plugin object of the list is a string or is missing, and its long and
    short names are hashable: a version that is not a string, or a list or a
    mapping as a name, makes the constructor fail. *)
Theorem init_needs_well_formed_plugins :
  forall env config plugins_list r i ref,
    __init__ env config (Some plugins_list) = Val r ->
    elements plugins_list !! i = Some ref ->
    (exists v, default (VStr "0") (dict_get "version" (store plugins_list !!! ref)) = VStr v) /\
    forall key value,
      key = "longName" \/ key = "shortName" ->
      dict_get key (store plugins_list !!! ref) = Some value ->
      hashable value = true.
Proof.
  intros env config [n objects plugins_list] r i ref Hinit Hi.
  cbn [store elements store_size] in *.
  apply init_plugins in Hinit. unfold _get_plugins_info_dict in Hinit.
  cbn [store elements store_size] in Hinit.
  destruct (mutate_all plugins_list objects) as [[objects' ds]| | |] eqn:Hall;
    try discriminate.
  clear Hinit. apply list_elem_of_lookup_2 in Hi. split.
  - pose proof (mutate_all_store _ _ _ _ Hall ref) as Hstore.
    assert (Hlisted : times_listed ref plugins_list <> 0) by (by apply times_listed_elem).
    destruct (times_listed ref plugins_list) as [|times]; [contradiction|].
    destruct Hstore as (v & Hv & _). eauto.
  - intros key value Hkey Hget.
    destruct (mutate_all_names _ _ _ _ Hall ref key value Hi Hkey Hget) as [->|[s ->]];
      reflexivity.
Qed.

Lemma init_needs_well_formed_plugins_witness :
  exists v, default (VStr "0") (dict_get "version" (store demo_plugins !!! 1%fin)) = VStr v.
Proof.
  edestruct (init_needs_well_formed_plugins Demo.env Demo.config demo_plugins _ 1 1%fin
               eq_refl eq_refl) as [Hv _].
  exact Hv.
Defined.

(** ** The caches *)

#[global] Instance same_attributes_preorder : PreOrder same_attributes.
Proof.
  split.
  - intros r. by repeat split.
  - intros r1 r2 r3 (?&?&?&?&?&?) (?&?&?&?&?&?). repeat split; congruence.
Qed.

#[global] Instance grows_preorder : PreOrder grows.
Proof.
  split.
  - intros w. split; [reflexivity|]. do 3 (split; [done|]).
    exists []. by rewrite app_nil_r.
  - intros w1 w2 w3 (Ha & Hm & He & Hc & n1 & Ht1) (Ha' & Hm' & He' & Hc' & n2 & Ht2).
    split; [by etrans|]. split; [set_solver|]. split; [by etrans|]. split; [by etrans|].
    exists (n1 ++ n2). by rewrite Ht2, Ht1, app_assoc.
Qed.

#[global] Instance adds_preorder P : PreOrder (adds P).
Proof.
  split.
  - intros w. exists []. split; [by rewrite app_nil_r | constructor].
  - intros w1 w2 w3 (n1 & Ht1 & H1) (n2 & Ht2 & H2).
    exists (n1 ++ n2). split; [by rewrite Ht2, Ht1, app_assoc | by apply Forall_app].
Qed.

Lemma adds_weaken (P Q : event -> Prop) w w' :
  (forall e, P e -> Q e) -> adds P w w' -> adds Q w w'.
Proof.
  intros HPQ (new & Ht & Hnew). exists new. split; [exact Ht|].
  eapply Forall_impl; eauto.
Qed.

Lemma preserves_weaken (P Q : event -> Prop) {A : Type} (c : M world A) :
  (forall e, P e -> Q e) -> preserves (adds P) c -> preserves (adds Q) c.
Proof. intros HPQ Hc w. eapply adds_weaken; [exact HPQ | apply Hc]. Qed.

Lemma quiet_same_grows w w' : quiet_step w w' -> same_caches w w' -> grows w w'.
Proof.
  intros [Hs (new & Ht & _)] [He Hc].
  split; [rewrite Hs; reflexivity|]. rewrite Hs, He, Hc.
  do 3 (split; [done|]). by exists new.
Qed.

Lemma grows_quiet_keeps {A : Type} (c : M world A) :
  quiet c -> keeps_caches c -> preserves grows c.
Proof. intros Hq Hk w. apply quiet_same_grows; [apply Hq | apply Hk]. Qed.

Lemma fill_table_world ct name l eps w : snd (fill_table ct name l eps w) = w.
Proof.
  revert eps. induction l as [|[e f] l IH]; intros eps; [reflexivity|].
  cbn [fill_table]. destruct (eps !! ep_name e); [reflexivity | apply IH].
Qed.

Lemma get_component_list_type_run env ep w :
  get_component_list_type env ep w =
  match _component_type_cache (proc w) !! ep with
  | Some cached => (Val cached, w)
  | None =>
      let lt := component_list_type (load_module env ep) in
      (Val lt,
       with_component_type_cache <[ep := lt]>
         (appended [Log RootLogger INFO "Caching type %s of %s"
                      [ArgStr lt; ArgEntryPoint ep]] w))
  end.
Proof.
  unfold get_component_list_type, bind, get.
  destruct (_component_type_cache (proc w) !! ep); reflexivity.
Qed.

(** ** The table of entry points *)

Lemma auto_entry_points_run ep funcs w :
  exists new,
    auto_entry_points ep funcs w = (Val (declared_entry_points ep funcs), appended new w) /\
    Forall no_call new.
Proof.
  revert w. induction funcs as [|f funcs IH]; intros w.
  - exists []. rewrite appended_nil. split; [reflexivity | constructor].
  - cbn [auto_entry_points declared_entry_points flat_map].
    unfold bind at 1. unfold auto_entry_point.
    destruct (read_docstring f) as [declared|name_line|];
      unfold bind at 1, log; rewrite emit_eq; cbn [ret];
      unfold bind at 1;
      match goal with |- context [auto_entry_points ep funcs ?w1] =>
        destruct (IH w1) as (new & -> & Hnew) end;
      cbn [ret]; rewrite appended_app;
      (eexists; split; [reflexivity|]);
      (constructor; [exact I | exact Hnew]).
Qed.

Lemma names_app l1 l2 : names (l1 ++ l2) = names l1 ++ names l2.
Proof. apply map_app. Qed.

Lemma table_of_cons e f l : table_of ((e, f) :: l) = <[ep_name e := f]> (table_of l).
Proof. reflexivity. Qed.

Lemma table_of_lookup_None l n : n ∉ names l -> table_of l !! n = None.
Proof.
  intros Hn. apply not_elem_of_list_to_map_1.
  rewrite <- list_fmap_compose. exact Hn.
Qed.

Lemma table_of_lookup l n f :
  NoDup (names l) ->
  table_of l !! n = Some f <-> exists e, (e, f) ∈ l /\ ep_name e = n.
Proof.
  intros Hnd. unfold table_of. rewrite <- elem_of_list_to_map.
  - change (map (fun p : EntryPoint * pyfunc => (ep_name p.1, p.2)) l) with ((fun p : EntryPoint * pyfunc => (ep_name p.1, p.2)) <$> l). rewrite list_elem_of_fmap. split.
    + intros ([e f'] & [= -> ->] & Hin). eauto.
    + intros (e & Hin & <-). exists (e, f). split; [reflexivity | exact Hin].
  - rewrite <- list_fmap_compose. exact Hnd.
Qed.

(** The loop that fills the table: it ends with the table of its entry
    points when their names are distinct and none is taken, and with the
    error of a duplicate otherwise. *)
Lemma fill_table_run ct name l eps w :
  fill_table ct name l eps w =
  if decide (NoDup (names l) /\ Forall (fun n => eps !! n = None) (names l))
  then (Val (table_of l ∪ eps), w)
  else (Raise (duplicate_error ct name), w).
Proof.
  revert eps. induction l as [|[e f] l IH]; intros eps.
  - cbn [fill_table names map]. rewrite decide_True by (split; constructor).
    unfold table_of. cbn. by rewrite (left_id_L ∅ (∪)).
  - cbn [fill_table]. destruct (eps !! ep_name e) as [taken|] eqn:E.
    + rewrite decide_False; [reflexivity|].
      intros [_ Hfree]. apply Forall_cons in Hfree as [Hfree _]. cbn in Hfree. congruence.
    + rewrite IH. cbn [names map fst].
      fold (names l).
      destruct (decide (NoDup (names l) /\
                        Forall (fun n => <[ep_name e := f]> eps !! n = None) (names l)))
        as [[Hnd Hfree]|Hno].
      * assert (Hnotin : ep_name e ∉ names l).
        { intros Hin. rewrite Forall_forall in Hfree. specialize (Hfree _ Hin).
          by rewrite lookup_insert_eq in Hfree. }
        rewrite decide_True.
        -- rewrite table_of_cons. f_equal.
           rewrite <- insert_union_l.
           by rewrite <- insert_union_r by (by apply table_of_lookup_None).
        -- split; [by constructor|]. constructor; [exact E|].
           eapply Forall_impl; [exact Hfree|]. cbn. intros n Hn.
           apply lookup_insert_None in Hn as [Hn _]. exact Hn.
      * rewrite decide_False; [reflexivity|].
        intros [Hnd Hfree]. apply Hno.
        apply NoDup_cons in Hnd as [Hnotin Hnd].
        apply Forall_cons in Hfree as [_ Hfree].
        split; [exact Hnd|].
        rewrite Forall_forall in Hfree |- *. intros n Hn.
        apply lookup_insert_None. split; [by apply Hfree|].
        intros <-. contradiction.
Qed.

Lemma entry_points_run env ct lt ep name w :
  _entry_points_cache (proc w) !! lt = None ->
  exists new,
    Forall no_call new /\
    entry_points env ct lt ep name w =
    if decide (NoDup (names (module_entry_points env lt ep)))
    then
      let eps := table_of (module_entry_points env lt ep) in
      (Val eps,
       appended [Log RegistryLogger DEBUG "Cached entry point group %s = %s"
                   [ArgStr lt; ArgTable eps]]
         (with_entry_points_cache <[lt := eps]> (appended (caching_entry_points lt :: new) w)))
    else (Raise (duplicate_error ct name), appended (caching_entry_points lt :: new) w).
Proof.
  intros Hnone.
  destruct (auto_entry_points_run ep (module_functions env (ep_module_name ep))
              (appended [caching_entry_points lt] w)) as (new & Hauto & Hnew).
  exists new. split; [exact Hnew|].
  unfold entry_points. unfold bind at 1, get. cbn match. rewrite Hnone.
  unfold bind at 1, log. rewrite emit_eq.
  unfold bind at 1. unfold caching_entry_points in Hauto. rewrite Hauto.
  rewrite appended_app. cbn [app].
  unfold bind at 1. rewrite fill_table_run.
  fold (module_entry_points env lt ep).
  destruct (decide (NoDup (names (module_entry_points env lt ep)))) as [Hnd|Hnd].
  - rewrite decide_True.
    + rewrite (right_id_L ∅ (∪)). reflexivity.
    + split; [exact Hnd|]. apply Forall_forall. intros n _. apply lookup_empty.
  - rewrite decide_False; [reflexivity|]. intros [H _]. contradiction.
Qed.

(** X12. When the process has no table for a list type, [dispatch] builds
    one exactly when the names of the entry points it collects are
    distinct. The table then has each name with the function of its entry
    point and nothing else, it is stored in the cache under the list type,
    and the registry and the other cache are left as they are. *)
Theorem entry_points_table_built :
  forall env ct lt ep name w,
    _entry_points_cache (proc w) !! lt = None ->
    (NoDup (names (module_entry_points env lt ep)) <->
     exists eps w', entry_points env ct lt ep name w = (Val eps, w')) /\
    forall eps w',
      entry_points env ct lt ep name w = (Val eps, w') ->
      (forall n f, eps !! n = Some f <->
                   exists e, (e, f) ∈ module_entry_points env lt ep /\ ep_name e = n) /\
      _entry_points_cache (proc w') = <[lt := eps]> (_entry_points_cache (proc w)) /\
      _component_type_cache (proc w') = _component_type_cache (proc w) /\
      self w' = self w.
Proof.
  intros env ct lt ep name w Hnone.
  destruct (entry_points_run env ct lt ep name w Hnone) as (new & _ & Hrun).
  rewrite Hrun.
  destruct (decide (NoDup (names (module_entry_points env lt ep)))) as [Hnd|Hnd].
  - split; [split; [eauto | intros _; exact Hnd]|].
    intros eps w' [= <- <-]. split; [|by repeat split].
    intros n f. by apply table_of_lookup.
  - split; [split; [contradiction | intros (eps & w' & [=])]|].
    intros eps w' [=].
Qed.

Lemma entry_points_table_built_witness :
  exists eps w',
    entry_points Demo.env "builder" "builders" Demo.builders_ep (VStr "shell") demo_world1
    = (Val eps, w') /\
    eps !! "trigger-builds" = Some Demo.trigger /\
    _entry_points_cache (proc w') !! "builders" = Some eps.
Proof.
  destruct (entry_points_table_built Demo.env "builder" "builders" Demo.builders_ep
              (VStr "shell") demo_world1 eq_refl) as [Hbuilt Htable].
  destruct (proj1 Hbuilt) as (eps & w' & Hrun).
  { vm_compute. repeat constructor; set_solver. }
  exists eps, w'. split; [exact Hrun|].
  destruct (Htable eps w' Hrun) as (Hlookup & Hcache & _).
  split.
  - apply Hlookup.
    exists {| ep_name := "trigger-builds"; ep_module_name := "jenkins_jobs.modules.builders";
              ep_attrs := ["trigger"] |}.
    split; [|reflexivity]. vm_compute. repeat constructor.
  - rewrite Hcache. apply lookup_insert_eq.
Defined.

Lemma entry_points_cached_after env ct lt ep name w eps w' :
  entry_points env ct lt ep name w = (Val eps, w') ->
  _entry_points_cache (proc w') !! lt = Some eps.
Proof.
  intros Hrun. destruct (_entry_points_cache (proc w) !! lt) as [cached|] eqn:E.
  - unfold entry_points, bind, get in Hrun. cbn match in Hrun. rewrite E in Hrun.
    by injection Hrun as <- <-.
  - destruct (entry_points_run env ct lt ep name w E) as (new & _ & Hrun').
    rewrite Hrun in Hrun'.
    destruct (decide (NoDup (names (module_entry_points env lt ep)))); [|discriminate].
    injection Hrun' as -> ->. cbn. apply lookup_insert_eq.
Qed.

Lemma entry_points_available env ct lt ep name w :
  is_Some (_entry_points_cache (proc w) !! lt) \/
  NoDup (names (module_entry_points env lt ep)) ->
  exists eps w3, entry_points env ct lt ep name w = (Val eps, w3).
Proof.
  intros Havail. destruct (_entry_points_cache (proc w) !! lt) as [cached|] eqn:E.
  - exists cached, w. unfold entry_points, bind, get. cbn match. rewrite E. reflexivity.
  - destruct (entry_points_run env ct lt ep name w E) as (new & _ & ->).
    destruct Havail as [[? [=]]|Hnd]. rewrite decide_True by exact Hnd. eauto.
Qed.

(** ** What [dispatch] changes *)

Lemma keeps_caches_macro_lookup ct name : keeps_caches (macro_lookup ct name).
Proof. unfold macro_lookup. repeat preserves_step. Qed.

Lemma grows_get_component_list_type env ep : preserves grows (get_component_list_type env ep).
Proof.
  intros w. rewrite get_component_list_type_run.
  destruct (_component_type_cache (proc w) !! ep) as [cached|] eqn:E; [reflexivity|].
  cbn [snd]. split; [reflexivity|]. split; [done|]. split; [done|].
  split; [cbn; by apply insert_subseteq|]. eexists. reflexivity.
Qed.

Lemma grows_entry_points env ct lt ep name : preserves grows (entry_points env ct lt ep name).
Proof.
  intros w. destruct (_entry_points_cache (proc w) !! lt) as [cached|] eqn:E.
  - unfold entry_points, bind, get. cbn match. rewrite E. reflexivity.
  - destruct (entry_points_run env ct lt ep name w E) as (new & _ & ->).
    destruct (decide (NoDup (names (module_entry_points env lt ep)))); cbn [snd].
    + split; [reflexivity|]. split; [done|].
      split; [cbn; by apply insert_subseteq|]. split; [done|].
      cbn. rewrite <- app_assoc. eexists. reflexivity.
    + split; [reflexivity|]. do 3 (split; [done|]). eexists. reflexivity.
Qed.

Lemma grows_warn_masked ct name eps : preserves grows (warn_masked ct name eps).
Proof.
  intros w. destruct name as [| | |s| | |]; try reflexivity.
  rewrite warn_masked_eq.
  destruct (bool_decide (is_Some (eps !! s)) && negb (bool_decide (s ∈ masked_warned (self w))));
    [|reflexivity].
  cbn [snd]. split; [by repeat split|]. split; [cbn; set_solver|].
  do 2 (split; [done|]). eexists. reflexivity.
Qed.

Lemma grows_expand_or_call recurse ct lt xml name cd jd eps :
  (forall ct' xml' b td' jd', preserves grows (recurse ct' xml' b td' jd')) ->
  preserves grows (expand_or_call recurse ct lt xml name cd jd eps).
Proof.
  intros Hrec. unfold expand_or_call.
  apply preserves_bind; [tc_solve | | intros component].
  { apply grows_quiet_keeps; [apply quiet_macro_lookup | apply keeps_caches_macro_lookup]. }
  destruct (truthy component).
  - apply preserves_bind; [tc_solve | apply grows_warn_masked | intros _].
    repeat preserves_step.
    apply preserves_for_each; [tc_solve|]. intros b. apply Hrec.
  - destruct (table_get eps name).
    + apply grows_quiet_keeps; [apply quiet_emit; reflexivity | apply keeps_caches_emit].
    + preserves_step.
Qed.

Lemma grows_dispatch env fuel ct xml component td jd :
  preserves grows (dispatch env fuel ct xml component td jd).
Proof.
  revert ct xml component td jd.
  induction fuel as [|fuel IH]; intros ct xml component td jd; cbn [dispatch].
  - preserves_step.
  - unfold dispatch_body, resolve.
    preserves_step; [preserves_step|].
    destruct (modules_by_component_type (self a) !! ct); [|preserves_step].
    preserves_step; [apply grows_get_component_list_type|].
    preserves_step.
    { apply grows_quiet_keeps;
        [apply quiet_component_name_and_data | apply keeps_caches_component_name_and_data]. }
    preserves_step; [apply grows_entry_points|].
    apply grows_expand_or_call. exact IH.
Qed.

(** X14. A run of calls of [dispatch], whatever the outcome of each, only
    adds: names to [masked_warned], entries to the two caches of the process
    and events to the trace. No entry of a cache is dropped or replaced, and
    the modules, the plugins, the configuration and the parser data of the
    registry are left as they are. *)
Theorem dispatch_only_adds :
  forall env calls w, grows w (run_calls env calls w).
Proof.
  intros env calls. induction calls as [|c calls IH]; intros w; [reflexivity|].
  cbn [run_calls fold_left]. etrans; [|apply IH]. apply grows_dispatch.
Qed.

(** ** The caches, later

    The two caches are attributes of the class: what one call has put there
    is there for every later call, of any registry. *)

Lemma later_caches w w' :
  later w w' ->
  _component_type_cache (proc w) ⊆ _component_type_cache (proc w') /\
  _entry_points_cache (proc w) ⊆ _entry_points_cache (proc w').
Proof.
  induction 1 as [|w' env fuel ct xml component td jd _ [IHct IHeps]
                  |w' env ep _ [IHct IHeps]|w' r _ IH].
  - split; reflexivity.
  - destruct (grows_dispatch env fuel ct xml component td jd w')
      as (_ & _ & Heps & Hct & _).
    split; etrans; eauto.
  - destruct (grows_get_component_list_type env ep w') as (_ & _ & Heps & Hct & _).
    split; etrans; eauto.
  - exact IH.
Qed.

(** X11. The list type of an entry point is loaded once in a process. The
    first call of [get_component_list_type] returns the cached type if there
    is one and the type of the loaded module otherwise; and in every later
    world of the process, after any calls of [dispatch] and of
    [get_component_list_type] by any registries and whatever is installed
    by then, a call for that entry point returns that type and changes
    nothing: it loads nothing and logs nothing. *)
Theorem component_list_type_loaded_once :
  forall env ep w,
    exists lt w1,
      get_component_list_type env ep w = (Val lt, w1) /\
      lt = default (component_list_type (load_module env ep))
             (_component_type_cache (proc w) !! ep) /\
      forall w',
        later w1 w' ->
        forall env', get_component_list_type env' ep w' = (Val lt, w').
Proof.
  intros env ep w.
  assert (Hrun : exists lt w1,
             get_component_list_type env ep w = (Val lt, w1) /\
             lt = default (component_list_type (load_module env ep))
                    (_component_type_cache (proc w) !! ep)).
  { rewrite get_component_list_type_run.
    destruct (_component_type_cache (proc w) !! ep); eauto. }
  destruct Hrun as (lt & w1 & Hrun & Hlt). exists lt, w1.
  split; [exact Hrun|]. split; [exact Hlt|].
  intros w' Hlater env'.
  destruct (get_component_list_type_caches _ _ _ _ _ Hrun) as [Hcached _].
  destruct (later_caches _ _ Hlater) as [Hct _].
  rewrite get_component_list_type_run, (lookup_weaken _ _ _ _ Hcached Hct). reflexivity.
Qed.

Lemma component_list_type_loaded_once_witness :
  get_component_list_type Demo.clashing Demo.builders_ep
    {| self := self demo_unset;
       proc := proc (snd (dispatch Demo.env 2 "builder" 0 (VStr "two-steps")
                            (VDict [("x", VInt 1)]) VNone demo_world1)) |}
  = (Val "builders",
     {| self := self demo_unset;
        proc := proc (snd (dispatch Demo.env 2 "builder" 0 (VStr "two-steps")
                             (VDict [("x", VInt 1)]) VNone demo_world1)) |}).
Proof.
  destruct (component_list_type_loaded_once Demo.env Demo.builders_ep Demo.world0)
    as (lt & w1 & Hrun & Hlt & Hnext).
  assert (Heq : lt = "builders") by (rewrite Hlt; vm_compute; reflexivity).
  assert (Hw : w1 = demo_world1) by (unfold demo_world1; by rewrite Hrun).
  subst lt w1. apply Hnext. apply later_registry, later_dispatch, later_now.
Defined.

(** X13. A table of entry points, once it is returned, is the table of its
    list type for the rest of the process: in every later world, after any
    calls of [dispatch] and of [get_component_list_type] by any registries,
    a lookup for that list type returns that table and changes nothing, for
    any component type, entry point and component and whatever is installed
    by then. The cache is keyed by the list type alone. *)
Theorem entry_points_table_shared :
  forall env ct lt ep name w eps w',
    entry_points env ct lt ep name w = (Val eps, w') ->
    forall w'',
      later w' w'' ->
      forall env' ct' ep' name',
        entry_points env' ct' lt ep' name' w'' = (Val eps, w'').
Proof.
  intros env ct lt ep name w eps w' Hrun w'' Hlater env' ct' ep' name'.
  pose proof (entry_points_cached_after _ _ _ _ _ _ _ _ Hrun) as Hcached.
  destruct (later_caches _ _ Hlater) as [_ Heps].
  unfold entry_points, bind, get. cbn match.
  rewrite (lookup_weaken _ _ _ _ Hcached Heps). reflexivity.
Qed.

Lemma entry_points_table_shared_witness :
  entry_points Demo.clashing "publisher" "builders" publishers_ep VNone
    {| self := self demo_unset;
       proc := proc (snd (dispatch Demo.env 2 "builder" 0 (VStr "two-steps")
                            (VDict [("x", VInt 1)]) VNone (demo_world3 (VStr "shell")))) |}
  = (Val demo_table,
     {| self := self demo_unset;
        proc := proc (snd (dispatch Demo.env 2 "builder" 0 (VStr "two-steps")
                             (VDict [("x", VInt 1)]) VNone (demo_world3 (VStr "shell")))) |}).
Proof.
  apply (entry_points_table_shared Demo.env "builder" "builders" Demo.builders_ep
           (VStr "shell") demo_world1 demo_table (demo_world3 (VStr "shell"))).
  - vm_compute. reflexivity.
  - apply later_registry, later_dispatch, later_now.
Defined.

(** ** What [dispatch] adds to the trace *)

Section Adds.
Variable P : event -> Prop.

Lemma adds_emit e : P e -> preserves (adds P) (emit e).
Proof.
  intros He w. rewrite emit_eq. exists [e]. split; [reflexivity | by constructor].
Qed.

Lemma adds_silent (f : world -> world) :
  (forall w, trace (proc (f w)) = trace (proc w)) -> preserves (adds P) (modify f).
Proof.
  intros Hf w. exists []. cbn. rewrite Hf, app_nil_r. split; [reflexivity | constructor].
Qed.

End Adds.

Ltac adds_step :=
  lazymatch goal with
  | |- preserves _ (bind _ _) => apply preserves_bind; [tc_solve | | intros ?]
  | |- preserves _ (ret _) => apply preserves_ret; tc_solve
  | |- preserves _ (raise _) => apply preserves_raise; tc_solve
  | |- preserves _ (stop _) => apply preserves_stop; tc_solve
  | |- preserves _ (lift _) => apply preserves_lift; tc_solve
  | |- preserves _ get => apply preserves_get; tc_solve
  | |- preserves (adds _) (log _ _ _ _) => apply adds_emit; exact I
  | |- preserves (adds _) (emit (Log _ _ _ _)) => apply adds_emit; exact I
  | |- preserves (adds _) (emit (DeepFormat _ _ _)) => apply adds_emit; exact I
  | |- preserves (adds _) (modify _) => apply adds_silent; reflexivity
  | |- preserves _ (match ?x with _ => _ end) => destruct x
  end.

Lemma no_call_get_component_list_type env ep :
  preserves (adds no_call) (get_component_list_type env ep).
Proof. unfold get_component_list_type. repeat adds_step. Qed.

Lemma no_call_component_name_and_data env component td jd :
  preserves (adds no_call) (component_name_and_data env component td jd).
Proof. unfold component_name_and_data, update. repeat adds_step. Qed.

Lemma no_call_entry_points env ct lt ep name :
  preserves (adds no_call) (entry_points env ct lt ep name).
Proof.
  intros w. destruct (_entry_points_cache (proc w) !! lt) as [cached|] eqn:E.
  - unfold entry_points, bind, get. cbn match. rewrite E. reflexivity.
  - destruct (entry_points_run env ct lt ep name w E) as (new & Hnew & ->).
    destruct (decide (NoDup (names (module_entry_points env lt ep)))); cbn [snd].
    + eexists. split; [cbn; rewrite <- app_assoc; reflexivity|].
      apply Forall_app. split; [|by repeat constructor].
      constructor; [exact I | exact Hnew].
    + eexists. split; [reflexivity|]. constructor; [exact I | exact Hnew].
Qed.

Lemma no_call_macro_lookup ct name : preserves (adds no_call) (macro_lookup ct name).
Proof. unfold macro_lookup. repeat adds_step. Qed.

Lemma no_call_warn_masked ct name eps : preserves (adds no_call) (warn_masked ct name eps).
Proof. unfold warn_masked. repeat adds_step. Qed.

Lemma no_call_call_with xml jd e : no_call e -> call_with xml jd e.
Proof. by destruct e. Qed.

Lemma call_with_expand_or_call recurse ct lt xml name cd jd eps :
  (forall ct' b td', preserves (adds (call_with xml jd)) (recurse ct' xml b td' jd)) ->
  preserves (adds (call_with xml jd)) (expand_or_call recurse ct lt xml name cd jd eps).
Proof.
  intros Hrec. unfold expand_or_call.
  apply preserves_bind; [tc_solve | | intros component].
  { eapply preserves_weaken; [apply no_call_call_with | apply no_call_macro_lookup]. }
  destruct (truthy component).
  - apply preserves_bind; [tc_solve | | intros _].
    { eapply preserves_weaken; [apply no_call_call_with | apply no_call_warn_masked]. }
    repeat adds_step.
    apply preserves_for_each; [tc_solve|]. intros b. apply Hrec.
  - destruct (table_get eps name).
    + apply adds_emit. split; [reflexivity | apply filter_kwargs_job_data].
    + adds_step.
Qed.

Lemma call_with_dispatch env fuel ct xml component td jd :
  preserves (adds (call_with xml jd)) (dispatch env fuel ct xml component td jd).
Proof.
  revert ct component td.
  induction fuel as [|fuel IH]; intros ct component td; cbn [dispatch].
  - adds_step.
  - unfold dispatch_body, resolve.
    adds_step; [adds_step|].
    destruct (modules_by_component_type (self a) !! ct); [|adds_step].
    adds_step.
    { eapply preserves_weaken; [apply no_call_call_with | apply no_call_get_component_list_type]. }
    adds_step.
    { eapply preserves_weaken; [apply no_call_call_with | apply no_call_component_name_and_data]. }
    adds_step.
    { eapply preserves_weaken; [apply no_call_call_with | apply no_call_entry_points]. }
    apply call_with_expand_or_call. intros ct' b td'. apply IH.
Qed.

(** X15. Every generator that a call of [dispatch] calls, at whatever depth
    of macros, gets the XML parent of that call, and the job data of that
    call as the keyword [job_data] if it takes that argument and no keyword
    otherwise. *)
Theorem generators_get_parent_and_job_data :
  forall env fuel ct xml component td jd w,
    exists new,
      trace (proc (snd (dispatch env fuel ct xml component td jd w)))
      = trace (proc w) ++ new /\
      Forall (call_with xml jd) new.
Proof. intros env fuel ct xml component td jd w. apply call_with_dispatch. Qed.

(** ** The errors of [dispatch] *)

(** The blocks of [dispatch] that come before the macro and the entry
    point: either one of them fails, and then no generator was called and
    the registry is as it was, or they resolve the component. *)
Lemma dispatch_stages env fuel ct xml component td jd w :
  (exists o w',
      dispatch env (S fuel) ct xml component td jd w = (o, w') /\
      o <> Val tt /\ quiet_step w w' /\ adds no_call w w') \/
  (exists lt name cd eps w3,
      resolves env ct component td jd w lt name cd eps w3 /\ adds no_call w w3).
Proof.
  cbn [dispatch]. unfold dispatch_body. unfold bind at 1, get. cbn match.
  destruct (modules_by_component_type (self w) !! ct) as [ep|] eqn:Hep.
  2: { left. eexists _, _. split; [reflexivity|]. split; [discriminate|].
       split; reflexivity. }
  pose proof (quiet_get_component_list_type env ep w) as Q1.
  pose proof (no_call_get_component_list_type env ep w) as A1.
  assert (Hv : exists lt, fst (get_component_list_type env ep w) = Val lt).
  { rewrite get_component_list_type_run.
    destruct (_component_type_cache (proc w) !! ep); eauto. }
  unfold bind at 1.
  destruct (get_component_list_type env ep w) as [o1 w1] eqn:H1.
  cbn [fst snd] in Q1, A1, Hv. destruct Hv as [lt ->].
  pose proof (quiet_component_name_and_data env component td jd w1) as Q2.
  pose proof (no_call_component_name_and_data env component td jd w1) as A2.
  unfold bind at 1.
  destruct (component_name_and_data env component td jd w1) as [[[name cd]| | |] w2] eqn:H2;
    cbn [fst snd] in Q2, A2;
    try (left; eexists _, _; split; [reflexivity|]; split; [discriminate|];
         split; (transitivity w1; [assumption|assumption])).
  pose proof (quiet_entry_points env ct lt ep name w2) as Q3.
  pose proof (no_call_entry_points env ct lt ep name w2) as A3.
  unfold resolve. unfold bind at 1. cbn [fst snd].
  destruct (entry_points env ct lt ep name w2) as [[eps| | |] w3] eqn:H3;
    cbn [fst snd] in Q3, A3;
    try (left; eexists _, _; split; [reflexivity|]; split; [discriminate|];
         split; (transitivity w2; [transitivity w1|]; assumption)).
  right. exists lt, name, cd, eps, w3. split.
  - exists ep, w1, w2. repeat split; assumption.
  - transitivity w2; [transitivity w1|]; assumption.
Qed.

Lemma expand_or_call_unset recurse ct lt xml name cd jd eps w :
  parser_data (self w) = None ->
  expand_or_call recurse ct lt xml name cd jd eps w
  = (Raise (AttributeError "_ModuleRegistry__parser_data"), w).
Proof.
  intros Hunset. unfold expand_or_call, bind at 1, macro_lookup, bind, get.
  rewrite Hunset. reflexivity.
Qed.

(** X16. A registry whose parser data was never set, as the constructor
    leaves it, cannot dispatch: no call of [dispatch] returns and none calls
    a generator. When nothing fails before the macros are looked up, the
    call raises [AttributeError] for the missing attribute. *)
Theorem dispatch_needs_parser_data :
  forall env fuel ct xml component td jd w,
    parser_data (self w) = None ->
    fst (dispatch env fuel ct xml component td jd w) <> Val tt /\
    adds no_call w (snd (dispatch env fuel ct xml component td jd w)) /\
    forall lt name cd eps w3,
      resolves env ct component td jd w lt name cd eps w3 ->
      dispatch env (S fuel) ct xml component td jd w
      = (Raise (AttributeError "_ModuleRegistry__parser_data"), w3).
Proof.
  intros env fuel ct xml component td jd w Hunset.
  assert (Hraise : forall fuel' lt name cd eps w3,
             resolves env ct component td jd w lt name cd eps w3 ->
             dispatch env (S fuel') ct xml component td jd w
             = (Raise (AttributeError "_ModuleRegistry__parser_data"), w3)).
  { intros fuel' lt name cd eps w3 Hres.
    rewrite (dispatch_resolved _ _ _ _ _ _ _ _ _ _ _ _ _ Hres).
    apply expand_or_call_unset.
    destruct (resolves_quiet _ _ _ _ _ _ _ _ _ _ _ Hres) as [-> _]. exact Hunset. }
  split; [|split; [|apply Hraise]].
  - destruct fuel as [|fuel]; [discriminate|].
    destruct (dispatch_stages env fuel ct xml component td jd w)
      as [(o & w' & -> & Ho & _)|(lt & name & cd & eps & w3 & Hres & _)]; [exact Ho|].
    rewrite (Hraise _ _ _ _ _ _ Hres). discriminate.
  - destruct fuel as [|fuel]; [reflexivity|].
    destruct (dispatch_stages env fuel ct xml component td jd w)
      as [(o & w' & -> & _ & _ & Hadds)|(lt & name & cd & eps & w3 & Hres & Hadds)];
      [exact Hadds|].
    rewrite (Hraise _ _ _ _ _ _ Hres). exact Hadds.
Qed.

Lemma dispatch_needs_parser_data_witness :
  fst (dispatch Demo.env 2 "builder" 0 (VStr "shell") (VDict []) VNone demo_unset)
  = Raise (AttributeError "_ModuleRegistry__parser_data").
Proof.
  destruct (dispatch_needs_parser_data Demo.env 1 "builder" 0 (VStr "shell") (VDict []) VNone
              demo_unset eq_refl) as (_ & _ & Hraise).
  erewrite Hraise; [reflexivity|].
  apply (resolves_run Demo.env "builder" (VStr "shell") (VDict []) VNone demo_unset
           Demo.builders_ep "builders" (VStr "shell") (VDict []) demo_table eq_refl eq_refl
           eq_refl).
  vm_compute. reflexivity.
Defined.

Lemma resolves_name env ct component td jd w lt name cd eps w3 :
  resolves env ct component td jd w lt name cd eps w3 ->
  is_dict component = false ->
  name = component /\ cd = VDict [].
Proof.
  intros (ep & w1 & w2 & _ & _ & Hcd & _) Hnd.
  destruct component; try discriminate; by injection Hcd as <- <- _.
Qed.

(** X17. A component that is neither a mapping nor a string is taken as a
    name. As a name it is not the name of a macro or of an entry point: a
    list raises [TypeError], for it cannot be hashed, and [None], a Boolean,
    a number or a template raises the error of an unknown entry point or
    macro, which shows the component. *)
Theorem dispatch_component_not_a_name :
  forall env fuel ct xml component td jd w lt name cd eps w3 data,
    resolves env ct component td jd w lt name cd eps w3 ->
    parser_data (self w) = Some data ->
    is_dict component = false ->
    (forall s, component <> VStr s) ->
    dispatch env (S fuel) ct xml component td jd w =
    (Raise (if hashable component
            then JenkinsJobsException
                   "Unknown entry point or macro '{0}' for component type: '{1}'."
                   [component; VStr ct]
            else TypeError "unhashable type"),
     w3).
Proof.
  intros env fuel ct xml component td jd w lt name cd eps w3 data Hres Hdata Hnd Hns.
  rewrite (dispatch_resolved _ _ _ _ _ _ _ _ _ _ _ _ _ Hres).
  destruct (resolves_name _ _ _ _ _ _ _ _ _ _ _ Hres Hnd) as [-> ->].
  destruct (resolves_quiet _ _ _ _ _ _ _ _ _ _ _ Hres) as [Hself _].
  unfold expand_or_call, bind at 1, macro_lookup, bind, get. rewrite Hself, Hdata.
  destruct component as [| | |s| | |]; try reflexivity; try discriminate.
  by destruct (Hns s).
Qed.

Lemma dispatch_component_not_a_name_witness :
  fst (dispatch Demo.env 1 "builder" 0 (VInt 3) (VDict []) VNone Demo.world0)
  = Raise (JenkinsJobsException
             "Unknown entry point or macro '{0}' for component type: '{1}'."
             [VInt 3; VStr "builder"]) /\
  fst (dispatch Demo.env 1 "builder" 0 (VList [VStr "shell"]) (VDict []) VNone Demo.world0)
  = Raise (TypeError "unhashable type").
Proof.
  split.
  - erewrite (dispatch_component_not_a_name Demo.env 0 "builder" 0 (VInt 3) (VDict []) VNone
                Demo.world0 "builders" (VInt 3) (VDict []) demo_table _ Demo.macros);
      [reflexivity | | reflexivity | reflexivity | discriminate].
    apply (resolves_run Demo.env "builder" (VInt 3) (VDict []) VNone Demo.world0
             Demo.builders_ep "builders" (VInt 3) (VDict []) demo_table eq_refl eq_refl
             eq_refl).
    vm_compute. reflexivity.
  - erewrite (dispatch_component_not_a_name Demo.env 0 "builder" 0 (VList [VStr "shell"])
                (VDict []) VNone Demo.world0 "builders" (VList [VStr "shell"]) (VDict [])
                demo_table _ Demo.macros);
      [reflexivity | | reflexivity | reflexivity | discriminate].
    apply (resolves_run Demo.env "builder" (VList [VStr "shell"]) (VDict []) VNone Demo.world0
             Demo.builders_ep "builders" (VList [VStr "shell"]) (VDict []) demo_table
             eq_refl eq_refl eq_refl).
    vm_compute. reflexivity.
Defined.

(** X18. A macro that is a non-empty mapping without the key of the list
    type of its component type cannot be expanded: [dispatch] raises
    [KeyError] for that key, after the warning of a masked entry point if
    there is one to give, and dispatches nothing. *)
Theorem macro_without_list_type_key :
  forall env fuel ct xml component td jd w lt s cd eps w3 d,
    resolves env ct component td jd w lt (VStr s) cd eps w3 ->
    macro_of (self w) ct s = Some (VDict d) ->
    d <> [] ->
    dict_get lt d = None ->
    dispatch env (S fuel) ct xml component td jd w =
    (Raise (KeyError lt), snd (warn_masked ct (VStr s) eps w3)).
Proof.
  intros env fuel ct xml component td jd w lt s cd eps w3 d Hres Hmacro Hne Hkey.
  rewrite (dispatch_resolved _ _ _ _ _ _ _ _ _ _ _ _ _ Hres).
  destruct (resolves_quiet _ _ _ _ _ _ _ _ _ _ _ Hres) as [Hself _].
  unfold expand_or_call, bind at 1.
  rewrite (macro_lookup_eq ct s w3 (VDict d)) by (by rewrite Hself).
  assert (Htruthy : truthy (VDict d) = true) by (by destruct d).
  rewrite Htruthy. unfold bind at 1. rewrite warn_masked_eq.
  destruct (bool_decide (is_Some (eps !! s)) && negb (bool_decide (s ∈ masked_warned (self w3))));
    cbn [snd]; unfold bind at 1; cbn [getitem]; rewrite Hkey; reflexivity.
Qed.

Lemma macro_without_list_type_key_witness :
  fst (dispatch Demo.env 1 "builder" 0 (VStr "lint") (VDict []) VNone demo_odd)
  = Raise (KeyError "builders").
Proof.
  erewrite (macro_without_list_type_key Demo.env 0 "builder" 0 (VStr "lint") (VDict []) VNone
              demo_odd "builders" "lint" (VDict []) demo_table);
    [reflexivity | | reflexivity | discriminate | reflexivity].
  apply (resolves_run Demo.env "builder" (VStr "lint") (VDict []) VNone demo_odd
           Demo.builders_ep "builders" (VStr "lint") (VDict []) demo_table eq_refl eq_refl
           eq_refl).
  vm_compute. reflexivity.
Defined.

(** X19. An empty mapping as a component has no first pair: [dispatch]
    raises [StopIteration], after it has looked up the list type of the
    component type and before it looks at the template data or builds a
    table of entry points. *)
Theorem empty_mapping_component :
  forall env fuel ct xml td jd w ep,
    modules_by_component_type (self w) !! ct = Some ep ->
    dispatch env (S fuel) ct xml (VDict []) td jd w =
    (Raise StopIteration, snd (get_component_list_type env ep w)).
Proof.
  intros env fuel ct xml td jd w ep Hep.
  assert (Hv : exists lt, fst (get_component_list_type env ep w) = Val lt).
  { rewrite get_component_list_type_run.
    destruct (_component_type_cache (proc w) !! ep); eauto. }
  destruct Hv as [lt Hlt].
  rewrite (dispatch_component env fuel ct xml (VDict []) td jd w ep lt
             (snd (get_component_list_type env ep w)) Hep).
  - reflexivity.
  - rewrite <- Hlt. apply surjective_pairing.
Qed.

Lemma empty_mapping_component_witness :
  dispatch Demo.env 1 "builder" 0 (VDict []) (VDict [("x", VInt 1)]) VNone Demo.world0
  = (Raise StopIteration, demo_world1).
Proof.
  apply (empty_mapping_component Demo.env 0 "builder" 0 (VDict [("x", VInt 1)]) VNone
           Demo.world0 Demo.builders_ep).
  reflexivity.
Defined.

(** ** Macros that fail, and macros that do not end *)

Lemma for_each_stops {A : Type} (f : A -> M world unit) before b after w w1 o w2 :
  for_each f before w = (Val tt, w1) ->
  f b w1 = (o, w2) ->
  o <> Val tt ->
  for_each f (before ++ b :: after) w = (o, w2).
Proof.
  intros Hbefore Hb Ho. revert w Hbefore.
  induction before as [|x before IH]; intros w Hbefore.
  - injection Hbefore as ->. cbn [app for_each]. unfold bind. rewrite Hb.
    destruct o as [[]| | |]; [contradiction | reflexivity..].
  - cbn [app for_each] in Hbefore |- *. unfold bind in Hbefore |- *.
    destruct (f x w) as [[[]| | |] w'] eqn:Hx; try discriminate.
    apply IH. exact Hbefore.
Qed.

(** X20. The expansion of a macro stops at the first of its components
    whose dispatch does not return: [dispatch] ends as that one ends, the
    components after it are not dispatched, and what the components before
    it did stays done. *)
Theorem macro_stops_at_first_failure :
  forall env fuel ct xml component td jd w lt s cd eps w3 macro body before b after w4 o w5,
    resolves env ct component td jd w lt (VStr s) cd eps w3 ->
    macro_of (self w) ct s = Some macro ->
    truthy macro = true ->
    getitem macro lt = inr body ->
    iterate body = inr (before ++ b :: after) ->
    for_each (fun b' => dispatch env fuel ct xml b' cd jd) before
      (snd (warn_masked ct (VStr s) eps w3)) = (Val tt, w4) ->
    dispatch env fuel ct xml b cd jd w4 = (o, w5) ->
    o <> Val tt ->
    dispatch env (S fuel) ct xml component td jd w = (o, w5).
Proof.
  intros env fuel ct xml component td jd w lt s cd eps w3 macro body before b after w4 o w5
    Hres Hmacro Htruthy Hbody Hitems Hbefore Hb Ho.
  rewrite (dispatch_resolved _ _ _ _ _ _ _ _ _ _ _ _ _ Hres).
  destruct (resolves_quiet _ _ _ _ _ _ _ _ _ _ _ Hres) as [Hself _].
  rewrite (expand_macro _ _ _ _ _ _ _ _ _ macro body (before ++ b :: after));
    [| by rewrite Hself | assumption..].
  unfold bind at 1.
  destruct (warn_masked ct (VStr s) eps w3) as [[[]| | |] w3'] eqn:Hwarn;
    try (rewrite warn_masked_eq in Hwarn;
         destruct (bool_decide (is_Some (eps !! s)) &&
                   negb (bool_decide (s ∈ masked_warned (self w3)))); discriminate).
  cbn [snd] in Hbefore.
  exact (for_each_stops _ before b after w3' w4 o w5 Hbefore Hb Ho).
Qed.

Lemma macro_stops_at_first_failure_witness :
  exists w5,
    dispatch Demo.env 2 "builder" 0 (VStr "half") (VDict []) VNone demo_odd
    = (Raise (JenkinsJobsException
                "Unknown entry point or macro '{0}' for component type: '{1}'."
                [VStr "nowhere"; VStr "builder"]), w5) /\
    omap (fun e => match e with Call f _ _ _ => Some (func_name f) | _ => None end)
      (trace (proc w5)) = ["shell"].
Proof.
  eexists. split.
  - apply (macro_stops_at_first_failure Demo.env 1 "builder" 0 (VStr "half") (VDict []) VNone
             demo_odd "builders" "half" (VDict []) demo_table
             (snd (entry_points Demo.env "builder" "builders" Demo.builders_ep (VStr "half")
                     (snd (get_component_list_type Demo.env Demo.builders_ep demo_odd))))
             (VDict [("name", VStr "half");
                     ("builders", VList [VDict [("shell", VStr "make")];
                                         VStr "nowhere";
                                         VStr "trigger-builds"])])
             (VList [VDict [("shell", VStr "make")]; VStr "nowhere"; VStr "trigger-builds"])
             [VDict [("shell", VStr "make")]] (VStr "nowhere") [VStr "trigger-builds"]
             (snd (dispatch Demo.env 1 "builder" 0 (VDict [("shell", VStr "make")]) (VDict [])
                     VNone
                     (snd (entry_points Demo.env "builder" "builders" Demo.builders_ep
                             (VStr "half")
                             (snd (get_component_list_type Demo.env Demo.builders_ep
                                     demo_odd))))))).
    + apply (resolves_run Demo.env "builder" (VStr "half") (VDict []) VNone demo_odd
               Demo.builders_ep "builders" (VStr "half") (VDict []) demo_table eq_refl eq_refl
               eq_refl).
      vm_compute. reflexivity.
    + reflexivity.
    + reflexivity.
    + reflexivity.
    + reflexivity.
    + vm_compute. reflexivity.
    + vm_compute. reflexivity.
    + discriminate.
  - vm_compute. reflexivity.
Defined.

(** X21. A macro whose first component is its own name makes [dispatch]
    recurse without an end: whatever bound is put on the depth of the
    recursion, the call exceeds it. Nothing in [dispatch] looks for a
    cycle. The table of entry points has to be there or be built, for a
    duplicate name ends the call before the macro is looked up. *)
Theorem macro_of_itself_never_ends :
  forall env ct ep lt s macro body rest xml jd fuel td w,
    truthy macro = true ->
    getitem macro lt = inr body ->
    iterate body = inr (VStr s :: rest) ->
    modules_by_component_type (self w) !! ct = Some ep ->
    default (component_list_type (load_module env ep))
      (_component_type_cache (proc w) !! ep) = lt ->
    macro_of (self w) ct s = Some macro ->
    is_Some (_entry_points_cache (proc w) !! lt) \/
      NoDup (names (module_entry_points env lt ep)) ->
    fst (dispatch env fuel ct xml (VStr s) td jd w) = OutOfFuel.
Proof.
  intros env ct ep lt s macro body rest xml jd fuel td w Htruthy Hbody Hitems.
  revert td w. induction fuel as [|fuel IH]; intros td w Hep Hlt Hmacro Havail;
    [reflexivity|].
  destruct (get_component_list_type env ep w) as [o1 w1] eqn:H1.
  assert (o1 = Val lt) as ->.
  { rewrite get_component_list_type_run in H1.
    destruct (_component_type_cache (proc w) !! ep); cbn in Hlt; congruence. }
  destruct (get_component_list_type_caches _ _ _ _ _ H1) as [Hct1 Heps1].
  destruct (entry_points_available env ct lt ep (VStr s) w1) as (eps & w3 & H3).
  { by rewrite Heps1. }
  assert (Hres : resolves env ct (VStr s) td jd w lt (VStr s) (VDict []) eps w3).
  { exists ep, w1, w1. repeat split; assumption. }
  rewrite (dispatch_resolved _ _ _ _ _ _ _ _ _ _ _ _ _ Hres).
  destruct (resolves_quiet _ _ _ _ _ _ _ _ _ _ _ Hres) as [Hself _].
  rewrite (expand_macro _ _ _ _ _ _ _ _ _ macro body (VStr s :: rest));
    [| by rewrite Hself | assumption..].
  pose proof (grows_entry_points env ct lt ep (VStr s) w1) as G3.
  rewrite H3 in G3. cbn [snd] in G3.
  pose proof (grows_warn_masked ct (VStr s) eps w3) as Gw.
  unfold bind at 1.
  destruct (warn_masked ct (VStr s) eps w3) as [[[]| | |] w3'] eqn:Hwarn;
    try (rewrite warn_masked_eq in Hwarn;
         destruct (bool_decide (is_Some (eps !! s)) &&
                   negb (bool_decide (s ∈ masked_warned (self w3)))); discriminate).
  cbn [snd] in Gw.
  destruct Gw as ((_ & Hmods & _ & _ & _ & Hdata) & _ & Heps' & Hct' & _).
  destruct G3 as (_ & _ & _ & Hct3 & _).
  cbn [for_each]. unfold bind at 1.
  specialize (IH (VDict []) w3').
  destruct (dispatch env fuel ct xml (VStr s) (VDict []) jd w3') as [o w4].
  cbn [fst] in IH. rewrite IH; [reflexivity| | | |].
  - by rewrite Hmods, Hself.
  - assert (Hin : _component_type_cache (proc w3') !! ep = Some lt).
    { eapply lookup_weaken; [|exact Hct']. eapply lookup_weaken; [exact Hct1 | exact Hct3]. }
    by rewrite Hin.
  - unfold macro_of in Hmacro |- *. by rewrite Hdata, Hself.
  - left. exists eps. eapply lookup_weaken; [|exact Heps'].
    eapply entry_points_cached_after, H3.
Qed.

Lemma macro_of_itself_never_ends_witness :
  fst (dispatch Demo.env 7 "builder" 0 (VStr "again") (VDict []) VNone demo_odd) = OutOfFuel.
Proof.
  apply (macro_of_itself_never_ends Demo.env "builder" Demo.builders_ep "builders" "again"
           (VDict [("name", VStr "again"); ("builders", VList [VStr "again"])])
           (VList [VStr "again"]) [] 0 VNone 7 (VDict []) demo_odd);
    try reflexivity.
  right. vm_compute. repeat constructor; set_solver.
Defined.

(** ** Docstrings *)

Lemma split_free sep s : free_of sep s = true -> split sep s = [s].
Proof.
  induction s as [|c s IH]; [reflexivity|].
  cbn [free_of split]. intros H. apply andb_prop in H as [Hc Hs].
  apply negb_true_iff in Hc. rewrite Hc, (IH Hs). reflexivity.
Qed.

Lemma split_app sep a b :
  free_of sep a = true -> split sep (a +:+ String sep b) = a :: split sep b.
Proof.
  induction a as [|c a IH]; intros H.
  - change (EmptyString +:+ String sep b) with (String sep b).
    cbn [split]. by rewrite Ascii.eqb_refl.
  - cbn [free_of] in H. apply andb_prop in H as [Hc Ha].
    apply negb_true_iff in Hc.
    rewrite VersionFacts.append_cons. cbn [split]. rewrite Hc, (IH Ha). reflexivity.
Qed.

Lemma split_first_line line rest :
  free_of Re.newline line = true ->
  rest = EmptyString \/ (exists r, rest = String Re.newline r) ->
  exists lines, split Re.newline (line +:+ rest) = line :: lines.
Proof.
  intros Hline [-> | [r ->]].
  - exists []. rewrite VersionFacts.append_empty_r. by apply split_free.
  - eexists. by apply split_app.
Qed.

(** X22. How a docstring declares an entry point. Only the first line of
    the docstring is read. A first line that does not start with the tag is
    ignored; one that starts with it and has no space declares nothing; and
    otherwise the name declared is what stands between the first space and
    the second, or the end of the line, whatever comes before the first
    space. *)
Theorem read_docstring_first_line :
  forall func_ep line rest,
    func_doc func_ep = Some (line +:+ rest) ->
    free_of Re.newline line = true ->
    rest = EmptyString \/ (exists r, rest = String Re.newline r) ->
    (startswith "yaml:" line = false ->
     exists lines, read_docstring func_ep = Ignored (line :: lines)) /\
    (startswith "yaml:" line = true ->
     free_of " " line = true ->
     read_docstring func_ep = NotIncluded) /\
    (startswith "yaml:" line = true ->
     forall tag name more,
       line = tag +:+ " " +:+ name +:+ more ->
       free_of " " tag = true ->
       free_of " " name = true ->
       more = EmptyString \/ (exists m, more = String " " m) ->
       read_docstring func_ep = Declares name).
Proof.
  intros func_ep line rest Hdoc Hline Hrest.
  destruct (split_first_line line rest Hline Hrest) as [lines Hlines].
  unfold read_docstring. rewrite Hdoc, Hlines.
  split; [|split].
  - intros ->. eauto.
  - intros -> Hfree. cbn [negb]. by rewrite (split_free _ _ Hfree).
  - intros -> tag name more -> Htag Hname Hmore. cbn [negb].
    change (" " +:+ name +:+ more) with (String " " (name +:+ more)).
    rewrite (split_app _ _ _ Htag).
    destruct Hmore as [-> | [m ->]].
    + rewrite VersionFacts.append_empty_r, (split_free _ _ Hname). reflexivity.
    + rewrite (split_app _ _ _ Hname). reflexivity.
Qed.

Lemma read_docstring_first_line_witness :
  read_docstring Demo.shell = Declares "shell".
Proof.
  destruct (read_docstring_first_line Demo.shell "yaml: shell"
              (String Re.newline "Execute a shell command.") eq_refl eq_refl
              (or_intror (ex_intro _ "Execute a shell command." eq_refl)))
    as (_ & _ & Hdeclares).
  apply (Hdeclares eq_refl "yaml:" "shell" EmptyString eq_refl eq_refl eq_refl).
  left. reflexivity.
Defined.

(** ** Keyword arguments *)

(** X23. [_filter_kwargs] keeps of the keyword arguments those that the
    function takes: looking up a name in what it returns gives the value
    that was passed under that name if the name is an argument of the
    function, and nothing otherwise. *)
Theorem filter_kwargs_lookup :
  forall func kwargs k,
    dict_get k (_filter_kwargs func kwargs) =
    if bool_decide (k ∈ func_args func) then dict_get k kwargs else None.
Proof.
  intros func kwargs k. unfold _filter_kwargs.
  induction kwargs as [|[k' v] kwargs IH].
  - by destruct (bool_decide (k ∈ func_args func)).
  - rewrite filter_cons. cbn [fst].
    destruct (decide (k' ∈ func_args func)) as [Hin|Hnin].
    + cbn [dict_get]. destruct (String.eqb k k') eqn:E; [|exact IH].
      apply String.eqb_eq in E. subst k'. by rewrite bool_decide_eq_true_2.
    + rewrite IH. cbn [dict_get]. destruct (String.eqb k k') eqn:E; [|reflexivity].
      apply String.eqb_eq in E. subst k'. by rewrite bool_decide_eq_false_2.
Qed.
